(** * The BLOCK storage driver and its frame cache

    A shallow embedding of [block_driver.c] (register protocol, file and
    handle tables, frame allocation) and of [block_cache.c] (the bounded
    frame cache), with the properties of the design specification stated
    over it. *)

From Stdlib Require Import ZArith List Lia Bool.
From stdpp Require Import base list gmap.

Local Open Scope Z_scope.

(** ** Machine integers

    C integers are modelled as [Z]; a conversion to an unsigned type of
    [w] bits is reduction modulo [2^w], a conversion to a signed type is
    the two's-complement reading of that residue. *)

Definition u8 (x : Z) : Z := x mod 2 ^ 8.
Definition u16 (x : Z) : Z := x mod 2 ^ 16.
Definition u32 (x : Z) : Z := x mod 2 ^ 32.
Definition u64 (x : Z) : Z := x mod 2 ^ 64.

Definition s16 (x : Z) : Z :=
  let r := x mod 2 ^ 16 in if r <? 2 ^ 15 then r else r - 2 ^ 16.

Definition s32 (x : Z) : Z :=
  let r := x mod 2 ^ 32 in if r <? 2 ^ 31 then r else r - 2 ^ 32.

(** ** The transfer register ([pack], [unpack])

    [BlockXferRegister] is a 64-bit unsigned value.  The four arguments
    are [uint32_t]; each is widened to 64 bits before it is shifted, and a
    left shift of a [uint64_t] drops the bits that leave the word. *)

Definition pack (ky1 fm1 cs1 rt1 : Z) : Z :=
  Z.lor (Z.lor (Z.lor (u64 (Z.shiftl (u32 ky1) 56))
                      (u64 (Z.shiftl (u32 fm1) 40)))
               (u64 (Z.shiftl (u32 cs1) 8)))
        (u32 rt1).

(** [unpack] stores each field through a [uint32_t*]. *)
Definition unpack (reg : Z) : Z * Z * Z * Z :=
  (u32 (Z.shiftr reg 56),
   u32 (Z.shiftr (u64 (Z.shiftl reg 8)) 48),
   u32 (Z.shiftr (u64 (Z.shiftl reg 24)) 32),
   u32 (Z.shiftr (u64 (Z.shiftl reg 56)) 56)).

(** ** Results of C code

    [Ok] is a normal return.  [Undefined] marks behaviour C leaves
    undefined (an access outside an array, a NULL or uninitialised pointer
    dereferenced).  [Diverge] marks a loop that has not finished within the
    number of rounds the model was given. *)

Inductive res (A : Type) : Type :=
| Ok (a : A)
| Undefined
| Diverge.

Arguments Ok {A} a.
Arguments Undefined {A}.
Arguments Diverge {A}.

Definition bind {A B : Type} (m : res A) (k : A -> res B) : res B :=
  match m with
  | Ok a => k a
  | Undefined => Undefined
  | Diverge => Diverge
  end.

Notation "'do' x <- m ; k" := (bind m (fun x => k))
  (at level 10, x pattern, m at level 100, k at level 200).

(** ** Arrays and [memcpy] *)

Definition len {A : Type} (l : list A) : Z := Z.of_nat (length l).

(** [a[i]] read: outside the array it is undefined. *)
Definition array_get {A : Type} (l : list A) (i : Z) : res A :=
  if i <? 0 then Undefined
  else match l !! Z.to_nat i with
       | Some x => Ok x
       | None => Undefined
       end.

(** [a[i] = x]. *)
Definition array_set {A : Type} (l : list A) (i : Z) (x : A) : res (list A) :=
  if (0 <=? i) && (i <? len l) then Ok (<[Z.to_nat i := x]> l) else Undefined.

(** [memcpy(dst + doff, src + soff, n)]: the [n] bytes of [src] from
    [soff] replace those of [dst] from [doff].  [n] is a [size_t]; a
    negative [int] converts to a size no buffer has. *)
Definition memcpy (dst : list Z) (doff : Z) (src : list Z) (soff n : Z)
  : res (list Z) :=
  if (0 <=? n) && (0 <=? doff) && (doff + n <=? len dst)
     && (0 <=? soff) && (soff + n <=? len src)
  then Ok (take (Z.to_nat doff) dst
           ++ take (Z.to_nat n) (drop (Z.to_nat soff) src)
           ++ drop (Z.to_nat (doff + n)) dst)
  else Undefined.

(** Modelled from the spec: [BLOCK_FRAME_SIZE] is defined in
    [block_controller.h], which is not among the sources; the
    specification fixes a frame at 4096 bytes, and [block_cache.c] copies
    4096 bytes for a frame. *)
Definition BLOCK_FRAME_SIZE : Z := 4096.

(** A frame is the content of a [frame_t], a list of 4096 bytes.  A frame
    argument given as a pointer stands for the 4096 bytes it points to;
    the NULL pointer of [block_poweron] and [block_poweroff] is the empty
    list. *)
Definition NULL_frame : list Z := [].

(** ** The frame cache ([block_cache.c])

    The singly linked list of [CacheNode]s is the list of its nodes from
    [cache->head] on; a node's [next] pointer is its position in the
    list.  [BlockIndex] and [BlockFrameIndex] are integer types of
    [block_controller.h]; their values are carried as they are. *)

Record CacheNode := {
  nBlock : Z;
  nFrm : Z;
  nbuf : list Z
}.

Record Cache := {
  currentSize : Z;
  head : list CacheNode
}.

(** The two globals of the file: [block_cache_max_items] and the pointer
    [cache] ([None] is NULL). *)
Record CacheState := {
  block_cache_max_items : Z;
  cache : option Cache
}.

Definition createNewNode (nBlock nFrm : Z) (nBuf : list Z) : CacheNode :=
  {| nBlock := nBlock; nFrm := nFrm; nbuf := nBuf |}.

(** [memcpy(node->nbuf, buf, 4096)].  The test [node->nbuf != buf] skips
    the copy when [buf] is the node's own buffer; the content is then [buf]
    already. *)
Definition set_nbuf (n : CacheNode) (buf : list Z) : CacheNode :=
  {| nBlock := nBlock n; nFrm := nFrm n; nbuf := buf |}.

Definition set_cache (st : CacheState) (c : Cache) : CacheState :=
  {| block_cache_max_items := block_cache_max_items st; cache := Some c |}.

Definition set_head (c : Cache) (l : list CacheNode) : Cache :=
  {| currentSize := currentSize c; head := l |}.

Definition set_block_cache_size (max_frames : Z) (st : CacheState)
  : Z * CacheState :=
  (0, {| block_cache_max_items := u32 max_frames; cache := cache st |}).

(** [calloc] is taken to succeed. *)
Definition init_block_cache (st : CacheState) : Z * CacheState :=
  (0, set_cache st {| currentSize := 0; head := [] |}).

Definition close_block_cache (st : CacheState) : res (Z * CacheState) :=
  match cache st with
  | None => Undefined
  | Some _ =>
      Ok (0, {| block_cache_max_items := block_cache_max_items st;
                cache := None |})
  end.

(** The scan of the full cache,
    [for (iter = head; iter->next != NULL && iter->next->nFrm != frm;
          iter = iter->next) previter = iter;].
    [passed] are the nodes before [iter], [rest] those after it;
    [previter] is the last of [passed], uninitialised while [passed] is
    empty. *)
Fixpoint scan_next (frm : Z) (passed : list CacheNode) (iter : CacheNode)
    (rest : list CacheNode)
  : list CacheNode * CacheNode * list CacheNode :=
  match rest with
  | [] => (passed, iter, [])
  | n :: rest' =>
      if nFrm n =? frm then (passed, iter, rest)
      else scan_next frm (passed ++ [iter]) n rest'
  end.

(** The scan below capacity,
    [for (iter = head; iter->next != NULL && iter->nFrm != frm;
          iter = iter->next) previter = iter;]. *)
Fixpoint scan_cur (frm : Z) (passed : list CacheNode) (iter : CacheNode)
    (rest : list CacheNode)
  : list CacheNode * CacheNode * list CacheNode :=
  match rest with
  | [] => (passed, iter, [])
  | n :: rest' =>
      if nFrm iter =? frm then (passed, iter, rest)
      else scan_cur frm (passed ++ [iter]) n rest'
  end.

(** [previter->next], with [previter] the last node passed. *)
Definition previter_next (passed : list CacheNode) (iter : CacheNode)
  : res CacheNode :=
  match last passed with
  | None => Undefined
  | Some _ => Ok iter
  end.

Definition put_block_cache (block frm : Z) (buf : list Z) (st : CacheState)
  : res (Z * CacheState) :=
  match cache st with
  | None => Undefined
  | Some c =>
    if currentSize c =? 0 then
      let newNode := createNewNode block frm buf in
      Ok (0, set_cache st {| currentSize := u32 (currentSize c + 1);
                             head := [newNode] |})
    else if currentSize c =? 1 then
      match head c with
      | [] => Undefined
      | h :: rest =>
          if nFrm h =? frm then
            Ok (0, set_cache st (set_head c (set_nbuf h buf :: rest)))
          else
            let newNode := createNewNode block frm buf in
            Ok (0, set_cache st {| currentSize := u32 (currentSize c + 1);
                                   head := newNode :: h :: rest |})
      end
    else if currentSize c =? block_cache_max_items st then
      match head c with
      | [] => Undefined
      | h :: rest =>
          if nFrm h =? frm then
            Ok (0, set_cache st (set_head c (set_nbuf h buf :: rest)))
          else
            let '(passed, iter, after) := scan_next frm [] h rest in
            match after with
            | popVal :: after' =>
                Ok (0, set_cache st
                         (set_head c (set_nbuf popVal buf
                                        :: passed ++ iter :: after')))
            | [] =>
                do popVal <- previter_next passed iter;
                Ok (0, set_cache st
                         (set_head c ({| nBlock := block; nFrm := frm;
                                         nbuf := buf |} :: passed)))
            end
      end
    else
      match head c with
      | [] => Undefined
      | h :: rest =>
          if nFrm h =? frm then
            Ok (0, set_cache st (set_head c (set_nbuf h buf :: rest)))
          else
            let '(passed, iter, after) := scan_cur frm [] h rest in
            match after with
            | _ :: _ =>
                do popVal <- previter_next passed iter;
                Ok (0, set_cache st
                         (set_head c (set_nbuf popVal buf
                                        :: passed ++ after)))
            | [] =>
                if nFrm iter =? frm then
                  do popVal <- previter_next passed iter;
                  Ok (0, set_cache st
                           (set_head c (set_nbuf popVal buf :: passed)))
                else
                  let newNode := createNewNode block frm buf in
                  Ok (0, set_cache st
                           {| currentSize := u32 (currentSize c + 1);
                              head := newNode :: passed ++ [iter] |})
            end
      end
  end.

(** [while ((iter->next != NULL) && (iter->nFrm != frm)) iter = iter->next;] *)
Fixpoint get_scan (frm : Z) (iter : CacheNode) (rest : list CacheNode)
  : CacheNode :=
  match rest with
  | [] => iter
  | n :: rest' => if nFrm iter =? frm then iter else get_scan frm n rest'
  end.

(** The result is the frame the returned pointer points to, [None] for
    NULL.  The function has no assignment to the cache. *)
Definition get_block_cache (block frm : Z) (st : CacheState)
  : res (option (list Z)) :=
  match cache st with
  | None => Undefined
  | Some c =>
      match head c with
      | [] => Ok None
      | iter :: rest =>
          if nFrm iter =? frm then Ok (Some (nbuf iter))
          else
            let iter' := get_scan frm iter rest in
            if nFrm iter' =? frm then Ok (Some (nbuf iter')) else Ok None
      end
  end.

(** ** What the driver takes from outside

    [block_controller.h] and the simulated device are not among the
    sources.  The bus primitive [block_io_bus], the checksum
    [compute_frame_checksum] and the constants of the header are the
    fields of a [Platform].  The bus takes the register and the frame
    buffer, returns a register, and may rewrite the buffer and its own
    state. *)

Class Platform := {
  Bus : Type;
  block_io_bus : Bus -> Z -> list Z -> Z * list Z * Bus;
  compute_frame_checksum : list Z -> Z;
  BLOCK_BLOCK_SIZE : Z;
  BLOCK_MAX_TOTAL_FILES : Z;
  BLOCK_OP_INITMS : Z;
  BLOCK_OP_BZERO : Z;
  BLOCK_OP_POWOFF : Z;
  BLOCK_OP_RDFRME : Z;
  BLOCK_OP_WRFRME : Z;
  DEFAULT_BLOCK_FRAME_CACHE_SIZE : Z
}.

Section Driver.
Context {P : Platform}.

(** ** The protocol engine ([executeOpcode]) *)

(** [compute_frame_checksum(frame, &cs1)] with [cs1] a [uint32_t]. *)
Definition frame_checksum (frame : list Z) : Z :=
  u32 (compute_frame_checksum frame).

(** The register one round of the loop hands to the bus. *)
Definition request_register (frame : list Z) (ky1 fm1 : Z) : Z :=
  let cs1 := if ky1 =? BLOCK_OP_WRFRME then frame_checksum frame else 0 in
  pack ky1 fm1 cs1 0.

(** One round of [while (rt1 != 0) { ... }]: the values of [rt1], [ky1]
    and [fm1], the buffer and the bus after it. *)
Definition executeOpcode_round (b : Bus) (frame : list Z) (ky1 fm1 : Z)
  : Z * Z * Z * list Z * Bus :=
  let regstate := request_register frame ky1 fm1 in
  let '(regstate, frame, b) := block_io_bus b regstate frame in
  let '(ky1, fm1, cs1, rt1) := unpack (u64 regstate) in
  let rt1 :=
    if ky1 =? BLOCK_OP_RDFRME then
      (if cs1 =? frame_checksum frame then 0 else u32 (-1))
    else rt1 in
  (rt1, ky1, fm1, frame, b).

(** [rt1] starts at [-1], so the first round always runs; [fuel] bounds
    the number of rounds.  The function is [void]: it gives back the
    buffer it was handed, as the bus left it, and the bus. *)
Fixpoint executeOpcode (fuel : nat) (b : Bus) (frame : list Z) (ky1 fm1 : Z)
  : res (list Z * Bus) :=
  match fuel with
  | O => Diverge
  | S fuel' =>
      let '(rt1, ky1, fm1, frame, b) := executeOpcode_round b frame ky1 fm1 in
      if rt1 =? 0 then Ok (frame, b) else executeOpcode fuel' b frame ky1 fm1
  end.

(** ** Files and handles *)

Definition OPEN : Z := 1.
Definition CLOSED : Z := 0.

Record file_t := {
  name : list Z;
  size : Z;
  frames : list Z;
  nrFrames : Z
}.

(** [file] is the pointer into the table [files]: the index of the file,
    [None] for NULL. *)
Record fh_t := {
  file : option Z;
  loc : Z;
  status : Z
}.

Record Driver := {
  isOn : Z;
  nbFiles : Z;
  nbHandles : Z;
  freeFrameNr : Z;
  files : list file_t;
  handles : list fh_t;
  cache_st : CacheState;
  bus : Bus
}.

Definition set_handles (d : Driver) (hs : list fh_t) : Driver :=
  {| isOn := isOn d; nbFiles := nbFiles d; nbHandles := nbHandles d;
     freeFrameNr := freeFrameNr d; files := files d; handles := hs;
     cache_st := cache_st d; bus := bus d |}.

Definition set_files (d : Driver) (fs : list file_t) : Driver :=
  {| isOn := isOn d; nbFiles := nbFiles d; nbHandles := nbHandles d;
     freeFrameNr := freeFrameNr d; files := fs; handles := handles d;
     cache_st := cache_st d; bus := bus d |}.

Definition set_freeFrameNr (d : Driver) (n : Z) : Driver :=
  {| isOn := isOn d; nbFiles := nbFiles d; nbHandles := nbHandles d;
     freeFrameNr := n; files := files d; handles := handles d;
     cache_st := cache_st d; bus := bus d |}.

Definition set_io (d : Driver) (cs : CacheState) (b : Bus) : Driver :=
  {| isOn := isOn d; nbFiles := nbFiles d; nbHandles := nbHandles d;
     freeFrameNr := freeFrameNr d; files := files d; handles := handles d;
     cache_st := cs; bus := b |}.

(** [*p] for a [file_t* p]. *)
Definition deref_file (d : Driver) (p : option Z) : res file_t :=
  match p with
  | None => Undefined
  | Some i => array_get (files d) i
  end.

(** [memset(&files[i], 0, sizeof(file_t))], [memset(&handles[i], 0, ...)]. *)
Definition zero_file : file_t :=
  {| name := repeat 0 128; size := 0; frames := repeat 0 1024; nrFrames := 0 |}.

Definition zero_handle : fh_t :=
  {| file := None; loc := 0; status := 0 |}.

(** [strlen(files[i].name) == 0]: the first byte is the terminator. *)
Fixpoint getNbFiles_from (i : Z) (fs : list file_t) : Z :=
  match fs with
  | [] => i
  | f :: fs' =>
      match name f with
      | c :: _ => if c =? 0 then i else getNbFiles_from (i + 1) fs'
      | [] => i
      end
  end.

Definition getNbFiles (fs : list file_t) : Z := getNbFiles_from 0 fs.

(** The first loop of [getFreeFrame] runs from [BLOCK_MAX_TOTAL_FILES] to
    [BLOCK_MAX_TOTAL_FILES] and marks nothing; the second starts at
    [BLOCK_MAX_TOTAL_FILES] and returns at the first unmarked frame. *)
Definition getFreeFrame (fs : list file_t) : Z :=
  if BLOCK_MAX_TOTAL_FILES <? BLOCK_BLOCK_SIZE then BLOCK_MAX_TOTAL_FILES
  else -1.

Definition createNewFile (path : list Z) (f : file_t) : res file_t :=
  do nm <- memcpy (name f) 0 path 0 (len path);
  Ok {| name := nm; size := 0; frames := frames f; nrFrames := 0 |}.

Definition openFile (i : Z) : fh_t :=
  {| file := Some i; loc := 0; status := OPEN |}.

Definition closeFile (h : fh_t) : fh_t :=
  {| file := None; loc := -1; status := CLOSED |}.

Definition closeAllFiles (hs : list fh_t) : list fh_t := map closeFile hs.

(** [memcmp(files[i].name, path, strlen(path)) == 0]; reading past the
    128 bytes of the name is undefined. *)
Definition name_matches (f : file_t) (path : list Z) : res bool :=
  if len path <=? len (name f)
  then Ok (bool_decide (take (length path) (name f) = path))
  else Undefined.

(** [while (i < nbFiles && !found)], as the pair [(found, i)]. *)
Fixpoint find_file (n : nat) (i : Z) (d : Driver) (path : list Z)
  : res (bool * Z) :=
  match n with
  | O => Ok (false, i)
  | S n' =>
      do f <- array_get (files d) i;
      do m <- name_matches f path;
      if m then Ok (true, i) else find_file n' (i + 1) d path
  end.

Definition block_poweron (fuel : nat) (d : Driver) : res (Z * Driver) :=
  if negb (isOn d =? 0) then Ok (-1, d)
  else
    do (_, b) <- executeOpcode fuel (bus d) NULL_frame BLOCK_OP_INITMS 0;
    do (_, b) <- executeOpcode fuel b NULL_frame BLOCK_OP_BZERO 0;
    let fs := repeat zero_file (Z.to_nat BLOCK_MAX_TOTAL_FILES) in
    let hs := repeat zero_handle (Z.to_nat BLOCK_MAX_TOTAL_FILES) in
    let '(rc, cs) := init_block_cache (cache_st d) in
    let d' := {| isOn := 1; nbFiles := getNbFiles fs; nbHandles := 0;
                 freeFrameNr := getFreeFrame fs; files := fs; handles := hs;
                 cache_st := cs; bus := b |} in
    if negb (rc =? 0) then Ok (-1, d') else Ok (0, d').

Definition block_poweroff (fuel : nat) (d : Driver) : res (Z * Driver) :=
  if isOn d =? 0 then Ok (-1, d)
  else
    do (_, b) <- executeOpcode fuel (bus d) NULL_frame BLOCK_OP_POWOFF 0;
    do (rc, cs) <- close_block_cache (cache_st d);
    let d' := {| isOn := isOn d; nbFiles := 0; nbHandles := 0;
                 freeFrameNr := 0; files := files d;
                 handles := closeAllFiles (handles d);
                 cache_st := cs; bus := b |} in
    if negb (rc =? 0) then Ok (-1, d') else Ok (0, d').

(** [path] is the string without its terminator.  The handle returned is
    [nbHandles] as an [int16_t]. *)
Definition block_open (path : list Z) (d : Driver) : res (Z * Driver) :=
  if isOn d =? 0 then Ok (-1, d)
  else
    do (found, i) <- find_file (Z.to_nat (nbFiles d)) 0 d path;
    do (i, d1) <-
      (if found then Ok (i, d)
       else
         do slot <- array_get (files d) (nbFiles d);
         do f <- createNewFile path slot;
         do fs <- array_set (files d) (nbFiles d) f;
         Ok (nbFiles d,
             {| isOn := isOn d; nbFiles := nbFiles d + 1;
                nbHandles := nbHandles d; freeFrameNr := freeFrameNr d;
                files := fs; handles := handles d;
                cache_st := cache_st d; bus := bus d |}));
    do hs <- array_set (handles d1) (nbHandles d1) (openFile i);
    Ok (s16 (nbHandles d1),
        {| isOn := isOn d1; nbFiles := nbFiles d1;
           nbHandles := nbHandles d1 + 1; freeFrameNr := freeFrameNr d1;
           files := files d1; handles := hs;
           cache_st := cache_st d1; bus := bus d1 |}).

Definition block_close (fd : Z) (d : Driver) : res (Z * Driver) :=
  if isOn d =? 0 then Ok (-1, d)
  else
    do h <- array_get (handles d) fd;
    if status h =? CLOSED then Ok (-1, d)
    else
      do hs <- array_set (handles d) fd (closeFile h);
      Ok (0, set_handles d hs).

(** The frame of the cache if it holds one for [frame_nr], else the frame
    read from the device, which is then put into the cache. *)
Definition fetch_frame (fuel : nat) (frame : list Z) (frame_nr : Z)
    (cs : CacheState) (b : Bus) : res (list Z * CacheState * Bus) :=
  do cacheBuf <- get_block_cache 0 frame_nr cs;
  match cacheBuf with
  | Some c =>
      do frame <- memcpy frame 0 c 0 BLOCK_FRAME_SIZE;
      Ok (frame, cs, b)
  | None =>
      do (frame, b) <- executeOpcode fuel b frame BLOCK_OP_RDFRME frame_nr;
      do (_, cs) <- put_block_cache 0 frame_nr frame cs;
      Ok (frame, cs, b)
  end.

(** The local [frame_t frame] of [block_read] and [block_write] is not
    initialised in C; the model starts it as 4096 zero bytes. *)
Definition frame_uninit : list Z := repeat 0 (Z.to_nat BLOCK_FRAME_SIZE).

(** [while (remaining != 0)] of [block_read]; [n] bounds the rounds, [out]
    is what has been copied to [buf] so far. *)
Fixpoint read_loop (n fuel : nat) (f : file_t) (frame : list Z)
    (loc remaining : Z) (out : list Z) (cs : CacheState) (b : Bus)
  : res (Z * list Z * CacheState * Bus) :=
  if remaining =? 0 then Ok (loc, out, cs, b)
  else
    match n with
    | O => Diverge
    | S n' =>
        let frame_offset := Z.rem loc BLOCK_FRAME_SIZE in
        do frame_nr <- array_get (frames f) (Z.quot loc BLOCK_FRAME_SIZE);
        do (frame, cs, b) <- fetch_frame fuel frame frame_nr cs b;
        let data_size :=
          if BLOCK_FRAME_SIZE - frame_offset >? remaining then remaining
          else BLOCK_FRAME_SIZE - frame_offset in
        do chunk <- memcpy (repeat 0 (Z.to_nat data_size)) 0
                           frame frame_offset data_size;
        read_loop n' fuel f frame (loc + data_size) (remaining - data_size)
                  (out ++ chunk) cs b
    end.

(** The result carries the return value, the bytes stored into [buf] from
    its start on, and the state. *)
Definition block_read (fuel : nat) (fd : Z) (count : Z) (d : Driver)
  : res (Z * list Z * Driver) :=
  if isOn d =? 0 then Ok (-1, [], d)
  else
    do h <- array_get (handles d) fd;
    if status h =? CLOSED then Ok (-1, [], d)
    else
      do f <- deref_file d (file h);
      let count := if size f - loc h <? count then size f - loc h else count in
      do (loc', out, cs, b) <-
        read_loop (Z.to_nat (Z.abs count)) fuel f frame_uninit (loc h) count []
                  (cache_st d) (bus d);
      do hs <- array_set (handles d) fd
                 {| file := file h; loc := loc'; status := status h |};
      Ok (count, out, set_handles (set_io d cs b) hs).

(** [while (loc + count > nrFrames * BLOCK_FRAME_SIZE)] of
    [allocateNewFrames]; [nrFrames] is the local [uint16_t].  The result is
    the return value, the frame array, the local [nrFrames] and the
    counter. *)
Fixpoint allocate_loop (n : nat) (loc count : Z) (frs : list Z)
    (nrFrames freeFrameNr : Z) : res (Z * list Z * Z * Z) :=
  if loc + count >? nrFrames * BLOCK_FRAME_SIZE then
    match n with
    | O => Diverge
    | S n' =>
        do frs <- array_set frs nrFrames (u16 freeFrameNr);
        let freeFrameNr := freeFrameNr + 1 in
        let nrFrames := u16 (nrFrames + 1) in
        if freeFrameNr >? BLOCK_BLOCK_SIZE then Ok (-1, frs, nrFrames, freeFrameNr)
        else allocate_loop n' loc count frs nrFrames freeFrameNr
    end
  else Ok (0, frs, nrFrames, freeFrameNr).

Definition store_file (d : Driver) (p : option Z) (f : file_t) : res Driver :=
  match p with
  | None => Undefined
  | Some i => do fs <- array_set (files d) i f; Ok (set_files d fs)
  end.

(** [handle] is [&handles[fd]].  The frames are written into the file as
    the loop goes; [nrFrames] is stored only when the loop ends normally. *)
Definition allocateNewFrames (h : fh_t) (count : Z) (d : Driver)
  : res (Z * Driver) :=
  do f <- deref_file d (file h);
  do (rc, frs, nr, free) <-
    allocate_loop (S (length (frames f))) (loc h) count (frames f)
                  (u16 (nrFrames f)) (freeFrameNr d);
  if rc =? -1 then
    do d' <- store_file d (file h)
               {| name := name f; size := size f; frames := frs;
                  nrFrames := nrFrames f |};
    Ok (-1, set_freeFrameNr d' free)
  else
    do d' <- store_file d (file h)
               {| name := name f; size := size f; frames := frs;
                  nrFrames := nr |};
    Ok (0, set_freeFrameNr d' free).

(** [while (remaining > 0)] of [block_write]. *)
Fixpoint write_loop (n fuel : nat) (f : file_t) (frame : list Z)
    (buf : list Z) (loc bufOffset remaining : Z) (cs : CacheState) (b : Bus)
  : res (Z * CacheState * Bus) :=
  if remaining >? 0 then
    match n with
    | O => Diverge
    | S n' =>
        do frame_nr <- array_get (frames f) (Z.quot loc BLOCK_FRAME_SIZE);
        let frame_offset := Z.rem loc BLOCK_FRAME_SIZE in
        do (frame, cs, b) <- fetch_frame fuel frame frame_nr cs b;
        let data_size :=
          if BLOCK_FRAME_SIZE - frame_offset >? remaining then remaining
          else BLOCK_FRAME_SIZE - frame_offset in
        do frame <- memcpy frame frame_offset buf bufOffset data_size;
        do (frame, b) <- executeOpcode fuel b frame BLOCK_OP_WRFRME frame_nr;
        do (_, cs) <- put_block_cache 0 frame_nr frame cs;
        write_loop n' fuel f frame buf (loc + data_size)
                   (bufOffset + data_size) (remaining - data_size) cs b
    end
  else Ok (loc, cs, b).

Definition block_write (fuel : nat) (fd : Z) (buf : list Z) (count : Z)
    (d : Driver) : res (Z * Driver) :=
  do h <- array_get (handles d) fd;
  if status h =? CLOSED then Ok (-1, d)
  else
    do (rc, d1) <- allocateNewFrames h count d;
    if rc =? -1 then Ok (-1, d1)
    else
      do f <- deref_file d1 (file h);
      do (loc', cs, b) <-
        write_loop (Z.to_nat count) fuel f frame_uninit buf (loc h) 0 count
                   (cache_st d1) (bus d1);
      let d2 := set_io d1 cs b in
      do hs <- array_set (handles d2) fd
                 {| file := file h; loc := loc'; status := status h |};
      do f2 <- deref_file d2 (file h);
      do d3 <- store_file (set_handles d2 hs) (file h)
                 {| name := name f2; size := size f2 + count;
                    frames := frames f2; nrFrames := nrFrames f2 |};
      Ok (count, d3).

(** [loc] is a [uint32_t]; [file->size < loc] compares as unsigned, and the
    cursor stored is [loc] as an [int]. *)
Definition block_seek (fd : Z) (loc : Z) (d : Driver) : res (Z * Driver) :=
  let loc := u32 loc in
  do h <- array_get (handles d) fd;
  if status h =? CLOSED then Ok (-1, d)
  else
    do f <- deref_file d (file h);
    if u32 (size f) <? loc then Ok (-1, d)
    else
      do hs <- array_set (handles d) fd
                 {| file := file h; loc := s32 loc; status := status h |};
      Ok (0, set_handles d hs).

End Driver.

(** * Properties *)

Lemma testbit_above (p n i : Z) :
  0 <= p -> 0 <= n < 2 ^ p -> p <= i -> Z.testbit n i = false.
Proof.
  intros Hp Hn Hi.
  rewrite <- (Z.mod_small n (2 ^ p)) by assumption.
  apply Z.mod_pow2_bits_high. lia.
Qed.

Ltac unfold_words := unfold u8, u16, u32, u64 in *.

Ltac bit_rewrite :=
  repeat first
    [ rewrite Z.lor_spec
    | rewrite Z.testbit_mod_pow2 by lia
    | rewrite Z.shiftr_spec by lia
    | rewrite Z.shiftl_spec by lia ].

Ltac bit_cases :=
  repeat match goal with
  | |- context [ (?a <? ?b) ] => destruct (Z.ltb_spec a b); simpl
  end.

Ltac bit_kill ky fm cs rt :=
  repeat match goal with
  | |- context [ Z.testbit ?x ?i ] =>
      first
        [ rewrite (Z.testbit_neg_r x i) by lia
        | rewrite (testbit_above 8 ky i) by lia
        | rewrite (testbit_above 16 fm i) by lia
        | rewrite (testbit_above 32 cs i) by lia
        | rewrite (testbit_above 8 rt i) by lia ]
  end.

Lemma pack_testbit (ky fm cs rt i : Z) :
  0 <= ky < 2 ^ 8 -> 0 <= fm < 2 ^ 16 -> 0 <= cs < 2 ^ 32 -> 0 <= rt < 2 ^ 8 ->
  0 <= i ->
  Z.testbit (pack ky fm cs rt) i =
    if i <? 8 then Z.testbit rt i
    else if i <? 40 then Z.testbit cs (i - 8)
    else if i <? 56 then Z.testbit fm (i - 40)
    else if i <? 64 then Z.testbit ky (i - 56)
    else false.
Proof.
  intros Hky Hfm Hcs Hrt Hi. unfold pack. unfold_words.
  bit_rewrite. bit_cases; try lia; bit_kill ky fm cs rt;
    rewrite ?orb_false_r, ?orb_false_l; reflexivity.
Qed.

Lemma pack_nonneg (ky fm cs rt : Z) : 0 <= pack ky fm cs rt.
Proof.
  unfold pack. unfold_words.
  repeat (apply Z.lor_nonneg; split); apply Z.mod_pos_bound; lia.
Qed.

(** C9. Register round trip: for an opcode of 8 bits, a frame index of 16
    bits, a checksum of 32 bits and a return code of 8 bits, [unpack]
    applied to the packed register gives back exactly the four fields. *)
Theorem unpack_pack_roundtrip (ky fm cs rt : Z) :
  0 <= ky < 2 ^ 8 -> 0 <= fm < 2 ^ 16 -> 0 <= cs < 2 ^ 32 -> 0 <= rt < 2 ^ 8 ->
  unpack (pack ky fm cs rt) = (ky, fm, cs, rt).
Proof.
  intros Hky Hfm Hcs Hrt. unfold unpack.
  repeat f_equal; apply Z.bits_inj'; intros n Hn; unfold_words;
    bit_rewrite; rewrite ?pack_testbit by lia;
    bit_cases; try lia; bit_kill ky fm cs rt;
    rewrite ?andb_false_r; try reflexivity; f_equal; lia.
Qed.

Lemma unpack_pack_roundtrip_witness :
  unpack (pack 3 517 3735928559 255) = (3, 517, 3735928559, 255).
Proof. apply unpack_pack_roundtrip; lia. Defined.

(** ** The frame cache *)

Definition misses (frm : Z) (l : list CacheNode) : Prop :=
  Forall (fun n => nFrm n <> frm) l.

Lemma scan_cur_hit frm : forall rest passed iter l1 n l2,
  iter :: rest = l1 ++ n :: l2 -> misses frm l1 -> nFrm n = frm ->
  scan_cur frm passed iter rest = (passed ++ l1, n, l2).
Proof.
  induction rest as [|m rest IH]; intros passed iter l1 n l2 Heq Hl1 Hn.
  - destruct l1 as [|x l1]; simpl in Heq.
    + injection Heq as -> <-. simpl. now rewrite app_nil_r.
    + injection Heq as _ Heq. destruct l1; discriminate.
  - destruct l1 as [|x l1]; simpl in Heq.
    + injection Heq as -> <-. simpl.
      rewrite (proj2 (Z.eqb_eq _ _) Hn). now rewrite app_nil_r.
    + injection Heq as <- Heq. simpl.
      apply Forall_cons_iff in Hl1 as [Hx Hl1'].
      rewrite (proj2 (Z.eqb_neq _ _) Hx).
      rewrite (IH _ _ _ _ _ Heq Hl1' Hn). now rewrite <- app_assoc.
Qed.

Lemma scan_cur_miss frm : forall rest passed iter,
  misses frm (iter :: rest) ->
  exists passed' iter',
    scan_cur frm passed iter rest = (passed', iter', []) /\
    passed' ++ [iter'] = passed ++ iter :: rest /\
    nFrm iter' <> frm.
Proof.
  induction rest as [|m rest IH]; intros passed iter Hm.
  - exists passed, iter. apply Forall_cons_iff in Hm as [Hx _]. simpl. auto.
  - apply Forall_cons_iff in Hm as [Hx Hm']. simpl.
    rewrite (proj2 (Z.eqb_neq _ _) Hx).
    destruct (IH (passed ++ [iter]) m Hm') as (p' & i' & -> & Heq & Hi).
    exists p', i'. rewrite Heq, <- app_assoc. auto.
Qed.

Lemma scan_next_hit frm : forall l1 passed iter n l2,
  misses frm l1 -> nFrm n = frm ->
  exists passed' iter',
    scan_next frm passed iter (l1 ++ n :: l2) = (passed', iter', n :: l2) /\
    passed' ++ [iter'] = passed ++ iter :: l1.
Proof.
  induction l1 as [|m l1 IH]; intros passed iter n l2 Hm Hn; simpl.
  - rewrite (proj2 (Z.eqb_eq _ _) Hn). eauto.
  - apply Forall_cons_iff in Hm as [Hx Hm'].
    rewrite (proj2 (Z.eqb_neq _ _) Hx).
    destruct (IH (passed ++ [iter]) m n l2 Hm' Hn) as (p' & i' & -> & Heq).
    exists p', i'. rewrite Heq, <- app_assoc. auto.
Qed.

Lemma scan_next_miss frm : forall rest passed iter,
  misses frm rest ->
  exists passed' iter',
    scan_next frm passed iter rest = (passed', iter', []) /\
    passed' ++ [iter'] = passed ++ iter :: rest.
Proof.
  induction rest as [|m rest IH]; intros passed iter Hm; simpl.
  - eauto.
  - apply Forall_cons_iff in Hm as [Hx Hm'].
    rewrite (proj2 (Z.eqb_neq _ _) Hx).
    destruct (IH (passed ++ [iter]) m Hm') as (p' & i' & -> & Heq).
    exists p', i'. rewrite Heq, <- app_assoc. auto.
Qed.

Definition with_head (st : CacheState) (sz : Z) (l : list CacheNode)
  : CacheState :=
  {| block_cache_max_items := block_cache_max_items st;
     cache := Some {| currentSize := sz; head := l |} |}.

Lemma last_snoc_some {A : Type} (l : list A) (x : A) :
  last (l ++ [x]) = Some x.
Proof. apply last_snoc. Qed.

Lemma previter_next_ok (passed : list CacheNode) (iter : CacheNode) :
  passed <> [] -> previter_next passed iter = Ok iter.
Proof.
  intros Hne. unfold previter_next.
  destruct (last passed) eqn:E; [reflexivity|].
  apply last_None in E. contradiction.
Qed.

Lemma len_nil_iff {A : Type} (l : list A) : len l = 0 <-> l = [].
Proof.
  unfold len. destruct l; simpl; split; intros H; try reflexivity;
    try discriminate; lia.
Qed.

Lemma len_cons {A : Type} (x : A) (l : list A) : len (x :: l) = len l + 1.
Proof. unfold len. simpl length. lia. Qed.

Lemma len_app {A : Type} (l k : list A) : len (l ++ k) = len l + len k.
Proof. unfold len. rewrite length_app. lia. Qed.

Lemma len_nonneg {A : Type} (l : list A) : 0 <= len l.
Proof. unfold len. lia. Qed.

(** A put of a frame number the cache holds: the first node with that
    number gets the content and moves to the head of the list. *)
Lemma put_hit st c block frm buf l1 n l2 :
  cache st = Some c -> head c = l1 ++ n :: l2 ->
  len (head c) = currentSize c -> misses frm l1 -> nFrm n = frm ->
  put_block_cache block frm buf st =
    Ok (0, with_head st (currentSize c) (set_nbuf n buf :: l1 ++ l2)).
Proof.
  intros Hc Hh Hlen Hl1 Hn. unfold put_block_cache. rewrite Hc.
  assert (Hn' : (nFrm n =? frm) = true) by now apply Z.eqb_eq.
  destruct (currentSize c =? 0) eqn:E0.
  { apply Z.eqb_eq in E0. rewrite E0 in Hlen. apply len_nil_iff in Hlen.
    rewrite Hlen in Hh. destruct l1; discriminate. }
  destruct (currentSize c =? 1) eqn:E1.
  { apply Z.eqb_eq in E1. rewrite E1, Hh, len_app, len_cons in Hlen.
    pose proof (len_nonneg l1). pose proof (len_nonneg l2).
    assert (len l1 = 0) as ->%len_nil_iff by lia.
    assert (len l2 = 0) as ->%len_nil_iff by lia.
    rewrite Hh. simpl. rewrite Hn'. unfold set_cache, set_head, with_head.
    now rewrite E1. }
  destruct (currentSize c =? block_cache_max_items st) eqn:Emax.
  - rewrite Hh. destruct l1 as [|h l1]; simpl.
    + rewrite Hn'. reflexivity.
    + apply Forall_cons_iff in Hl1 as [Hh' Hl1].
      rewrite (proj2 (Z.eqb_neq _ _) Hh').
      destruct (scan_next_hit frm l1 [] h n l2 Hl1 Hn) as (p' & i' & -> & Heq).
      simpl in Heq. unfold set_cache, set_head, with_head.
      repeat f_equal.
      change (p' ++ i' :: l2) with (p' ++ [i'] ++ l2).
      now rewrite app_assoc, Heq.
  - rewrite Hh. destruct l1 as [|h l1]; simpl.
    + rewrite Hn'. reflexivity.
    + apply Forall_cons_iff in Hl1 as [Hh' Hl1].
      rewrite (proj2 (Z.eqb_neq _ _) Hh').
      rewrite (scan_cur_hit frm (l1 ++ n :: l2) [] h (h :: l1) n l2 eq_refl)
        by (try apply Forall_cons; auto).
      simpl. destruct l2 as [|x l2].
      * rewrite Hn'. rewrite previter_next_ok by discriminate. simpl.
        rewrite app_nil_r. reflexivity.
      * rewrite previter_next_ok by discriminate. simpl. reflexivity.
Qed.

(** A put of a frame number the cache does not hold: a cache of at least
    two nodes that is full loses its last node, any other cache grows by
    the new node; the new node is the head of the list. *)
Lemma put_miss st c block frm buf :
  cache st = Some c -> len (head c) = currentSize c -> misses frm (head c) ->
  put_block_cache block frm buf st =
    Ok (0, if (2 <=? currentSize c) && (currentSize c =? block_cache_max_items st)
           then with_head st (currentSize c)
                  (createNewNode block frm buf :: removelast (head c))
           else with_head st (u32 (currentSize c + 1))
                  (createNewNode block frm buf :: head c)).
Proof.
  intros Hc Hlen Hm. unfold put_block_cache. rewrite Hc.
  destruct (currentSize c =? 0) eqn:E0.
  { apply Z.eqb_eq in E0. rewrite E0 in *. apply len_nil_iff in Hlen.
    rewrite Hlen. reflexivity. }
  destruct (currentSize c =? 1) eqn:E1.
  { apply Z.eqb_eq in E1. rewrite E1 in *. simpl.
    destruct (head c) as [|h rest]; [discriminate|].
    apply Forall_cons_iff in Hm as [Hh _].
    rewrite (proj2 (Z.eqb_neq _ _) Hh). reflexivity. }
  apply Z.eqb_neq in E0, E1. pose proof (len_nonneg (head c)).
  assert (H2 : (2 <=? currentSize c) = true) by (apply Z.leb_le; lia).
  rewrite H2. simpl.
  destruct (head c) as [|h rest] eqn:Hh; [rewrite <- Hlen in E0; now contradiction E0|].
  pose proof Hm as Hm0. apply Forall_cons_iff in Hm as [Hh' Hrest].
  rewrite (proj2 (Z.eqb_neq _ _) Hh').
  destruct (currentSize c =? block_cache_max_items st) eqn:Emax.
  - destruct (scan_next_miss frm rest [] h Hrest) as (p' & i' & -> & Heq).
    simpl in Heq.
    assert (Hp : p' <> []).
    { intros ->. simpl in Heq. injection Heq as _ <-.
      rewrite len_cons in Hlen. change (len []) with 0 in Hlen. lia. }
    rewrite <- Heq, removelast_last.
    rewrite previter_next_ok by assumption. reflexivity.
  - destruct (scan_cur_miss frm rest [] h Hm0) as (p' & i' & -> & Heq & Hi).
    simpl in Heq. simpl. rewrite (proj2 (Z.eqb_neq _ _) Hi).
    unfold set_cache, with_head. now rewrite Heq.
Qed.

(** The first node of the list with frame number [frm]. *)
Definition first_hit (frm : Z) (l : list CacheNode) : option CacheNode :=
  List.find (fun n => nFrm n =? frm) l.

Lemma first_hit_none frm l : first_hit frm l = None <-> misses frm l.
Proof.
  unfold first_hit, misses. induction l as [|x l IH]; simpl.
  - split; auto.
  - destruct (Z.eqb_spec (nFrm x) frm) as [E|E].
    + split; [discriminate|]. intros H. apply Forall_cons_iff in H as [H _].
      contradiction.
    + rewrite IH. split; intros H.
      * now apply Forall_cons.
      * now apply Forall_cons_iff in H as [_ H].
Qed.

Lemma first_hit_split frm l n :
  first_hit frm l = Some n ->
  exists l1 l2, l = l1 ++ n :: l2 /\ misses frm l1 /\ nFrm n = frm.
Proof.
  unfold first_hit, misses. induction l as [|x l IH]; simpl; [discriminate|].
  destruct (Z.eqb_spec (nFrm x) frm) as [E|E].
  - intros [= ->]. exists [], l. auto.
  - intros H. destruct (IH H) as (l1 & l2 & -> & Hl1 & Hn).
    exists (x :: l1), l2. repeat split; auto.
Qed.

Lemma first_hit_app frm l1 n l2 :
  misses frm l1 -> nFrm n = frm -> first_hit frm (l1 ++ n :: l2) = Some n.
Proof.
  unfold first_hit, misses. induction l1 as [|x l1 IH]; simpl; intros Hm Hn.
  - now rewrite (proj2 (Z.eqb_eq _ _) Hn).
  - apply Forall_cons_iff in Hm as [Hx Hm].
    rewrite (proj2 (Z.eqb_neq _ _) Hx). auto.
Qed.

Lemma first_hit_skip frm l1 n l2 :
  nFrm n <> frm -> first_hit frm (l1 ++ n :: l2) = first_hit frm (l1 ++ l2).
Proof.
  unfold first_hit. intros Hn. induction l1 as [|x l1 IH]; simpl.
  - now rewrite (proj2 (Z.eqb_neq _ _) Hn).
  - now rewrite IH.
Qed.

Lemma first_hit_removelast frm l :
  first_hit frm (removelast l) = first_hit frm l \/
  first_hit frm (removelast l) = None.
Proof.
  unfold first_hit. induction l as [|x l IH]; [now left|].
  destruct l as [|y l]; [now right|].
  change (removelast (x :: y :: l)) with (x :: removelast (y :: l)).
  simpl find at 1 3. simpl find at 2.
  destruct (nFrm x =? frm); [now left|]. exact IH.
Qed.

Lemma get_scan_hit frm : forall rest iter,
  (if nFrm (get_scan frm iter rest) =? frm
   then Ok (Some (nbuf (get_scan frm iter rest))) else Ok None)
  = Ok (option_map nbuf (first_hit frm (iter :: rest))).
Proof.
  unfold first_hit. induction rest as [|m rest IH]; intros iter; simpl.
  - destruct (nFrm iter =? frm); reflexivity.
  - destruct (nFrm iter =? frm) eqn:E.
    + now rewrite E.
    + rewrite IH. reflexivity.
Qed.

(** What a lookup returns: the content of the first node with the frame
    number asked for, a miss when no node has it. *)
Lemma get_block_cache_first_hit block frm st :
  get_block_cache block frm st =
    match cache st with
    | None => Undefined
    | Some c => Ok (option_map nbuf (first_hit frm (head c)))
    end.
Proof.
  unfold get_block_cache. destruct (cache st) as [c|]; [|reflexivity].
  destruct (head c) as [|iter rest]; [reflexivity|].
  destruct (nFrm iter =? frm) eqn:E.
  - unfold first_hit. simpl. now rewrite E.
  - cbv zeta. rewrite get_scan_hit. reflexivity.
Qed.

(** Calls to the cache, and runs of them. *)
Inductive cache_call :=
| Put (block frm : Z) (buf : list Z)
| Get (block frm : Z).

Inductive cache_result :=
| PutDone (rc : Z)
| GetDone (r : option (list Z)).

Definition cache_step (call : cache_call) (st : CacheState)
  : res (cache_result * CacheState) :=
  match call with
  | Put block frm buf =>
      do (rc, st') <- put_block_cache block frm buf st; Ok (PutDone rc, st')
  | Get block frm =>
      do r <- get_block_cache block frm st; Ok (GetDone r, st)
  end.

Fixpoint cache_run (calls : list cache_call) (st : CacheState)
  : res (list cache_result * CacheState) :=
  match calls with
  | [] => Ok ([], st)
  | call :: calls' =>
      do (r, st') <- cache_step call st;
      do (rs, st'') <- cache_run calls' st';
      Ok (r :: rs, st'')
  end.

(** The cache module before [init_block_cache]: the limit at its default,
    the pointer NULL. *)
Definition cache_boot (dflt : Z) : CacheState :=
  {| block_cache_max_items := dflt; cache := None |}.

(** The cache after [set_block_cache_size(max)] and [init_block_cache()]. *)
Definition cache_started (dflt max : Z) : CacheState :=
  snd (init_block_cache (snd (set_block_cache_size max (cache_boot dflt)))).

Definition lookups (keys : list (Z * Z)) : list cache_call :=
  map (fun k => Get (fst k) (snd k)) keys.

Definition lookup_results (c : Cache) (keys : list (Z * Z))
  : list cache_result :=
  map (fun k => GetDone (option_map nbuf (first_hit (snd k) (head c)))) keys.

Lemma cache_run_app calls1 : forall calls2 st,
  cache_run (calls1 ++ calls2) st =
    do (rs1, st1) <- cache_run calls1 st;
    do (rs2, st2) <- cache_run calls2 st1;
    Ok (rs1 ++ rs2, st2).
Proof.
  induction calls1 as [|call calls1 IH]; intros calls2 st; simpl.
  - destruct (cache_run calls2 st) as [[rs st']| |]; reflexivity.
  - destruct (cache_step call st) as [[r st']| |]; simpl; try reflexivity.
    rewrite IH. destruct (cache_run calls1 st') as [[rs1 st1]| |]; simpl;
      try reflexivity.
    destruct (cache_run calls2 st1) as [[rs2 st2]| |]; reflexivity.
Qed.

Lemma cache_run_lookups m c keys :
  cache_run (lookups keys) {| block_cache_max_items := m; cache := Some c |}
  = Ok (lookup_results c keys,
        {| block_cache_max_items := m; cache := Some c |}).
Proof.
  induction keys as [|[b f] keys IH]; simpl; [reflexivity|].
  rewrite get_block_cache_first_hit. simpl. rewrite IH. reflexivity.
Qed.

(** C7. A lookup returns the content of the first node whose frame number
    is the one asked for, a miss when there is none, and leaves the cache
    as it is, nodes, contents and order: a run of lookups ends in the state
    it started from, and whatever calls follow behave as without it. *)
Theorem lookup_is_pure_read (m : Z) (c : Cache) (keys : list (Z * Z))
    (calls : list cache_call) :
  let st := {| block_cache_max_items := m; cache := Some c |} in
  (forall block frm,
     get_block_cache block frm st
     = Ok (option_map nbuf (first_hit frm (head c)))) /\
  cache_run (lookups keys) st = Ok (lookup_results c keys, st) /\
  cache_run (lookups keys ++ calls) st =
    do (rs, st') <- cache_run calls st;
    Ok (lookup_results c keys ++ rs, st').
Proof.
  intros st. split; [|split].
  - intros block frm. now rewrite get_block_cache_first_hit.
  - apply cache_run_lookups.
  - rewrite cache_run_app. unfold st. rewrite cache_run_lookups. simpl.
    destruct (cache_run calls _) as [[rs st']| |]; reflexivity.
Qed.

(** C2. With the limit set to one entry, two puts of different frames
    leave two nodes in the cache. *)
Theorem capacity_one_holds_two (dflt : Z) (A B : list Z) :
  cache_run [Put 0 1 A; Put 0 2 B] (cache_started dflt 1)
  = Ok ([PutDone 0; PutDone 0],
        {| block_cache_max_items := 1;
           cache := Some {| currentSize := 2;
                            head := [createNewNode 0 2 B;
                                     createNewNode 0 1 A] |} |}).
Proof. reflexivity. Qed.

(** C6. With the limit set to one entry and one node cached, the cache is
    at its limit; a put of another frame evicts nothing, the node of frame
    1 stays behind the new one. *)
Theorem full_cache_of_one_keeps_tail (dflt : Z) (A B : list Z) :
  let st := {| block_cache_max_items := 1;
               cache := Some {| currentSize := 1;
                                head := [createNewNode 0 1 A] |} |} in
  cache_run [Put 0 1 A] (cache_started dflt 1) = Ok ([PutDone 0], st) /\
  put_block_cache 0 2 B st
  = Ok (0, {| block_cache_max_items := 1;
              cache := Some {| currentSize := 2;
                               head := [createNewNode 0 2 B;
                                        createNewNode 0 1 A] |} |}).
Proof. split; reflexivity. Qed.

(** *** The limit, for a cache of at least two entries *)

Definition cache_bounded (st : CacheState) : Prop :=
  exists c, cache st = Some c /\ len (head c) = currentSize c /\
            currentSize c <= block_cache_max_items st.

Lemma len_removelast {A : Type} (l : list A) :
  l <> [] -> len (removelast l) = len l - 1.
Proof.
  intros Hne. destruct (exists_last Hne) as (l' & x & ->).
  rewrite removelast_last, len_app. change (len [x]) with 1. lia.
Qed.

Lemma u32_small (x : Z) : 0 <= x < 2 ^ 32 -> u32 x = x.
Proof. intros H. unfold u32. now apply Z.mod_small. Qed.

Lemma first_hit_cases frm l :
  misses frm l \/
  exists l1 n l2, l = l1 ++ n :: l2 /\ misses frm l1 /\ nFrm n = frm.
Proof.
  destruct (first_hit frm l) as [n|] eqn:E.
  - right. destruct (first_hit_split _ _ _ E) as (l1 & l2 & H). eauto.
  - left. now apply first_hit_none.
Qed.

Lemma put_keeps_bound block frm buf st :
  2 <= block_cache_max_items st < 2 ^ 32 -> cache_bounded st ->
  exists st', put_block_cache block frm buf st = Ok (0, st') /\
              cache_bounded st' /\
              block_cache_max_items st' = block_cache_max_items st.
Proof.
  intros Hmax (c & Hc & Hlen & Hle).
  destruct (first_hit_cases frm (head c)) as [Hm|(l1 & n & l2 & Hh & Hl1 & Hn)].
  - rewrite (put_miss _ _ _ _ _ Hc Hlen Hm).
    pose proof (len_nonneg (head c)) as Hnn.
    destruct (2 <=? currentSize c) eqn:E2; simpl;
      [destruct (currentSize c =? block_cache_max_items st) eqn:Em|].
    + eexists; split; [reflexivity|]. split; [|reflexivity].
      eexists; split; [reflexivity|]. simpl. apply Z.leb_le in E2.
      rewrite len_cons, len_removelast; [split; lia|].
      intros E. rewrite E in Hlen. change (len []) with 0 in Hlen. lia.
    + eexists; split; [reflexivity|]. split; [|reflexivity].
      eexists; split; [reflexivity|]. simpl. apply Z.eqb_neq in Em.
      rewrite u32_small, len_cons by lia. split; lia.
    + eexists; split; [reflexivity|]. split; [|reflexivity].
      eexists; split; [reflexivity|]. simpl. apply Z.leb_gt in E2.
      rewrite u32_small, len_cons by lia. split; lia.
  - rewrite (put_hit _ _ _ _ _ _ _ _ Hc Hh Hlen Hl1 Hn).
    eexists; split; [reflexivity|]. split; [|reflexivity].
    eexists; split; [reflexivity|]. simpl. split; [|lia].
    rewrite <- Hlen, Hh, len_cons, !len_app, len_cons. lia.
Qed.

(** X5. From a limit of two entries on, the cache never holds more nodes
    than its limit, whatever calls it receives after [init_block_cache],
    and no call is undefined. *)
Lemma capacity_bound_from_two (dflt max : Z) (calls : list cache_call) :
  2 <= max < 2 ^ 32 ->
  exists rs st c,
    cache_run calls (cache_started dflt max) = Ok (rs, st) /\
    cache st = Some c /\ len (head c) <= max.
Proof.
  intros Hmax.
  assert (Hgen : forall calls st,
    block_cache_max_items st = max -> cache_bounded st ->
    exists rs st', cache_run calls st = Ok (rs, st') /\
                   block_cache_max_items st' = max /\ cache_bounded st').
  { clear calls. induction calls as [|call calls IH]; intros st Hst Hb.
    - exists [], st. simpl. auto.
    - destruct call as [block frm buf|block frm]; cbn [cache_run cache_step].
      + destruct (put_keeps_bound block frm buf st) as (st1 & -> & Hb1 & Hm1);
          [rewrite Hst; lia|assumption|].
        cbn [bind]. destruct (IH st1) as (rs & st2 & -> & Hm2 & Hb2);
          [congruence|assumption|]. cbn [bind]. eauto.
      + rewrite get_block_cache_first_hit.
        destruct Hb as (c & Hc & Hb). rewrite Hc. cbn [bind].
        destruct (IH st) as (rs & st2 & -> & Hm2 & Hb2);
          [assumption|exists c; auto|]. cbn [bind]. eauto. }
  destruct (Hgen calls (cache_started dflt max)) as (rs & st & Hrun & Hm & c & Hc & Hlen & Hle).
  - unfold cache_started, set_block_cache_size, init_block_cache, set_cache.
    cbn [snd block_cache_max_items]. apply u32_small. lia.
  - eexists. split; [reflexivity|]. cbn [head currentSize].
    change (len []) with 0.
    unfold cache_started, set_block_cache_size, init_block_cache, set_cache.
    cbn [snd block_cache_max_items]. rewrite u32_small by lia. lia.
  - exists rs, st, c. repeat split; auto. lia.
Qed.

(** X6. A full cache of at least two entries gives up its last node to
    a frame it does not hold; the node becomes the head with the new key
    and content, and the number of nodes stays. *)
Lemma full_cache_evicts_tail st c block frm buf :
  cache st = Some c -> len (head c) = currentSize c ->
  2 <= currentSize c -> currentSize c = block_cache_max_items st ->
  misses frm (head c) ->
  put_block_cache block frm buf st =
    Ok (0, with_head st (currentSize c)
             (createNewNode block frm buf :: removelast (head c))).
Proof.
  intros Hc Hlen H2 Hmax Hm. rewrite (put_miss _ _ _ _ _ Hc Hlen Hm).
  rewrite (proj2 (Z.leb_le _ _) H2), (proj2 (Z.eqb_eq _ _) Hmax). reflexivity.
Qed.

(** *** The cache as the driver uses it *)

Definition node_ok (n : CacheNode) : Prop :=
  0 <= nFrm n < 2 ^ 16 /\ len (nbuf n) = BLOCK_FRAME_SIZE.

(** A cache as the driver builds it: the counter is the number of nodes,
    no frame number is cached twice, frame numbers are 16-bit values and
    contents are whole frames. *)
Definition cache_ok (st : CacheState) : Prop :=
  exists c, cache st = Some c /\ len (head c) = currentSize c /\
            List.NoDup (map nFrm (head c)) /\ Forall node_ok (head c).

(** The content the cache holds for a frame number. *)
Definition cached (st : CacheState) (frm : Z) : option (list Z) :=
  match cache st with
  | Some c => option_map nbuf (first_hit frm (head c))
  | None => None
  end.

Lemma NoDup_range_length (l : list Z) (N : nat) :
  List.NoDup l -> Forall (fun x => 0 <= x < Z.of_nat N) l -> (length l <= N)%nat.
Proof.
  intros Hnd Hr.
  rewrite <- (length_seq N 0), <- (length_map Z.of_nat).
  apply NoDup_incl_length; [assumption|].
  intros x Hx. rewrite Forall_forall in Hr.
  assert (Hx' := Hx). apply list_elem_of_In, Hr in Hx'.
  apply in_map_iff. exists (Z.to_nat x). split; [lia|].
  apply in_seq. lia.
Qed.

Lemma misses_not_in frm l : misses frm l -> ~ In frm (map nFrm l).
Proof.
  unfold misses. intros Hm Hin. apply in_map_iff in Hin as (n & Hn & Hin).
  rewrite Forall_forall in Hm. apply list_elem_of_In, Hm in Hin. contradiction.
Qed.

Lemma cache_ok_length st c :
  cache st = Some c -> List.NoDup (map nFrm (head c)) -> Forall node_ok (head c) ->
  forall frm, 0 <= frm < 2 ^ 16 -> misses frm (head c) ->
  len (head c) + 1 <= 2 ^ 16.
Proof.
  intros Hc Hnd Hok frm Hfrm Hm.
  assert (H : (length (frm :: map nFrm (head c)) <= Z.to_nat (2 ^ 16))%nat).
  { apply NoDup_range_length.
    - apply List.NoDup_cons; [now apply misses_not_in|assumption].
    - constructor; [lia|]. apply Forall_map.
      eapply Forall_impl; [exact Hok|]. intros n [Hn _]. simpl. lia. }
  simpl in H. rewrite length_map in H. unfold len. lia.
Qed.

Lemma get_block_cache_cached block frm st :
  cache_ok st -> get_block_cache block frm st = Ok (cached st frm).
Proof.
  intros (c & Hc & _). rewrite get_block_cache_first_hit.
  unfold cached. now rewrite Hc.
Qed.

Lemma cached_frame_len st frm f :
  cache_ok st -> cached st frm = Some f -> len f = BLOCK_FRAME_SIZE.
Proof.
  intros (c & Hc & _ & _ & Hok). unfold cached. rewrite Hc.
  destruct (first_hit frm (head c)) as [n|] eqn:E; [|discriminate].
  intros [= <-]. apply first_hit_split in E as (l1 & l2 & Hh & _).
  rewrite Hh in Hok. apply Forall_app in Hok as [_ Hok].
  apply Forall_cons_iff in Hok as [[_ Hn] _]. exact Hn.
Qed.

(** A put through the driver: it succeeds, the cache stays as the driver
    builds it, the frame put is the one a lookup finds, and every other
    frame reads as before or has left the cache. *)
Lemma put_block_cache_ok block frm buf st :
  cache_ok st -> 0 <= frm < 2 ^ 16 -> len buf = BLOCK_FRAME_SIZE ->
  exists st',
    put_block_cache block frm buf st = Ok (0, st') /\
    cache_ok st' /\
    cached st' frm = Some buf /\
    forall g, g <> frm -> cached st' g = cached st g \/ cached st' g = None.
Proof.
  intros (c & Hc & Hlen & Hnd & Hok) Hfrm Hbuf.
  assert (Hnew : node_ok (createNewNode block frm buf)) by (split; assumption).
  assert (Hfirst : forall g (x : CacheNode) l, nFrm x <> g ->
            first_hit g (x :: l) = first_hit g l).
  { intros g x l Hx. unfold first_hit. simpl.
    now rewrite (proj2 (Z.eqb_neq _ _) Hx). }
  assert (Hself : forall (x : CacheNode) l, nFrm x = frm ->
            first_hit frm (x :: l) = Some x).
  { intros x l Hx. unfold first_hit. simpl.
    now rewrite (proj2 (Z.eqb_eq _ _) Hx). }
  destruct (first_hit_cases frm (head c)) as [Hm|(l1 & n & l2 & Hh & Hl1 & Hn)].
  - rewrite (put_miss _ _ _ _ _ Hc Hlen Hm).
    pose proof (cache_ok_length _ _ Hc Hnd Hok frm Hfrm Hm) as Hroom.
    pose proof (len_nonneg (head c)) as Hnn.
    destruct ((2 <=? currentSize c) && (currentSize c =? block_cache_max_items st))
      eqn:Efull.
    + apply andb_true_iff in Efull as [E2%Z.leb_le _].
      assert (Hne : head c <> []).
      { intros E. rewrite E in Hlen. change (len []) with 0 in Hlen. lia. }
      destruct (exists_last Hne) as (l' & x & Hl').
      rewrite Hl', removelast_last.
      rewrite Hl' in Hm, Hnd, Hok, Hlen.
      apply Forall_app in Hm as [Hm _]. apply Forall_app in Hok as [Hok _].
      rewrite map_app in Hnd. apply NoDup_app_remove_r in Hnd.
      eexists. split; [reflexivity|]. split; [|split].
      * eexists. split; [reflexivity|]. cbn [head currentSize].
        rewrite len_app in Hlen. change (len [x]) with 1 in Hlen.
        rewrite len_cons. split; [lia|]. split.
        -- cbn [map]. apply List.NoDup_cons; [now apply misses_not_in|assumption].
        -- now apply Forall_cons.
      * unfold cached, with_head. cbn [cache head].
        now rewrite Hself.
      * intros g Hg. unfold cached, with_head. cbn [cache head]. rewrite Hc.
        rewrite Hfirst by (simpl; congruence).
        destruct (first_hit_removelast g (head c)) as [E|E];
          rewrite Hl', removelast_last in E; rewrite E; [left|right];
          [now rewrite Hl'|reflexivity].
    + eexists. split; [reflexivity|]. split; [|split].
      * eexists. split; [reflexivity|]. cbn [head currentSize].
        rewrite len_cons, u32_small by lia. split; [lia|]. split.
        -- cbn [map]. apply List.NoDup_cons; [now apply misses_not_in|assumption].
        -- now apply Forall_cons.
      * unfold cached, with_head. cbn [cache head]. now rewrite Hself.
      * intros g Hg. left. unfold cached, with_head. cbn [cache head].
        rewrite Hc. now rewrite Hfirst by (simpl; congruence).
  - rewrite (put_hit _ _ _ _ _ _ _ _ Hc Hh Hlen Hl1 Hn).
    rewrite Hh in Hnd, Hok, Hlen.
    eexists. split; [reflexivity|]. split; [|split].
    + eexists. split; [reflexivity|]. cbn [head currentSize].
      split; [|split].
      * rewrite <- Hlen, len_cons, !len_app, len_cons. lia.
      * rewrite map_app in Hnd. cbn [map] in Hnd.
        apply NoDup_remove in Hnd as [Hnd Hnin].
        cbn [map nFrm set_nbuf]. rewrite map_app.
        now apply List.NoDup_cons.
      * apply Forall_app in Hok as [Hok1 Hok2].
        apply Forall_cons_iff in Hok2 as [[Hr _] Hok2].
        constructor; [split; assumption|]. now apply Forall_app.
    + unfold cached, with_head. cbn [cache head]. now rewrite Hself.
    + intros g Hg. left. unfold cached, with_head. cbn [cache head].
      rewrite Hc, Hh. rewrite Hfirst by (simpl; congruence).
      symmetry. f_equal. apply first_hit_skip. congruence.
Qed.

(** ** The protocol engine *)

Lemma unpack_request_fields (ky fm cs : Z) :
  0 <= cs < 2 ^ 32 ->
  let '(_, _, cs', rt') := unpack (pack ky fm cs 0) in cs' = cs /\ rt' = 0.
Proof.
  intros Hcs. unfold unpack, pack. split.
  - apply Z.bits_inj'; intros n Hn. unfold_words.
    change (0 mod 2 ^ 32) with 0.
    bit_rewrite. rewrite Z.bits_0, orb_false_r.
    bit_cases; try lia; rewrite ?andb_false_r, ?orb_false_r, ?orb_false_l;
      rewrite ?(Z.testbit_neg_r _ (n + 32 - 24 - 56)) by lia;
      rewrite ?(Z.testbit_neg_r _ (n + 32 - 24 - 40)) by lia;
      rewrite ?orb_false_l; try reflexivity.
    + f_equal. lia.
    + rewrite (testbit_above 32 cs) by lia. reflexivity.
  - apply Z.bits_inj'; intros n Hn. unfold_words.
    change (0 mod 2 ^ 32) with 0.
    bit_rewrite. rewrite !Z.bits_0, orb_false_r.
    bit_cases; try lia; rewrite ?andb_false_r, ?orb_false_r, ?orb_false_l;
      rewrite ?(Z.testbit_neg_r _ (n + 56 - 56 - 56)) by lia;
      rewrite ?(Z.testbit_neg_r _ (n + 56 - 56 - 40)) by lia;
      rewrite ?(Z.testbit_neg_r _ (n + 56 - 56 - 8)) by lia;
      rewrite ?orb_false_l; try reflexivity.
Qed.

Section Engine.
Context {P : Platform}.

(** Success of an exchange as the specification words it: for a returned
    opcode of frame-read the checksum of the returned buffer against the
    returned checksum field, for every other opcode the return code
    against zero. *)
Definition acknowledged (regstate : Z) (frame : list Z) : bool :=
  let '(ky1, _, cs1, rt1) := unpack (u64 regstate) in
  if ky1 =? BLOCK_OP_RDFRME then cs1 =? frame_checksum frame else rt1 =? 0.

(** The loop between two rounds: the bus, the buffer, [ky1] and [fm1]. *)
Definition round_state : Type := Bus * list Z * Z * Z.

Definition next_round (s : round_state) : Z * round_state :=
  let '(b, frame, ky1, fm1) := s in
  let '(rt1, ky1', fm1', frame', b') := executeOpcode_round b frame ky1 fm1 in
  (rt1, (b', frame', ky1', fm1')).

Fixpoint after_rounds (k : nat) (s : round_state) : round_state :=
  match k with
  | O => s
  | S k' => after_rounds k' (snd (next_round s))
  end.

(** [rt1] at the end of round [k], counted from 0. *)
Definition round_rt (k : nat) (s : round_state) : Z :=
  fst (next_round (after_rounds k s)).

Definition round_result (k : nat) (s : round_state) : list Z * Bus :=
  let '(b, frame, _, _) := after_rounds (S k) s in (frame, b).

Lemma frame_checksum_range (frame : list Z) : 0 <= frame_checksum frame < 2 ^ 32.
Proof. unfold frame_checksum, u32. apply Z.mod_pos_bound. lia. Qed.

Lemma u32_minus_one_nonzero : u32 (-1) <> 0.
Proof. discriminate. Qed.

Lemma executeOpcode_unfold (fuel : nat) (s : round_state) :
  (let '(b, frame, ky1, fm1) := s in executeOpcode (S fuel) b frame ky1 fm1)
  = if fst (next_round s) =? 0
    then Ok (let '(b, frame, _, _) := snd (next_round s) in (frame, b))
    else let '(b, frame, ky1, fm1) := snd (next_round s) in
         executeOpcode fuel b frame ky1 fm1.
Proof.
  destruct s as [[[b frame] ky1] fm1]. unfold next_round.
  cbn [executeOpcode].
  destruct (executeOpcode_round b frame ky1 fm1) as [[[[rt1 ky1'] fm1'] frame'] b'].
  cbn [fst snd]. reflexivity.
Qed.

Lemma executeOpcode_rounds : forall (fuel : nat) (s : round_state),
  match (let '(b, frame, ky1, fm1) := s in executeOpcode fuel b frame ky1 fm1) with
  | Ok r =>
      exists k, (k < fuel)%nat /\ round_rt k s = 0 /\
                (forall j, (j < k)%nat -> round_rt j s <> 0) /\
                r = round_result k s
  | Diverge => forall k, (k < fuel)%nat -> round_rt k s <> 0
  | Undefined => False
  end.
Proof.
  induction fuel as [|fuel IH]; intros s.
  - destruct s as [[[b frame] ky1] fm1]. simpl. intros k Hk. lia.
  - rewrite executeOpcode_unfold.
    destruct (fst (next_round s) =? 0) eqn:E.
    + exists 0%nat. apply Z.eqb_eq in E. repeat split.
      * lia.
      * exact E.
      * intros j Hj. lia.
    + apply Z.eqb_neq in E. specialize (IH (snd (next_round s))).
      destruct (snd (next_round s)) as [[[b' frame'] ky1'] fm1'] eqn:Es.
      destruct (executeOpcode fuel b' frame' ky1' fm1') as [r| |].
      * destruct IH as (k & Hk & Hrt & Hbefore & Hr).
        exists (S k). repeat split.
        -- lia.
        -- unfold round_rt in *. cbn [after_rounds]. now rewrite Es.
        -- intros [|j] Hj; [exact E|].
           unfold round_rt in *. cbn [after_rounds]. rewrite Es.
           apply Hbefore. lia.
        -- rewrite Hr. unfold round_result. cbn [after_rounds]. now rewrite Es.
      * exact IH.
      * intros [|k] Hk; [exact E|].
        unfold round_rt in *. cbn [after_rounds]. rewrite Es. apply IH. lia.
Qed.

Lemma executeOpcode_round_spec (b : Bus) (frame : list Z) (ky1 fm1 : Z) :
  let '(regstate', frame', b') :=
    block_io_bus b (request_register frame ky1 fm1) frame in
  let '(rt1, ky1', fm1', frame'', b'') := executeOpcode_round b frame ky1 fm1 in
  (rt1 = 0 <-> acknowledged regstate' frame' = true) /\
  frame'' = frame' /\ b'' = b' /\
  (ky1', fm1') = (let '(k, f, _, _) := unpack (u64 regstate') in (k, f)).
Proof.
  unfold executeOpcode_round, acknowledged.
  destruct (block_io_bus b (request_register frame ky1 fm1) frame)
    as [[regstate' frame'] b'].
  destruct (unpack (u64 regstate')) as [[[k f] cs] rt].
  repeat split; try reflexivity.
  - intros H. destruct (k =? BLOCK_OP_RDFRME).
    + destruct (cs =? frame_checksum frame'); [reflexivity|].
      now apply u32_minus_one_nonzero in H.
    + now apply Z.eqb_eq.
  - intros H. destruct (k =? BLOCK_OP_RDFRME).
    + now rewrite H.
    + now apply Z.eqb_eq.
Qed.

(** C5. The register handed to the bus carries the checksum of the buffer
    when the opcode is frame-write and 0 for any other opcode, with return
    code 0.  A round ends with [rt1 = 0] exactly when the exchange is
    acknowledged: by the checksum of the returned buffer against the
    returned checksum field when the returned opcode is frame-read, by the
    returned return code otherwise.  The call returns after the first
    acknowledged round with the buffer and the bus of that round; while no
    round is acknowledged it is still in its loop, and it has no other
    way out. *)
Theorem executeOpcode_contract (b : Bus) (frame : list Z) (ky1 fm1 : Z)
    (fuel : nat) :
  (let '(_, _, cs, rt) := unpack (request_register frame ky1 fm1) in
   cs = (if ky1 =? BLOCK_OP_WRFRME then frame_checksum frame else 0) /\
   rt = 0) /\
  (let '(regstate', frame', b') :=
     block_io_bus b (request_register frame ky1 fm1) frame in
   let '(rt1, ky1', fm1', frame'', b'') := executeOpcode_round b frame ky1 fm1 in
   (rt1 = 0 <-> acknowledged regstate' frame' = true) /\
   frame'' = frame' /\ b'' = b' /\
   (ky1', fm1') = (let '(k, f, _, _) := unpack (u64 regstate') in (k, f))) /\
  match executeOpcode fuel b frame ky1 fm1 with
  | Ok r =>
      exists k, (k < fuel)%nat /\ round_rt k (b, frame, ky1, fm1) = 0 /\
                (forall j, (j < k)%nat -> round_rt j (b, frame, ky1, fm1) <> 0) /\
                r = round_result k (b, frame, ky1, fm1)
  | Diverge => forall k, (k < fuel)%nat -> round_rt k (b, frame, ky1, fm1) <> 0
  | Undefined => False
  end.
Proof.
  split; [|split].
  - unfold request_register. apply unpack_request_fields.
    destruct (ky1 =? BLOCK_OP_WRFRME); [apply frame_checksum_range|lia].
  - apply executeOpcode_round_spec.
  - exact (executeOpcode_rounds fuel (b, frame, ky1, fm1)).
Qed.

(** *** A transport that stores and returns frames faithfully

    [stored b g] is the content the device behind bus state [b] holds for
    frame [g].  A frame-write request is acknowledged, leaves the buffer
    as it was and stores it under its frame index; a frame-read request is
    acknowledged and fills the buffer with the stored frame. *)
Record faithful_bus (stored : Bus -> Z -> list Z) : Prop := {
  bus_write : forall b fm frame, 0 <= fm < 2 ^ 16 ->
    let '(regstate', frame', b') :=
      block_io_bus b (request_register frame BLOCK_OP_WRFRME fm) frame in
    acknowledged regstate' frame' = true /\ frame' = frame /\
    stored b' fm = frame /\ (forall g, g <> fm -> stored b' g = stored b g);
  bus_read : forall b fm frame, 0 <= fm < 2 ^ 16 ->
    let '(regstate', frame', b') :=
      block_io_bus b (request_register frame BLOCK_OP_RDFRME fm) frame in
    acknowledged regstate' frame' = true /\ frame' = stored b fm /\
    (forall g, stored b' g = stored b g)
}.

Lemma executeOpcode_write stored (n : nat) b frame fm :
  faithful_bus stored -> 0 <= fm < 2 ^ 16 ->
  exists b', executeOpcode (S n) b frame BLOCK_OP_WRFRME fm = Ok (frame, b') /\
             stored b' fm = frame /\
             (forall g, g <> fm -> stored b' g = stored b g).
Proof.
  intros Hbus Hfm. pose proof (bus_write _ Hbus b fm frame Hfm) as Hw.
  pose proof (executeOpcode_round_spec b frame BLOCK_OP_WRFRME fm) as Hr.
  cbn [executeOpcode].
  destruct (block_io_bus b (request_register frame BLOCK_OP_WRFRME fm) frame)
    as [[regstate' frame'] b'].
  destruct (executeOpcode_round b frame BLOCK_OP_WRFRME fm)
    as [[[[rt1 ky1'] fm1'] frame''] b''].
  destruct Hw as (Hack & -> & Hst & Hother).
  destruct Hr as (Hrt & -> & -> & _).
  rewrite (proj2 Hrt Hack). cbn. eauto.
Qed.

Lemma executeOpcode_read stored (n : nat) b frame fm :
  faithful_bus stored -> 0 <= fm < 2 ^ 16 ->
  exists b', executeOpcode (S n) b frame BLOCK_OP_RDFRME fm
             = Ok (stored b fm, b') /\
             (forall g, stored b' g = stored b g).
Proof.
  intros Hbus Hfm. pose proof (bus_read _ Hbus b fm frame Hfm) as Hw.
  pose proof (executeOpcode_round_spec b frame BLOCK_OP_RDFRME fm) as Hr.
  cbn [executeOpcode].
  destruct (block_io_bus b (request_register frame BLOCK_OP_RDFRME fm) frame)
    as [[regstate' frame'] b'].
  destruct (executeOpcode_round b frame BLOCK_OP_RDFRME fm)
    as [[[[rt1 ky1'] fm1'] frame''] b''].
  destruct Hw as (Hack & -> & Hother).
  destruct Hr as (Hrt & -> & -> & _).
  rewrite (proj2 Hrt Hack). cbn. eauto.
Qed.

End Engine.

(** ** Arrays *)

Lemma array_get_Ok {A : Type} (l : list A) (i : Z) (x : A) :
  array_get l i = Ok x <-> 0 <= i /\ l !! Z.to_nat i = Some x.
Proof.
  unfold array_get. destruct (Z.ltb_spec i 0).
  - split; [discriminate|lia].
  - destruct (l !! Z.to_nat i) as [y|].
    + split; [intros [= ->]; auto|intros [_ [= ->]]; reflexivity].
    + split; [discriminate|intros [_ [=]]].
Qed.

Lemma array_get_range {A : Type} (l : list A) (i : Z) (x : A) :
  array_get l i = Ok x -> 0 <= i < len l.
Proof.
  intros [Hi Hl]%array_get_Ok. apply lookup_lt_Some in Hl. unfold len. lia.
Qed.

Lemma array_get_in_range {A : Type} (l : list A) (i : Z) :
  0 <= i < len l -> exists x, array_get l i = Ok x.
Proof.
  intros Hi. unfold len in Hi.
  destruct (lookup_lt_is_Some_2 l (Z.to_nat i)) as [x Hx]; [lia|].
  exists x. apply array_get_Ok. split; [lia|assumption].
Qed.

Lemma array_set_Ok {A : Type} (l : list A) (i : Z) (x : A) :
  0 <= i < len l -> array_set l i x = Ok (<[Z.to_nat i := x]> l).
Proof.
  intros Hi. unfold array_set.
  rewrite (proj2 (Z.leb_le 0 i)), (proj2 (Z.ltb_lt i (len l))) by lia.
  reflexivity.
Qed.

Lemma array_set_inv {A : Type} (l l' : list A) (i : Z) (x : A) :
  array_set l i x = Ok l' -> 0 <= i < len l /\ l' = <[Z.to_nat i := x]> l.
Proof.
  unfold array_set. destruct (Z.leb_spec 0 i); [|discriminate].
  destruct (Z.ltb_spec i (len l)); [|discriminate].
  intros [= <-]. auto.
Qed.

Lemma array_get_insert_eq {A : Type} (l : list A) (i : Z) (x : A) :
  0 <= i < len l -> array_get (<[Z.to_nat i := x]> l) i = Ok x.
Proof.
  intros Hi. apply array_get_Ok. split; [lia|].
  apply list_lookup_insert_eq. unfold len in Hi. lia.
Qed.

Lemma array_get_insert_ne {A : Type} (l : list A) (i j : Z) (x : A) :
  0 <= i -> 0 <= j -> i <> j ->
  array_get (<[Z.to_nat i := x]> l) j = array_get l j.
Proof.
  intros Hi Hj Hne. unfold array_get.
  destruct (Z.ltb_spec j 0); [reflexivity|].
  rewrite list_lookup_insert_ne by lia. reflexivity.
Qed.

Lemma len_insert {A : Type} (l : list A) (i : nat) (x : A) :
  len (<[i := x]> l) = len l.
Proof. unfold len. now rewrite length_insert. Qed.

(** ** A simulated device

    Modelled from the spec: the bus transport of the specification's
    external interfaces, which is not among the sources.  The device keeps
    the frames it was sent under their frame index.  It stores a frame on
    a frame-write whose checksum field matches the buffer and answers with
    return code 0, and with return code 1 when the checksum does not
    match; on a frame-read it fills the buffer with the stored frame (zeros
    for a frame never written) and returns its checksum; zero-all empties
    the device.  The checksum is the sum of the bytes. *)

Definition byte_sum (frame : list Z) : Z := fold_right Z.add 0 frame.

Definition sim_stored (m : gmap Z (list Z)) (g : Z) : list Z :=
  default (repeat 0 (Z.to_nat BLOCK_FRAME_SIZE)) (m !! g).

Definition sim_io (m : gmap Z (list Z)) (reg : Z) (frame : list Z)
  : Z * list Z * gmap Z (list Z) :=
  let '(ky1, fm1, cs1, rt1) := unpack (u64 reg) in
  if ky1 =? 3 then
    if cs1 =? u32 (byte_sum frame)
    then (pack ky1 fm1 cs1 0, frame, <[fm1 := frame]> m)
    else (pack ky1 fm1 cs1 1, frame, m)
  else if ky1 =? 2 then
    (pack ky1 fm1 (u32 (byte_sum (sim_stored m fm1))) 0, sim_stored m fm1, m)
  else if ky1 =? 1 then (pack ky1 fm1 0 0, frame, ∅)
  else (pack ky1 fm1 0 0, frame, m).

(** A small device: 8 frames, 4 files and handles, a cache of 2 frames. *)
Definition sim : Platform :=
  {| Bus := gmap Z (list Z);
     block_io_bus := sim_io;
     compute_frame_checksum := byte_sum;
     BLOCK_BLOCK_SIZE := 8;
     BLOCK_MAX_TOTAL_FILES := 4;
     BLOCK_OP_INITMS := 0;
     BLOCK_OP_BZERO := 1;
     BLOCK_OP_POWOFF := 4;
     BLOCK_OP_RDFRME := 2;
     BLOCK_OP_WRFRME := 3;
     DEFAULT_BLOCK_FRAME_CACHE_SIZE := 2 |}.

(** The globals of the program before [block_poweron]: all zero, the cache
    limit at its default. *)
Definition boot_state {P : Platform} (b : Bus) : Driver :=
  {| isOn := 0; nbFiles := 0; nbHandles := 0; freeFrameNr := 0;
     files := repeat zero_file (Z.to_nat BLOCK_MAX_TOTAL_FILES);
     handles := repeat zero_handle (Z.to_nat BLOCK_MAX_TOTAL_FILES);
     cache_st := cache_boot DEFAULT_BLOCK_FRAME_CACHE_SIZE;
     bus := b |}.

(** The simulated device after power-on and [block_open("a")]. *)
Definition sim_opened : res (Z * @Driver sim) :=
  do (_, d) <- @block_poweron sim 1 (@boot_state sim ∅);
  @block_open sim [97] d.

Definition sim_opened_state : @Driver sim :=
  match sim_opened with
  | Ok (_, d) => d
  | _ => @boot_state sim ∅
  end.

Section Files.
Context {P : Platform}.

(** *** Closing a handle *)

(** C3, as the code has it.  [block_close] on a handle that is already
    closed returns [-1] and changes nothing.  On an open handle it returns
    0 and marks the handle closed, sets its cursor to [-1] and clears its
    file reference, leaving every other handle and everything else as it
    was.  Closing the handle record itself a second time changes nothing
    more. *)
Theorem block_close_spec (d : Driver) (fd : Z) (h : fh_t) :
  isOn d <> 0 -> array_get (handles d) fd = Ok h ->
  (status h = CLOSED -> block_close fd d = Ok (-1, d)) /\
  (status h <> CLOSED ->
     block_close fd d
     = Ok (0, set_handles d
                (<[Z.to_nat fd := {| file := None; loc := -1;
                                     status := CLOSED |}]> (handles d)))) /\
  closeFile (closeFile h) = closeFile h.
Proof.
  intros Hon Hh. unfold block_close.
  rewrite (proj2 (Z.eqb_neq _ _) Hon), Hh. cbn [bind].
  split; [|split].
  - intros ->. reflexivity.
  - intros Hs. rewrite (proj2 (Z.eqb_neq _ _) Hs).
    rewrite array_set_Ok by (eapply array_get_range; eauto). reflexivity.
  - reflexivity.
Qed.

End Files.

Lemma block_close_spec_witness :
  @block_close sim 0 sim_opened_state
  = Ok (0, @set_handles sim sim_opened_state
             (<[0%nat := {| file := None; loc := -1; status := CLOSED |}]>
                (@handles sim sim_opened_state))).
Proof.
  refine (proj1 (proj2 (@block_close_spec sim sim_opened_state 0
                          {| file := Some 0; loc := 0; status := OPEN |} _ _)) _).
  - vm_compute. discriminate.
  - vm_compute. reflexivity.
  - vm_compute. discriminate.
Defined.

(** C3, as the specification states it, fails: a second [block_close] on
    the handle just closed reports an error. *)
Lemma block_close_twice_fails :
  (do (rc1, d) <- @block_close sim 0 sim_opened_state;
   do (rc2, _) <- @block_close sim 0 d;
   Ok (rc1, rc2)) = Ok (0, -1).
Proof. vm_compute. reflexivity. Qed.

Section Opening.
Context {P : Platform}.

(** *** Opening a file *)


Lemma name_matches_defined (f : file_t) (path : list Z) :
  len path <= len (name f) ->
  name_matches f path
  = Ok (bool_decide (take (length path) (name f) = path)).
Proof.
  intros H. unfold name_matches. now rewrite (proj2 (Z.leb_le _ _) H).
Qed.

Lemma find_file_spec (d : Driver) (path : list Z) : forall (n : nat) (i : Z),
  0 <= i -> i + Z.of_nat n <= len (files d) ->
  Forall (fun f => len path <= len (name f)) (files d) ->
  exists (found : bool) (j : Z),
    find_file n i d path = Ok (found, j) /\ i <= j <= i + Z.of_nat n /\
    (forall k f, i <= k < j -> array_get (files d) k = Ok f ->
                 name_matches f path = Ok false) /\
    (if found
     then j < i + Z.of_nat n /\
          exists f, array_get (files d) j = Ok f /\ name_matches f path = Ok true
     else j = i + Z.of_nat n).
Proof.
  induction n as [|n IH]; intros i Hi Hn Hfit.
  - exists false, i. cbn [find_file]. repeat split; lia.
  - cbn [find_file].
    destruct (array_get_in_range (files d) i) as [f Hf]; [lia|].
    rewrite Hf. cbn [bind].
    assert (Hfit_f : len path <= len (name f)).
    { rewrite Forall_forall in Hfit. apply Hfit.
      apply array_get_Ok in Hf as [_ Hf]. eapply list_elem_of_lookup_2; eauto. }
    rewrite (name_matches_defined f path Hfit_f). cbn [bind].
    destruct (bool_decide (take (length path) (name f) = path)) eqn:Em.
    + exists true, i. repeat split; try lia.
      exists f. split; [assumption|].
      rewrite (name_matches_defined f path Hfit_f). now rewrite Em.
    + destruct (IH (i + 1)) as (found & j & Hrun & Hj & Hbefore & Hfound);
        [lia|lia|assumption|].
      exists found, j. rewrite Hrun. repeat split; try lia.
      * intros k f' Hk Hf'. destruct (Z.eq_dec k i) as [->|Hne].
        -- rewrite Hf in Hf'. injection Hf' as <-.
           rewrite (name_matches_defined f path Hfit_f). now rewrite Em.
        -- apply (Hbefore k f'); [lia|assumption].
      * destruct found; [|lia]. destruct Hfound as [Hlt Hex].
        split; [lia|assumption].
Qed.


End Opening.


Section Allocation.
Context {P : Platform}.

(** *** Frame allocation *)

(** The number of frames a file of [nr] frames lacks to hold [loc + count]
    bytes. *)
Definition frames_needed (loc count nr : Z) : Z :=
  Z.max 0 ((loc + count + (BLOCK_FRAME_SIZE - 1)) / BLOCK_FRAME_SIZE - nr).

Lemma u16_small (x : Z) : 0 <= x < 2 ^ 16 -> u16 x = x.
Proof. intros H. unfold u16. now apply Z.mod_small. Qed.

Lemma allocate_loop_inv : forall (n : nat) loc count frs nr free rc frs' nr' free',
  0 <= nr -> len frs < 2 ^ 16 ->
  allocate_loop n loc count frs nr free = Ok (rc, frs', nr', free') ->
  len frs' = len frs /\ nr <= nr' /\ (nr < nr' -> nr' <= len frs) /\
  free' - free = nr' - nr /\
  (forall k, 0 <= k < nr -> array_get frs' k = array_get frs k) /\
  (forall k, nr <= k < nr' -> array_get frs' k = Ok (u16 (free + (k - nr)))) /\
  ((rc = 0 /\ loc + count <= nr' * BLOCK_FRAME_SIZE /\
    (nr' = nr \/ free' <= BLOCK_BLOCK_SIZE)) \/
   (rc = -1 /\ BLOCK_BLOCK_SIZE < free' /\ nr < nr')).
Proof.
  assert (Hstop : forall loc count frs nr free rc frs' nr' free',
    loc + count <= nr * BLOCK_FRAME_SIZE ->
    Ok (0, frs, nr, free) = Ok (rc, frs', nr', free') ->
    len frs' = len frs /\ nr <= nr' /\ (nr < nr' -> nr' <= len frs) /\
    free' - free = nr' - nr /\
    (forall k, 0 <= k < nr -> array_get frs' k = array_get frs k) /\
    (forall k, nr <= k < nr' -> array_get frs' k = Ok (u16 (free + (k - nr)))) /\
    ((rc = 0 /\ loc + count <= nr' * BLOCK_FRAME_SIZE /\
      (nr' = nr \/ free' <= BLOCK_BLOCK_SIZE)) \/
     (rc = -1 /\ BLOCK_BLOCK_SIZE < free' /\ nr < nr'))).
  { intros loc count frs nr free rc frs' nr' free' Hle [= <- <- <- <-].
    repeat split; lia. }
  induction n as [|n IH]; intros loc count frs nr free rc frs' nr' free' Hnr Hlen;
    cbn [allocate_loop];
    destruct (Z.gtb_spec (loc + count) (nr * BLOCK_FRAME_SIZE)) as [Hgt|Hle];
    try discriminate; try (now apply Hstop).
  destruct (array_set frs nr (u16 free)) as [frs1| |] eqn:Eset; try discriminate.
  apply array_set_inv in Eset as [Hin ->]. cbn [bind].
  rewrite (u16_small (nr + 1)) by lia.
  destruct (Z.gtb_spec (free + 1) BLOCK_BLOCK_SIZE) as [Hover|Hroom].
  - intros [= <- <- <- <-]. rewrite len_insert.
    repeat split; try lia.
    + intros k Hk. apply array_get_insert_ne; lia.
    + intros k Hk. assert (k = nr) as -> by lia.
      rewrite Z.sub_diag, Z.add_0_r. now apply array_get_insert_eq.
  - intros Hrun. apply IH in Hrun; [|lia|now rewrite len_insert].
    rewrite len_insert in Hrun.
    destruct Hrun as (Hl & Hle' & Hup & Hfree & Hold & Hnew & Hrc).
    repeat split; try lia.
    + intros k Hk. rewrite Hold by lia. apply array_get_insert_ne; lia.
    + intros k Hk. destruct (Z.eq_dec k nr) as [->|Hne].
      * rewrite Hold by lia. rewrite Z.sub_diag, Z.add_0_r.
        now apply array_get_insert_eq.
      * rewrite Hnew by lia. do 2 f_equal. lia.
Qed.

(** Allocation ends in [-1] when the frames needed are more than the
    counter can hand out before it passes [BLOCK_BLOCK_SIZE]; [m] counts
    the frames handed out before the one that passes it. *)
Lemma allocate_loop_fails : forall (m n : nat) loc count frs nr free,
  0 <= nr -> len frs < 2 ^ 16 ->
  Z.of_nat m = Z.max 0 (BLOCK_BLOCK_SIZE - free) ->
  nr + Z.of_nat m < len frs ->
  (nr + Z.of_nat m) * BLOCK_FRAME_SIZE < loc + count ->
  (m < n)%nat ->
  exists frs',
    allocate_loop n loc count frs nr free
    = Ok (-1, frs', nr + Z.of_nat m + 1, free + Z.of_nat m + 1).
Proof.
  induction m as [|m IH]; intros n loc count frs nr free Hnr Hlen Hm Hroom Hneed Hn;
    (destruct n as [|n]; [lia|]); cbn [allocate_loop];
    (destruct (Z.gtb_spec (loc + count) (nr * BLOCK_FRAME_SIZE)) as [Hgt|Hle];
     [|unfold BLOCK_FRAME_SIZE in *; lia]);
    rewrite array_set_Ok by lia; cbn [bind];
    rewrite (u16_small (nr + 1)) by lia.
  - destruct (Z.gtb_spec (free + 1) BLOCK_BLOCK_SIZE) as [Hover|Hok]; [|lia].
    eexists. repeat f_equal; lia.
  - destruct (Z.gtb_spec (free + 1) BLOCK_BLOCK_SIZE) as [Hover|Hok]; [lia|].
    destruct (IH n loc count (<[Z.to_nat nr := u16 free]> frs) (nr + 1) (free + 1))
      as (frs' & ->); try rewrite len_insert; try lia.
    replace (nr + Z.of_nat (S m) + 1) with (nr + 1 + Z.of_nat m + 1) by lia.
    replace (free + Z.of_nat (S m) + 1) with (free + 1 + Z.of_nat m + 1) by lia.
    eexists. reflexivity.
Qed.

(** Allocation ends in [0] when the [m] frames needed fit the frame array
    and the counter. *)
Lemma allocate_loop_succeeds : forall (m n : nat) loc count frs nr free,
  0 <= nr -> len frs < 2 ^ 16 ->
  Z.of_nat m = frames_needed loc count nr ->
  nr + Z.of_nat m <= len frs ->
  free + Z.of_nat m <= BLOCK_BLOCK_SIZE ->
  (m <= n)%nat ->
  exists frs',
    allocate_loop n loc count frs nr free
    = Ok (0, frs', nr + Z.of_nat m, free + Z.of_nat m).
Proof.
  unfold frames_needed, BLOCK_FRAME_SIZE.
  induction m as [|m IH]; intros n loc count frs nr free Hnr Hlen Hm Hroom Hfree Hn.
  - assert (Hfit : loc + count <= nr * 4096)
      by (revert Hm; Z.div_mod_to_equations; lia).
    exists frs. destruct n; cbn [allocate_loop]; unfold BLOCK_FRAME_SIZE;
      (destruct (Z.gtb_spec (loc + count) (nr * 4096)); [lia|]);
      repeat f_equal; lia.
  - destruct n as [|n]; [lia|]. cbn [allocate_loop]. unfold BLOCK_FRAME_SIZE.
    assert (Hgt : nr * 4096 < loc + count)
      by (revert Hm; Z.div_mod_to_equations; lia).
    destruct (Z.gtb_spec (loc + count) (nr * 4096)); [|lia].
    rewrite array_set_Ok by lia. cbn [bind].
    rewrite (u16_small (nr + 1)) by lia.
    destruct (Z.gtb_spec (free + 1) BLOCK_BLOCK_SIZE) as [Hover|Hok]; [lia|].
    destruct (IH n loc count (<[Z.to_nat nr := u16 free]> frs) (nr + 1) (free + 1))
      as (frs' & Hrun); try rewrite len_insert; try lia.
    unfold BLOCK_FRAME_SIZE in Hrun. rewrite Hrun.
    replace (nr + Z.of_nat (S m)) with (nr + 1 + Z.of_nat m) by lia.
    replace (free + Z.of_nat (S m)) with (free + 1 + Z.of_nat m) by lia.
    eexists. reflexivity.
Qed.

End Allocation.

Section FailedAllocation.
Context {P : Platform}.

Lemma frames_needed_more (loc count nr m : Z) :
  0 <= m -> m < frames_needed loc count nr ->
  (nr + m) * BLOCK_FRAME_SIZE < loc + count.
Proof.
  unfold frames_needed, BLOCK_FRAME_SIZE. intros Hm Hlt.
  revert Hlt. Z.div_mod_to_equations. lia.
Qed.

(** C8, as the code has it.  When the frames a write needs are more than
    the free-frame counter can hand out without passing
    [BLOCK_BLOCK_SIZE], [block_write] returns [-1].  The handles, and with
    them the cursor, the size of the file, its frame count, its name and
    the frame indices below the frame count are as before; so are the
    cache and the device.  The frame array has been written from the
    frame count on, and the counter has moved past [BLOCK_BLOCK_SIZE]. *)
Theorem block_write_out_of_frames (fuel : nat) (d : Driver) (fd : Z)
    (buf : list Z) (count : Z) (h : fh_t) (i : Z) (f : file_t) :
  array_get (handles d) fd = Ok h -> status h <> CLOSED ->
  file h = Some i -> array_get (files d) i = Ok f ->
  0 <= nrFrames f -> len (frames f) < 2 ^ 16 ->
  Z.max 0 (BLOCK_BLOCK_SIZE - freeFrameNr d)
    < frames_needed (loc h) count (nrFrames f) ->
  nrFrames f + Z.max 0 (BLOCK_BLOCK_SIZE - freeFrameNr d) < len (frames f) ->
  exists frs',
    block_write fuel fd buf count d
    = Ok (-1,
          set_freeFrameNr
            (set_files d
               (<[Z.to_nat i := {| name := name f; size := size f;
                                   frames := frs'; nrFrames := nrFrames f |}]>
                  (files d)))
            (freeFrameNr d + Z.max 0 (BLOCK_BLOCK_SIZE - freeFrameNr d) + 1)) /\
    len frs' = len (frames f) /\
    (forall k, 0 <= k < nrFrames f -> array_get frs' k = array_get (frames f) k) /\
    array_get frs' (nrFrames f) = Ok (u16 (freeFrameNr d)).
Proof.
  intros Hh Hst Hfile Hf Hnr Hlen Hneed Hroom.
  set (m := Z.max 0 (BLOCK_BLOCK_SIZE - freeFrameNr d)) in *.
  assert (Hm0 : 0 <= m) by (unfold m; lia).
  pose proof (frames_needed_more _ _ _ _ Hm0 Hneed) as Hgt.
  destruct (allocate_loop_fails (Z.to_nat m) (S (length (frames f)))
              (loc h) count (frames f) (nrFrames f) (freeFrameNr d))
    as (frs' & Hrun); try (rewrite ?Z2Nat.id by lia; unfold len in *; lia).
  rewrite Z2Nat.id in Hrun by lia.
  exists frs'.
  pose proof (allocate_loop_inv _ _ _ _ _ _ _ _ _ _ Hnr Hlen Hrun)
    as (Hl & _ & _ & _ & Hold & Hnew & _).
  split; [|split; [exact Hl|split; [exact Hold|]]].
  - unfold block_write. rewrite Hh. cbn [bind].
    rewrite (proj2 (Z.eqb_neq _ _) Hst).
    unfold allocateNewFrames, deref_file. rewrite Hfile, Hf. cbn [bind].
    rewrite (u16_small (nrFrames f)) by lia. rewrite Hrun. cbn [bind].
    change (-1 =? -1) with true. cbn iota. unfold store_file.
    rewrite array_set_Ok by (eapply array_get_range; eauto).
    cbn [bind]. change (-1 =? -1) with true. cbn iota. reflexivity.
  - rewrite Hnew by lia. do 2 f_equal. lia.
Qed.

End FailedAllocation.

(** On the simulated device, with [BLOCK_BLOCK_SIZE = 8] and the counter
    at 4, a write of five frames cannot be served. *)
Lemma block_write_out_of_frames_witness :
  exists frs',
    @block_write sim 1 0 (repeat 7 (Z.to_nat 20480)) 20480 sim_opened_state
    = Ok (-1,
          @set_freeFrameNr sim
            (@set_files sim sim_opened_state
               (<[0%nat := {| name := 97 :: repeat 0 127%nat; size := 0;
                              frames := frs'; nrFrames := 0 |}]>
                  (@files sim sim_opened_state)))
            9) /\
    array_get frs' 0 = Ok 4.
Proof.
  destruct (@block_write_out_of_frames sim 1%nat sim_opened_state 0
              (repeat 7 (Z.to_nat 20480)) 20480
              {| file := Some 0; loc := 0; status := OPEN |} 0
              {| name := 97 :: repeat 0 127%nat; size := 0;
                 frames := repeat 0 1024%nat; nrFrames := 0 |})
    as (frs' & Hrun & _ & _ & Hslot).
  - vm_compute. reflexivity.
  - vm_compute. discriminate.
  - reflexivity.
  - vm_compute. reflexivity.
  - vm_compute. discriminate.
  - vm_compute. reflexivity.
  - vm_compute. reflexivity.
  - vm_compute. reflexivity.
  - exists frs'. split; [exact Hrun|exact Hslot].
Defined.

(** C8, as the specification states it, fails: after the failed write the
    frame array of the file is not the one it had. *)
Lemma failed_write_changes_frame_array :
  match @block_write sim 1 0 (repeat 7 (Z.to_nat 20480)) 20480 sim_opened_state with
  | Ok (rc, d') =>
      rc = -1 /\
      (take 5 ∘ frames) <$> (@files sim sim_opened_state !! 0%nat)
        = Some [0; 0; 0; 0; 0] /\
      (take 5 ∘ frames) <$> (@files sim d' !! 0%nat) = Some [4; 5; 6; 7; 8] /\
      nrFrames <$> (@files sim d' !! 0%nat) = Some 0 /\
      @freeFrameNr sim sim_opened_state = 4 /\
      @freeFrameNr sim d' = 9
  | _ => False
  end.
Proof. vm_compute. repeat split; reflexivity. Qed.

Section SizeInvariant.
Context {P : Platform}.

(** *** File size and frame count *)

(** The calls of the file interface. *)
Inductive api_call :=
| Open (path : list Z)
| Close (fd : Z)
| Read (fd count : Z)
| Write (fd : Z) (buf : list Z) (count : Z)
| Seek (fd loc : Z).

Definition api_step (fuel : nat) (call : api_call) (d : Driver)
  : res (Z * Driver) :=
  match call with
  | Open path => block_open path d
  | Close fd => block_close fd d
  | Read fd count => do (r, d') <- block_read fuel fd count d; Ok (fst r, d')
  | Write fd buf count => block_write fuel fd buf count d
  | Seek fd loc => block_seek fd loc d
  end.

(** A file record: a frame array of 1024 entries, and frames enough for
    the size. *)
Definition file_inv (f : file_t) : Prop :=
  len (frames f) = 1024 /\ size f <= nrFrames f * BLOCK_FRAME_SIZE.

Definition frames_cover_size (d : Driver) : Prop := Forall file_inv (files d).

(** A write that starts at or after the end of its file. *)
Definition appends (d : Driver) (call : api_call) : Prop :=
  match call with
  | Write fd _ _ =>
      exists h f, array_get (handles d) fd = Ok h /\
                  deref_file d (file h) = Ok f /\ size f <= loc h
  | _ => True
  end.

Lemma bind_Ok {A B : Type} (m : res A) (k : A -> res B) (b : B) :
  bind m k = Ok b -> exists a, m = Ok a /\ k a = Ok b.
Proof. destruct m as [a| |]; cbn; [eauto|discriminate|discriminate]. Qed.

Lemma store_file_inv (d d' : Driver) (p : option Z) (f : file_t) :
  store_file d p f = Ok d' ->
  exists i, p = Some i /\ 0 <= i < len (files d) /\
            d' = set_files d (<[Z.to_nat i := f]> (files d)).
Proof.
  unfold store_file. destruct p as [i|]; [|discriminate].
  intros (fs & Hset & [= <-])%bind_Ok.
  apply array_set_inv in Hset as [Hi ->]. eauto.
Qed.

Lemma allocateNewFrames_inv (h : fh_t) (count : Z) (d d1 : Driver) (rc : Z) :
  allocateNewFrames h count d = Ok (rc, d1) ->
  exists i f n frs nr free rc0,
    file h = Some i /\ array_get (files d) i = Ok f /\
    allocate_loop n (loc h) count (frames f) (u16 (nrFrames f)) (freeFrameNr d)
    = Ok (rc0, frs, nr, free) /\
    rc = (if rc0 =? -1 then -1 else 0) /\
    d1 = set_freeFrameNr
           (set_files d
              (<[Z.to_nat i :=
                   {| name := name f; size := size f; frames := frs;
                      nrFrames := if rc0 =? -1 then nrFrames f else nr |}]>
                 (files d)))
           free.
Proof.
  unfold allocateNewFrames.
  intros (f & Hf & Hrest)%bind_Ok.
  apply bind_Ok in Hrest as ([[[rc0 frs] nr] free] & Hrun & Hrest).
  unfold deref_file in Hf. destruct (file h) as [i|] eqn:Hfile; [|discriminate].
  exists i, f, (S (length (frames f))), frs, nr, free, rc0.
  destruct (rc0 =? -1) eqn:Erc;
    apply bind_Ok in Hrest as (d' & Hstore & [= <- <-]);
    apply store_file_inv in Hstore as (i' & [= <-] & Hi & ->);
    repeat split; auto.
Qed.

Lemma u16_range (x : Z) : 0 <= u16 x < 2 ^ 16.
Proof. unfold u16. apply Z.mod_pos_bound. lia. Qed.

(** C4, as the code has it.  Every call of the file interface keeps
    [size <= nrFrames * 4096] for every file, provided a write starts at or
    after the end of its file.  ([block_write] adds [count] to the size
    whatever the cursor, and allocates frames for [cursor + count] only.) *)
Theorem frames_cover_size_kept (fuel : nat) (call : api_call) (d d' : Driver)
    (rc : Z) :
  frames_cover_size d -> appends d call ->
  api_step fuel call d = Ok (rc, d') ->
  frames_cover_size d'.
Proof.
  unfold frames_cover_size. intros Hinv Happ Hstep.
  destruct call as [path|fd|fd count|fd buf count|fd loc0]; cbn [api_step] in Hstep.
  - (* open *)
    unfold block_open in Hstep.
    destruct (isOn d =? 0); [now injection Hstep as _ <-|].
    apply bind_Ok in Hstep as ([found i] & _ & Hstep).
    apply bind_Ok in Hstep as ([i' d1] & Hcreate & Hstep).
    apply bind_Ok in Hstep as (hs & _ & [= _ <-]). cbn [files].
    destruct found.
    + now injection Hcreate as _ <-.
    + apply bind_Ok in Hcreate as (slot & Hslot & Hcreate).
      apply bind_Ok in Hcreate as (f & Hf & Hcreate).
      apply bind_Ok in Hcreate as (fs & Hfs & [= _ <-]). cbn [files].
      apply array_set_inv in Hfs as [_ ->].
      apply Forall_insert; [assumption|].
      unfold createNewFile in Hf.
      apply bind_Ok in Hf as (nm & _ & [= <-]).
      rewrite Forall_forall in Hinv.
      assert (Hs : file_inv slot).
      { apply Hinv. apply array_get_Ok in Hslot as [_ Hslot].
        eapply list_elem_of_lookup_2; eauto. }
      destruct Hs as [Hlen _]. split; cbn; [assumption|lia].
  - (* close *)
    unfold block_close in Hstep.
    destruct (isOn d =? 0); [now injection Hstep as _ <-|].
    apply bind_Ok in Hstep as (h & _ & Hstep).
    destruct (status h =? CLOSED); [now injection Hstep as _ <-|].
    apply bind_Ok in Hstep as (hs & _ & [= _ <-]). assumption.
  - (* read *)
    apply bind_Ok in Hstep as ([[r out] d1] & Hstep & [= _ <-]).
    unfold block_read in Hstep.
    destruct (isOn d =? 0); [now injection Hstep as _ _ <-|].
    apply bind_Ok in Hstep as (h & _ & Hstep).
    destruct (status h =? CLOSED); [now injection Hstep as _ _ <-|].
    apply bind_Ok in Hstep as (f & _ & Hstep).
    apply bind_Ok in Hstep as ([[[l o] cs] b] & _ & Hstep).
    apply bind_Ok in Hstep as (hs & _ & [= _ _ <-]). assumption.
  - (* write *)
    destruct Happ as (h0 & f0 & Hh0 & Hf0 & Hend).
    unfold block_write in Hstep. rewrite Hh0 in Hstep. cbn [bind] in Hstep.
    destruct (status h0 =? CLOSED); [now injection Hstep as _ <-|].
    apply bind_Ok in Hstep as ([rc1 d1] & Halloc & Hstep).
    apply allocateNewFrames_inv in Halloc
      as (i & f & n & frs & nr & free & rc0 & Hfile & Hf & Hrun & -> & ->).
    unfold deref_file in Hf0. rewrite Hfile, Hf in Hf0. injection Hf0 as <-.
    assert (Hfi : file_inv f).
    { rewrite Forall_forall in Hinv. apply Hinv.
      apply array_get_Ok in Hf as [_ Hf]. eapply list_elem_of_lookup_2; eauto. }
    destruct Hfi as [Hlen Hsize].
    pose proof (u16_range (nrFrames f)) as Hu.
    apply allocate_loop_inv in Hrun as (Hl & _ & _ & _ & _ & _ & Hrc);
      [|lia|lia].
    destruct (rc0 =? -1) eqn:Erc.
    + change (-1 =? -1) with true in Hstep. injection Hstep as _ <-.
      cbn [files set_freeFrameNr set_files].
      apply Forall_insert; [assumption|]. split; cbn; [lia|assumption].
    + change (0 =? -1) with false in Hstep.
      apply bind_Ok in Hstep as (f1 & Hf1 & Hstep).
      apply bind_Ok in Hstep as ([[loc' cs] b] & _ & Hstep).
      apply bind_Ok in Hstep as (hs & _ & Hstep).
      apply bind_Ok in Hstep as (f2 & Hf2 & Hstep).
      apply bind_Ok in Hstep as (d3 & Hstore & [= _ <-]).
      apply store_file_inv in Hstore as (i' & Hi' & _ & ->).
      rewrite Hfile in Hi'. injection Hi' as <-.
      unfold deref_file in Hf2. rewrite Hfile in Hf2.
      cbn [files set_handles set_io set_freeFrameNr set_files] in Hf2 |- *.
      rewrite list_insert_insert_eq.
      apply array_get_range in Hf as Hi.
      rewrite array_get_insert_eq in Hf2 by assumption. injection Hf2 as <-.
      apply Forall_insert; [assumption|]. cbn [name size frames nrFrames].
      split; cbn; [lia|].
      destruct Hrc as [(_ & Hfit & _)|(-> & _)]; [lia|discriminate].
  - (* seek *)
    unfold block_seek in Hstep.
    apply bind_Ok in Hstep as (h & _ & Hstep).
    destruct (status h =? CLOSED); [now injection Hstep as _ <-|].
    apply bind_Ok in Hstep as (f & _ & Hstep).
    destruct (u32 (size f) <? u32 loc0); [now injection Hstep as _ <-|].
    apply bind_Ok in Hstep as (hs & _ & [= _ <-]). assumption.
Qed.

End SizeInvariant.

(** The simulated device after the first 4096 bytes are written to the
    file opened. *)
Definition sim_written_state : @Driver sim :=
  match @block_write sim 1 0 (repeat 7 (Z.to_nat 4096)) 4096 sim_opened_state with
  | Ok (_, d) => d
  | _ => sim_opened_state
  end.

Lemma returned_state {P : Platform} (r : res (Z * Driver)) (rc : Z)
    (dflt : Driver) :
  match r with Ok (rc', _) => rc' = rc | _ => False end ->
  r = Ok (rc, match r with Ok (_, d) => d | _ => dflt end).
Proof. destruct r as [[rc' d]| |]; intros H; [now subst|contradiction..]. Qed.

Lemma frames_cover_size_kept_witness : @frames_cover_size sim sim_written_state.
Proof.
  apply (@frames_cover_size_kept sim 1%nat
           (Write 0 (repeat 7 (Z.to_nat 4096)) 4096)
           sim_opened_state sim_written_state 4096).
  - repeat constructor; vm_compute; discriminate.
  - exists {| file := Some 0; loc := 0; status := OPEN |}.
    exists {| name := 97 :: repeat 0 127%nat; size := 0;
              frames := repeat 0 1024%nat; nrFrames := 0 |}.
    repeat split; vm_compute; discriminate.
  - apply (@returned_state sim). vm_compute. reflexivity.
Defined.

(** C4, as the specification states it, fails: a file is opened, 4096
    bytes are written, the cursor is set back to 0 and 4096 bytes are
    written again.  Every call succeeds; the file then has size 8192 and
    one frame. *)
Lemma overwrite_breaks_frames_cover_size :
  (do (w1, d) <- @block_write sim 1 0 (repeat 7 (Z.to_nat 4096)) 4096
                   sim_opened_state;
   do (s, d) <- @block_seek sim 0 0 d;
   do (w2, d) <- @block_write sim 1 0 (repeat 8 (Z.to_nat 4096)) 4096 d;
   Ok (w1, s, w2, (fun f => (size f, nrFrames f)) <$> @files sim d !! 0%nat))
  = Ok (4096, 0, 4096, Some (8192, 1)).
Proof. vm_compute. reflexivity. Qed.

(** * Further properties of the code *)

(** ** The register, for arguments of any size *)

Ltac bit_neg :=
  repeat match goal with
  | |- context [ Z.testbit ?x ?i ] =>
      rewrite (Z.testbit_neg_r x i) by lia
  end.

Ltac bit_blast :=
  repeat (progress (bit_rewrite; bit_cases; try lia; bit_neg;
    rewrite ?andb_false_r, ?orb_false_r, ?orb_false_l, ?andb_true_r,
            ?andb_true_l)).

Lemma unpack_pack_general (ky fm cs rt : Z) :
  unpack (pack ky fm cs rt)
  = (Z.lor (u8 ky) (u8 (Z.shiftr (u32 fm) 16)),
     u16 fm,
     Z.lor (u32 cs) (Z.shiftr (u32 rt) 8),
     u8 rt).
Proof.
  unfold unpack, pack.
  repeat f_equal; apply Z.bits_inj'; intros n Hn; unfold_words;
    bit_blast; try reflexivity; try (f_equal; lia);
    try (f_equal; f_equal; lia).
Qed.

Lemma pack_range (ky fm cs rt : Z) : 0 <= pack ky fm cs rt < 2 ^ 64.
Proof.
  split; [apply pack_nonneg|].
  assert (E : pack ky fm cs rt = pack ky fm cs rt mod 2 ^ 64).
  { apply Z.bits_inj'; intros n Hn.
    rewrite Z.testbit_mod_pow2 by lia.
    destruct (Z.ltb_spec n 64); [reflexivity|].
    unfold pack. unfold_words. bit_blast; try reflexivity.
    all: rewrite ?Z.bits_0; try reflexivity. }
  rewrite E. apply Z.mod_pos_bound. lia.
Qed.

(** X1. What [unpack] reads from a register packed from any four 32-bit
    arguments.  The register fits 64 bits.  The frame index comes back
    cut to 16 bits and the return code cut to 8 bits; the opcode is its
    low 8 bits joined with bits 16 to 23 of the frame index, and the
    checksum is joined with the return code shifted down by 8 bits: a
    frame index or a return code too large for its field spills into the
    field above it. *)
Theorem unpack_pack_any (ky fm cs rt : Z) :
  0 <= pack ky fm cs rt < 2 ^ 64 /\
  unpack (pack ky fm cs rt)
  = (Z.lor (u8 ky) (u8 (Z.shiftr (u32 fm) 16)),
     u16 fm,
     Z.lor (u32 cs) (Z.shiftr (u32 rt) 8),
     u8 rt).
Proof. split; [apply pack_range|apply unpack_pack_general]. Qed.

(** X2. Every 64-bit register is the packing of the four fields [unpack]
    reads from it, and the fields read are within 8, 16, 32 and 8 bits. *)
Theorem pack_unpack_identity (reg : Z) :
  0 <= reg < 2 ^ 64 ->
  let '(ky, fm, cs, rt) := unpack reg in
  pack ky fm cs rt = reg /\
  0 <= ky < 2 ^ 8 /\ 0 <= fm < 2 ^ 16 /\ 0 <= cs < 2 ^ 32 /\ 0 <= rt < 2 ^ 8.
Proof.
  intros Hreg. unfold unpack. split.
  - unfold pack. apply Z.bits_inj'; intros n Hn. unfold_words.
    assert (Hcase : n < 8 \/ 8 <= n < 40 \/ 40 <= n < 56 \/ 56 <= n < 64 \/
                    64 <= n) by lia.
    destruct Hcase as [H|[H|[H|[H|H]]]];
      bit_blast; rewrite ?(testbit_above 64 reg) by lia;
      try reflexivity; try (f_equal; lia); try (f_equal; f_equal; lia).
  - unfold_words. rewrite !Z.shiftr_div_pow2, !Z.shiftl_mul_pow2 by lia.
    repeat split; try (apply Z.mod_pos_bound; lia).
    all: Z.div_mod_to_equations; lia.
Qed.

Lemma pack_unpack_identity_witness :
  let '(ky, fm, cs, rt) := unpack 18446744073709551615 in
  pack ky fm cs rt = 18446744073709551615 /\
  0 <= ky < 2 ^ 8 /\ 0 <= fm < 2 ^ 16 /\ 0 <= cs < 2 ^ 32 /\ 0 <= rt < 2 ^ 8.
Proof. apply (pack_unpack_identity 18446744073709551615). lia. Defined.

(** ** The cache: what a put does to later lookups *)

Lemma first_hit_head_eq frm (x : CacheNode) l :
  nFrm x = frm -> first_hit frm (x :: l) = Some x.
Proof.
  intros Hx. unfold first_hit. simpl. now rewrite (proj2 (Z.eqb_eq _ _) Hx).
Qed.

Lemma first_hit_head_ne g (x : CacheNode) l :
  nFrm x <> g -> first_hit g (x :: l) = first_hit g l.
Proof.
  intros Hx. unfold first_hit. simpl. now rewrite (proj2 (Z.eqb_neq _ _) Hx).
Qed.

Lemma put_cached st c block frm buf :
  cache st = Some c -> len (head c) = currentSize c ->
  exists st' c',
    put_block_cache block frm buf st = Ok (0, st') /\
    cache st' = Some c' /\
    block_cache_max_items st' = block_cache_max_items st /\
    cached st' frm = Some buf /\
    (forall g, g <> frm -> cached st' g = cached st g \/ cached st' g = None).
Proof.
  intros Hc Hlen.
  destruct (first_hit_cases frm (head c)) as [Hm|(l1 & n & l2 & Hh & Hl1 & Hn)].
  - rewrite (put_miss _ _ _ _ _ Hc Hlen Hm).
    destruct ((2 <=? currentSize c) && (currentSize c =? block_cache_max_items st)).
    + eexists _, _. split; [reflexivity|]. split; [reflexivity|].
      split; [reflexivity|]. split.
      * unfold cached, with_head. cbn [cache head].
        now rewrite first_hit_head_eq.
      * intros g Hg. unfold cached, with_head. cbn [cache head]. rewrite Hc.
        rewrite first_hit_head_ne by (simpl; congruence).
        destruct (first_hit_removelast g (head c)) as [E|E]; rewrite E; auto.
    + eexists _, _. split; [reflexivity|]. split; [reflexivity|].
      split; [reflexivity|]. split.
      * unfold cached, with_head. cbn [cache head].
        now rewrite first_hit_head_eq.
      * intros g Hg. left. unfold cached, with_head. cbn [cache head].
        rewrite Hc. now rewrite first_hit_head_ne by (simpl; congruence).
  - rewrite (put_hit _ _ _ _ _ _ _ _ Hc Hh Hlen Hl1 Hn).
    eexists _, _. split; [reflexivity|]. split; [reflexivity|].
    split; [reflexivity|]. split.
    + unfold cached, with_head. cbn [cache head]. now rewrite first_hit_head_eq.
    + intros g Hg. left. unfold cached, with_head. cbn [cache head].
      rewrite Hc, Hh. rewrite first_hit_head_ne by (simpl; congruence).
      symmetry. f_equal. apply first_hit_skip. congruence.
Qed.

Lemma get_block_cache_is_cached block frm st c :
  cache st = Some c -> get_block_cache block frm st = Ok (cached st frm).
Proof.
  intros Hc. rewrite get_block_cache_first_hit. unfold cached. now rewrite Hc.
Qed.

(** X3. In a cache whose counter is the number of its nodes, a put
    returns 0, and a lookup of the frame number put then returns the
    content put, whatever the limit and whatever block numbers the put and
    the lookup carry. *)
Theorem put_then_get (st : CacheState) (c : Cache) (block block' frm : Z)
    (buf : list Z) :
  cache st = Some c -> len (head c) = currentSize c ->
  exists st',
    put_block_cache block frm buf st = Ok (0, st') /\
    get_block_cache block' frm st' = Ok (Some buf).
Proof.
  intros Hc Hlen.
  destruct (put_cached st c block frm buf Hc Hlen)
    as (st' & c' & Hput & Hc' & _ & Hget & _).
  exists st'. split; [assumption|].
  rewrite (get_block_cache_is_cached _ _ _ _ Hc'). now rewrite Hget.
Qed.

Lemma put_then_get_witness :
  exists st',
    put_block_cache 0 7 [1; 2; 3] (cache_started 8 2) = Ok (0, st') /\
    get_block_cache 5 7 st' = Ok (Some [1; 2; 3]).
Proof.
  apply (put_then_get (cache_started 8 2) {| currentSize := 0; head := [] |});
    reflexivity.
Defined.

(** X4. A put leaves every other frame number as it was for lookups, or
    drops it from the cache: a lookup of another frame number after the put
    returns what it returned before, or a miss, never another content. *)
Theorem put_keeps_other_frames (st : CacheState) (c : Cache)
    (block block' frm g : Z) (buf : list Z) :
  cache st = Some c -> len (head c) = currentSize c -> g <> frm ->
  exists st',
    put_block_cache block frm buf st = Ok (0, st') /\
    (get_block_cache block' g st' = get_block_cache block' g st \/
     get_block_cache block' g st' = Ok None).
Proof.
  intros Hc Hlen Hg.
  destruct (put_cached st c block frm buf Hc Hlen)
    as (st' & c' & Hput & Hc' & _ & _ & Hother).
  exists st'. split; [assumption|].
  rewrite (get_block_cache_is_cached _ _ _ _ Hc'),
          (get_block_cache_is_cached _ _ _ _ Hc).
  destruct (Hother g Hg) as [E|E]; rewrite E; auto.
Qed.

Lemma put_keeps_other_frames_witness :
  exists st',
    put_block_cache 0 7 [1; 2; 3] (cache_started 8 2) = Ok (0, st') /\
    (get_block_cache 0 9 st' = get_block_cache 0 9 (cache_started 8 2) \/
     get_block_cache 0 9 st' = Ok None).
Proof.
  apply (put_keeps_other_frames (cache_started 8 2)
           {| currentSize := 0; head := [] |}); try reflexivity.
  discriminate.
Defined.

(** ** The cache: limit, eviction and distinct frame numbers *)

Lemma capacity_bound_from_two_witness :
  exists rs st c,
    cache_run [Put 0 1 [1]; Put 0 2 [2]; Get 0 1; Put 0 3 [3]] (cache_started 8 2)
    = Ok (rs, st) /\
    cache st = Some c /\ len (head c) <= 2.
Proof. apply (capacity_bound_from_two 8 2). lia. Defined.

Lemma full_cache_evicts_tail_witness :
  put_block_cache 0 3 [3]
    {| block_cache_max_items := 2;
       cache := Some {| currentSize := 2;
                        head := [createNewNode 0 2 [2]; createNewNode 0 1 [1]] |} |}
  = Ok (0, {| block_cache_max_items := 2;
              cache := Some {| currentSize := 2;
                               head := [createNewNode 0 3 [3];
                                        createNewNode 0 2 [2]] |} |}).
Proof.
  apply (full_cache_evicts_tail
           {| block_cache_max_items := 2;
              cache := Some {| currentSize := 2;
                               head := [createNewNode 0 2 [2];
                                        createNewNode 0 1 [1]] |} |}
           {| currentSize := 2;
              head := [createNewNode 0 2 [2]; createNewNode 0 1 [1]] |}
           0 3 [3]).
  - reflexivity.
  - reflexivity.
  - cbn. lia.
  - reflexivity.
  - repeat constructor; cbn; lia.
Defined.

(** X7. A put of a frame number the cache holds keeps the number of
    nodes: the first node with that number gets the new content and moves
    to the head of the list, the others keep their order.  The node keeps
    the block number it was created with, also when the put names another
    block. *)
Theorem put_on_cached_frame (st : CacheState) (c : Cache) (block frm : Z)
    (buf : list Z) (l1 : list CacheNode) (n : CacheNode) (l2 : list CacheNode) :
  cache st = Some c -> head c = l1 ++ n :: l2 ->
  len (head c) = currentSize c -> misses frm l1 -> nFrm n = frm ->
  put_block_cache block frm buf st
  = Ok (0, {| block_cache_max_items := block_cache_max_items st;
              cache := Some {| currentSize := currentSize c;
                               head := {| nBlock := nBlock n; nFrm := frm;
                                          nbuf := buf |} :: l1 ++ l2 |} |}).
Proof.
  intros Hc Hh Hlen Hl1 Hn.
  rewrite (put_hit _ _ _ _ _ _ _ _ Hc Hh Hlen Hl1 Hn).
  unfold with_head, set_nbuf. now rewrite Hn.
Qed.

Lemma put_on_cached_frame_witness :
  put_block_cache 9 1 [7]
    {| block_cache_max_items := 5;
       cache := Some {| currentSize := 3;
                        head := [createNewNode 0 3 [3]; createNewNode 0 2 [2];
                                 createNewNode 0 1 [1]] |} |}
  = Ok (0, {| block_cache_max_items := 5;
              cache := Some {| currentSize := 3;
                               head := [createNewNode 0 1 [7];
                                        createNewNode 0 3 [3];
                                        createNewNode 0 2 [2]] |} |}).
Proof.
  apply (put_on_cached_frame
           {| block_cache_max_items := 5;
              cache := Some {| currentSize := 3;
                               head := [createNewNode 0 3 [3];
                                        createNewNode 0 2 [2];
                                        createNewNode 0 1 [1]] |} |}
           {| currentSize := 3;
              head := [createNewNode 0 3 [3]; createNewNode 0 2 [2];
                       createNewNode 0 1 [1]] |}
           9 1 [7] [createNewNode 0 3 [3]; createNewNode 0 2 [2]]
           (createNewNode 0 1 [1]) []).
  - reflexivity.
  - reflexivity.
  - reflexivity.
  - repeat constructor; cbn; lia.
  - reflexivity.
Defined.

(** X8. With the limit below two entries nothing is ever evicted: a put
    of a frame number the cache does not hold adds a node at the head and
    keeps every node there was, however many there are. *)
Theorem small_limit_never_evicts (st : CacheState) (c : Cache) (block frm : Z)
    (buf : list Z) :
  block_cache_max_items st < 2 -> cache st = Some c ->
  len (head c) = currentSize c -> misses frm (head c) ->
  put_block_cache block frm buf st
  = Ok (0, {| block_cache_max_items := block_cache_max_items st;
              cache := Some {| currentSize := u32 (currentSize c + 1);
                               head := createNewNode block frm buf :: head c |} |}).
Proof.
  intros Hmax Hc Hlen Hm. rewrite (put_miss _ _ _ _ _ Hc Hlen Hm).
  replace ((2 <=? currentSize c) && (currentSize c =? block_cache_max_items st))
    with false; [reflexivity|].
  symmetry. apply andb_false_iff.
  destruct (Z.leb_spec 2 (currentSize c)); [right|left; reflexivity].
  apply Z.eqb_neq. lia.
Qed.

Lemma small_limit_never_evicts_witness :
  put_block_cache 0 4 [4]
    {| block_cache_max_items := 1;
       cache := Some {| currentSize := 3;
                        head := [createNewNode 0 3 [3]; createNewNode 0 2 [2];
                                 createNewNode 0 1 [1]] |} |}
  = Ok (0, {| block_cache_max_items := 1;
              cache := Some {| currentSize := u32 (3 + 1);
                               head := [createNewNode 0 4 [4];
                                        createNewNode 0 3 [3];
                                        createNewNode 0 2 [2];
                                        createNewNode 0 1 [1]] |} |}).
Proof.
  apply (small_limit_never_evicts
           {| block_cache_max_items := 1;
              cache := Some {| currentSize := 3;
                               head := [createNewNode 0 3 [3];
                                        createNewNode 0 2 [2];
                                        createNewNode 0 1 [1]] |} |}
           {| currentSize := 3;
              head := [createNewNode 0 3 [3]; createNewNode 0 2 [2];
                       createNewNode 0 1 [1]] |}
           0 4 [4]).
  - cbn. lia.
  - reflexivity.
  - reflexivity.
  - repeat constructor; cbn; lia.
Defined.

(** A call the driver makes: frame numbers of 16 bits and whole frames. *)
Definition driver_call (call : cache_call) : Prop :=
  match call with
  | Put _ frm buf => 0 <= frm < 2 ^ 16 /\ len buf = BLOCK_FRAME_SIZE
  | Get _ _ => True
  end.

Lemma cache_run_ok (calls : list cache_call) : forall st,
  Forall driver_call calls -> cache_ok st ->
  exists rs st', cache_run calls st = Ok (rs, st') /\ cache_ok st'.
Proof.
  induction calls as [|call calls IH]; intros st Hcalls Hok.
  - exists [], st. auto.
  - apply Forall_cons_iff in Hcalls as [Hcall Hcalls].
    destruct call as [block frm buf|block frm]; cbn [cache_run cache_step].
    + destruct Hcall as [Hfrm Hbuf].
      destruct (put_block_cache_ok block frm buf st Hok Hfrm Hbuf)
        as (st1 & -> & Hok1 & _).
      cbn [bind]. destruct (IH st1 Hcalls Hok1) as (rs & st2 & -> & Hok2).
      cbn [bind]. eauto.
    + rewrite (get_block_cache_cached _ _ _ Hok). cbn [bind].
      destruct (IH st Hcalls Hok) as (rs & st2 & -> & Hok2).
      cbn [bind]. eauto.
Qed.

(** X9. Whatever the limit, after [init_block_cache] any run of lookups
    and of puts of whole frames under 16-bit frame numbers succeeds, and
    at its end the counter is the number of nodes and no frame number is
    cached twice. *)
Theorem cache_run_keeps_frames_distinct (dflt max : Z)
    (calls : list cache_call) :
  Forall driver_call calls ->
  exists rs st c,
    cache_run calls (cache_started dflt max) = Ok (rs, st) /\
    cache st = Some c /\ len (head c) = currentSize c /\
    List.NoDup (map nFrm (head c)).
Proof.
  intros Hcalls.
  destruct (cache_run_ok calls (cache_started dflt max) Hcalls)
    as (rs & st & Hrun & c & Hc & Hlen & Hnd & _).
  - eexists. split; [reflexivity|]. cbn [head currentSize map].
    repeat split; constructor.
  - exists rs, st, c. auto.
Qed.

Lemma cache_run_keeps_frames_distinct_witness :
  exists rs st c,
    cache_run [Put 0 1 (repeat 1 (Z.to_nat 4096)); Get 0 1;
               Put 0 1 (repeat 2 (Z.to_nat 4096))] (cache_started 8 1)
    = Ok (rs, st) /\
    cache st = Some c /\ len (head c) = currentSize c /\
    List.NoDup (map nFrm (head c)).
Proof.
  apply (cache_run_keeps_frames_distinct 8 1).
  repeat constructor; cbn; lia.
Defined.

(** ** The protocol engine: retries and a faithful device *)

Section Retry.
Context {P : Platform}.

(** X10. Retry convergence: when round [k] is the first whose exchange is
    acknowledged, a call allowed more than [k] rounds returns, and it
    returns the buffer and the bus of that round, whatever the rounds
    before it returned. *)
Theorem executeOpcode_returns_first_ack (fuel k : nat) (b : Bus)
    (frame : list Z) (ky1 fm1 : Z) :
  (k < fuel)%nat ->
  round_rt k (b, frame, ky1, fm1) = 0 ->
  (forall j, (j < k)%nat -> round_rt j (b, frame, ky1, fm1) <> 0) ->
  executeOpcode fuel b frame ky1 fm1 = Ok (round_result k (b, frame, ky1, fm1)).
Proof.
  intros Hk Hack Hbefore.
  pose proof (executeOpcode_rounds fuel (b, frame, ky1, fm1)) as H.
  cbv beta iota in H.
  destruct (executeOpcode fuel b frame ky1 fm1) as [r| |].
  - destruct H as (k' & Hk' & Hack' & Hbefore' & ->).
    destruct (Nat.lt_trichotomy k k') as [Hlt|[->|Hgt]].
    + now apply Hbefore' in Hlt.
    + reflexivity.
    + now apply Hbefore in Hgt.
  - contradiction.
  - now apply H in Hk.
Qed.

(** X11. On a transport that stores and returns frames faithfully one
    round is enough: a frame-write returns with the buffer as it was and
    the frame stored under its index, every other frame of the device
    untouched; a frame-read returns with the stored frame in the buffer and
    changes no frame of the device. *)
Theorem executeOpcode_on_faithful_bus (stored : Bus -> Z -> list Z) (n : nat)
    (b : Bus) (frame : list Z) (fm : Z) :
  faithful_bus stored -> 0 <= fm < 2 ^ 16 ->
  (exists b',
     executeOpcode (S n) b frame BLOCK_OP_WRFRME fm = Ok (frame, b') /\
     stored b' fm = frame /\
     (forall g, g <> fm -> stored b' g = stored b g)) /\
  (exists b',
     executeOpcode (S n) b frame BLOCK_OP_RDFRME fm = Ok (stored b fm, b') /\
     (forall g, stored b' g = stored b g)).
Proof.
  intros Hbus Hfm. split.
  - now apply executeOpcode_write.
  - now apply executeOpcode_read.
Qed.

End Retry.

(** A transport that hands back a corrupted buffer for a number of
    exchanges before it hands back the frame [1; 2; 3]; the checksum field
    it returns is always that of the frame. *)
Definition flaky_io (left : nat) (reg : Z) (frame : list Z)
  : Z * list Z * nat :=
  let '(ky1, fm1, _, _) := unpack (u64 reg) in
  match left with
  | O => (pack ky1 fm1 (u32 (byte_sum [1; 2; 3])) 0, [1; 2; 3], O)
  | S left' => (pack ky1 fm1 (u32 (byte_sum [1; 2; 3])) 0, [9; 9; 9], left')
  end.

Definition flaky : Platform :=
  {| Bus := nat;
     block_io_bus := flaky_io;
     compute_frame_checksum := byte_sum;
     BLOCK_BLOCK_SIZE := 8;
     BLOCK_MAX_TOTAL_FILES := 4;
     BLOCK_OP_INITMS := 0;
     BLOCK_OP_BZERO := 1;
     BLOCK_OP_POWOFF := 4;
     BLOCK_OP_RDFRME := 2;
     BLOCK_OP_WRFRME := 3;
     DEFAULT_BLOCK_FRAME_CACHE_SIZE := 2 |}.

Lemma executeOpcode_returns_first_ack_witness :
  @executeOpcode flaky 5 2%nat [0; 0; 0] 2 7 = Ok ([1; 2; 3], 0%nat).
Proof.
  apply (@executeOpcode_returns_first_ack flaky 5 2 2%nat [0; 0; 0] 2 7).
  - lia.
  - vm_compute. reflexivity.
  - intros [|[|j]] Hj; [vm_compute; discriminate..|lia].
Defined.

Lemma u64_small (x : Z) : 0 <= x < 2 ^ 64 -> u64 x = x.
Proof. intros H. unfold u64. now apply Z.mod_small. Qed.

Lemma unpack_pack_small (ky fm cs rt : Z) :
  0 <= ky < 2 ^ 8 -> 0 <= fm < 2 ^ 16 -> 0 <= cs < 2 ^ 32 -> 0 <= rt < 2 ^ 8 ->
  unpack (u64 (pack ky fm cs rt)) = (ky, fm, cs, rt).
Proof.
  intros Hky Hfm Hcs Hrt. rewrite u64_small by apply pack_range.
  rewrite unpack_pack_general. unfold_words.
  rewrite (Z.mod_small ky), (Z.mod_small fm (2 ^ 32)), (Z.mod_small fm (2 ^ 16)),
          (Z.mod_small cs), (Z.mod_small rt (2 ^ 32)), (Z.mod_small rt (2 ^ 8))
    by lia.
  rewrite !Z.shiftr_div_pow2 by lia.
  rewrite (Z.div_small fm), (Z.div_small rt) by lia.
  rewrite Z.mod_0_l by lia. now rewrite !Z.lor_0_r.
Qed.

Lemma byte_sum_checksum_range (frame : list Z) : 0 <= u32 (byte_sum frame) < 2 ^ 32.
Proof. unfold u32. apply Z.mod_pos_bound. lia. Qed.

(** The simulated device is a faithful transport. *)
Lemma sim_faithful : @faithful_bus sim sim_stored.
Proof.
  split; intros b fm frame Hfm.
  - unfold request_register, acknowledged, frame_checksum.
    change (@BLOCK_OP_WRFRME sim) with 3. change (@BLOCK_OP_RDFRME sim) with 2.
    change (@compute_frame_checksum sim) with byte_sum.
    change (@block_io_bus sim) with sim_io.
    change (3 =? 3) with true. cbv iota. unfold sim_io.
    pose proof (byte_sum_checksum_range frame) as Hcs.
    rewrite (unpack_pack_small 3 fm _ 0) by lia.
    change (3 =? 3) with true. cbv iota. rewrite Z.eqb_refl.
    rewrite (unpack_pack_small 3 fm _ 0) by lia.
    change (3 =? 2) with false. cbv iota.
    repeat split.
    + unfold sim_stored. now rewrite lookup_insert_eq.
    + intros g Hg. unfold sim_stored. now rewrite lookup_insert_ne.
  - unfold request_register, acknowledged, frame_checksum.
    change (@BLOCK_OP_WRFRME sim) with 3. change (@BLOCK_OP_RDFRME sim) with 2.
    change (@compute_frame_checksum sim) with byte_sum.
    change (@block_io_bus sim) with sim_io.
    change (2 =? 3) with false. cbv iota. unfold sim_io.
    rewrite (unpack_pack_small 2 fm 0 0) by lia.
    change (2 =? 3) with false. change (2 =? 2) with true. cbv iota.
    pose proof (byte_sum_checksum_range (sim_stored b fm)) as Hcs.
    rewrite (unpack_pack_small 2 fm _ 0) by lia.
    change (2 =? 2) with true. cbv iota. rewrite Z.eqb_refl.
    repeat split.
Qed.

Lemma executeOpcode_on_faithful_bus_witness :
  (exists b',
     @executeOpcode sim 1 ∅ [1; 2; 3] 3 5 = Ok ([1; 2; 3], b') /\
     sim_stored b' 5 = [1; 2; 3] /\
     (forall g, g <> 5 -> sim_stored b' g = sim_stored ∅ g)) /\
  (exists b',
     @executeOpcode sim 1 ∅ [1; 2; 3] 2 5 = Ok (sim_stored ∅ 5, b') /\
     (forall g, sim_stored b' g = sim_stored ∅ g)).
Proof.
  apply (@executeOpcode_on_faithful_bus sim sim_stored 0 ∅ [1; 2; 3] 5).
  - exact sim_faithful.
  - lia.
Defined.

(** ** Seeking *)

Section Seeking.
Context {P : Platform}.

Lemma s32_small (x : Z) : 0 <= x < 2 ^ 31 -> s32 x = x.
Proof.
  intros H. unfold s32. rewrite Z.mod_small by lia.
  now rewrite (proj2 (Z.ltb_lt _ _)) by lia.
Qed.

(** X15. [block_seek] on an open handle of a file of size [size]: an
    offset up to [size] is accepted, the call returns 0 and the cursor is
    the offset, everything else as it was; a larger offset is refused with
    [-1] and nothing changes.  On a closed handle the call returns [-1] and
    nothing changes.  The power state is not looked at. *)
Theorem block_seek_spec (d : Driver) (fd loc0 : Z) (h : fh_t) (f : file_t) :
  array_get (handles d) fd = Ok h ->
  (status h <> CLOSED -> deref_file d (file h) = Ok f) ->
  0 <= size f < 2 ^ 31 -> 0 <= loc0 < 2 ^ 32 ->
  block_seek fd loc0 d =
    if status h =? CLOSED then Ok (-1, d)
    else if size f <? loc0 then Ok (-1, d)
    else Ok (0, set_handles d
                  (<[Z.to_nat fd := {| file := file h; loc := loc0;
                                       status := status h |}]> (handles d))).
Proof.
  intros Hh Hf Hsize Hloc. unfold block_seek. rewrite Hh. cbn [bind].
  destruct (Z.eqb_spec (status h) CLOSED) as [_|Hopen]; [reflexivity|].
  rewrite (Hf Hopen). cbn [bind].
  rewrite !u32_small by lia.
  destruct (Z.ltb_spec (size f) loc0); [reflexivity|].
  rewrite array_set_Ok by (eapply array_get_range; eauto). cbn [bind].
  now rewrite s32_small by lia.
Qed.

End Seeking.

Lemma block_seek_spec_witness :
  @block_seek sim 0 0 sim_opened_state
  = Ok (0, @set_handles sim sim_opened_state
             (<[0%nat := {| file := Some 0; loc := 0; status := OPEN |}]>
                (@handles sim sim_opened_state))).
Proof.
  apply (@block_seek_spec sim sim_opened_state 0 0
           {| file := Some 0; loc := 0; status := OPEN |}
           {| name := 97 :: repeat 0 127%nat; size := 0;
              frames := repeat 0 1024%nat; nrFrames := 0 |}).
  - vm_compute. reflexivity.
  - intros _. vm_compute. reflexivity.
  - cbn. lia.
  - lia.
Defined.

(** ** Reading at the end of a file, and with a negative count *)

Section ReadingEdges.
Context {P : Platform}.

Lemma handle_eta (h : fh_t) :
  {| file := file h; loc := loc h; status := status h |} = h.
Proof. now destruct h. Qed.

Lemma driver_eta (d : Driver) :
  set_handles (set_io d (cache_st d) (bus d)) (handles d) = d.
Proof. now destruct d. Qed.

(** X16. A read that has nothing to read, because the cursor is at the end
    of the file or because [count] is 0, returns 0 and no bytes; it makes
    no exchange on the bus and leaves the whole state, cache included, as
    it was. *)
Theorem block_read_nothing (fuel : nat) (d : Driver) (fd count : Z)
    (h : fh_t) (f : file_t) :
  isOn d <> 0 -> array_get (handles d) fd = Ok h -> status h <> CLOSED ->
  deref_file d (file h) = Ok f -> loc h <= size f -> 0 <= count ->
  count = 0 \/ loc h = size f ->
  block_read fuel fd count d = Ok (0, [], d).
Proof.
  intros Hon Hh Hopen Hf Hloc Hcount Hnothing. unfold block_read.
  rewrite (proj2 (Z.eqb_neq _ _) Hon), Hh. cbn [bind].
  rewrite (proj2 (Z.eqb_neq _ _) Hopen), Hf. cbn [bind].
  assert (Hclip : (if size f - loc h <? count then size f - loc h else count) = 0).
  { destruct (Z.ltb_spec (size f - loc h) count); lia. }
  rewrite Hclip. change (Z.to_nat (Z.abs 0)) with 0%nat.
  cbn [read_loop]. change (0 =? 0) with true. cbn [bind].
  rewrite array_set_Ok by (eapply array_get_range; eauto). cbn [bind].
  rewrite handle_eta.
  rewrite list_insert_id by (apply array_get_Ok in Hh as [_ Hh]; exact Hh).
  now rewrite driver_eta.
Qed.



End ReadingEdges.

Lemma block_read_nothing_witness :
  @block_read sim 1 0 100 sim_opened_state = Ok (0, [], sim_opened_state).
Proof.
  apply (@block_read_nothing sim 1%nat sim_opened_state 0 100
           {| file := Some 0; loc := 0; status := OPEN |}
           {| name := 97 :: repeat 0 127%nat; size := 0;
              frames := repeat 0 1024%nat; nrFrames := 0 |}).
  - vm_compute. discriminate.
  - vm_compute. reflexivity.
  - vm_compute. discriminate.
  - vm_compute. reflexivity.
  - cbn. lia.
  - lia.
  - right. reflexivity.
Defined.


(** ** Power *)

Section Power.
Context {P : Platform}.

Lemma lookup_repeat {A : Type} (x : A) : forall (n i : nat),
  (i < n)%nat -> repeat x n !! i = Some x.
Proof.
  induction n as [|n IH]; intros i Hi; [lia|].
  destruct i as [|i]; [reflexivity|]. cbn. apply IH. lia.
Qed.

Lemma array_get_repeat {A : Type} (x : A) (n : nat) (i : Z) :
  0 <= i < Z.of_nat n -> array_get (repeat x n) i = Ok x.
Proof.
  intros Hi. apply array_get_Ok. split; [lia|]. apply lookup_repeat. lia.
Qed.

Lemma getNbFiles_zeroed (n : nat) : getNbFiles (repeat zero_file n) = 0.
Proof. destruct n; reflexivity. Qed.

(** X18. Before the first [block_poweron] every call of the file
    interface fails with [-1] and changes nothing: [block_open],
    [block_close] and [block_read] because the device is off,
    [block_write] and [block_seek], which do not look at the power state,
    because every handle of the zeroed table is closed. *)
Theorem calls_before_poweron_fail (fuel : nat) (b : Bus) (fd count loc0 : Z)
    (path buf : list Z) :
  0 <= fd < BLOCK_MAX_TOTAL_FILES ->
  block_open path (boot_state b) = Ok (-1, boot_state b) /\
  block_close fd (boot_state b) = Ok (-1, boot_state b) /\
  block_read fuel fd count (boot_state b) = Ok (-1, [], boot_state b) /\
  block_write fuel fd buf count (boot_state b) = Ok (-1, boot_state b) /\
  block_seek fd loc0 (boot_state b) = Ok (-1, boot_state b).
Proof.
  intros Hfd. repeat split; try reflexivity.
  - unfold block_write. cbn [handles boot_state].
    rewrite array_get_repeat by lia. reflexivity.
  - unfold block_seek. cbn [handles boot_state].
    rewrite array_get_repeat by lia. reflexivity.
Qed.

(** The state a successful [block_poweron] leaves. *)
Definition powered_on (d : Driver) (b : Bus) : Driver :=
  {| isOn := 1; nbFiles := 0; nbHandles := 0;
     freeFrameNr := if BLOCK_MAX_TOTAL_FILES <? BLOCK_BLOCK_SIZE
                    then BLOCK_MAX_TOTAL_FILES else -1;
     files := repeat zero_file (Z.to_nat BLOCK_MAX_TOTAL_FILES);
     handles := repeat zero_handle (Z.to_nat BLOCK_MAX_TOTAL_FILES);
     cache_st := {| block_cache_max_items := block_cache_max_items (cache_st d);
                    cache := Some {| currentSize := 0; head := [] |} |};
     bus := b |}.

(** X19. [block_poweron] on a device that is off, once the device-init
    and the zero-all exchanges are acknowledged: it returns 0; no file and
    no handle is in use, both tables are zeroed, the cache is empty with
    the limit it had, and the free-frame counter starts at
    [BLOCK_MAX_TOTAL_FILES] (at [-1] when the device has no frame with that
    index) and not at frame 0.  A second [block_poweron] returns [-1] and
    changes nothing. *)
Theorem block_poweron_spec (fuel fuel' : nat) (d : Driver) (f1 f2 : list Z)
    (b1 b2 : Bus) :
  isOn d = 0 ->
  executeOpcode fuel (bus d) NULL_frame BLOCK_OP_INITMS 0 = Ok (f1, b1) ->
  executeOpcode fuel b1 NULL_frame BLOCK_OP_BZERO 0 = Ok (f2, b2) ->
  block_poweron fuel d = Ok (0, powered_on d b2) /\
  block_poweron fuel' (powered_on d b2) = Ok (-1, powered_on d b2).
Proof.
  intros Hoff H1 H2. split; [|reflexivity].
  unfold block_poweron. rewrite Hoff. change (negb (0 =? 0)) with false.
  cbv iota. rewrite H1. cbn [bind]. rewrite H2. cbn [bind].
  unfold init_block_cache, set_cache. cbv zeta iota beta.
  change (negb (0 =? 0)) with false. cbv iota.
  unfold powered_on, getFreeFrame. now rewrite getNbFiles_zeroed.
Qed.

(** The state a successful [block_poweroff] leaves. *)
Definition powered_off (d : Driver) (b : Bus) : Driver :=
  {| isOn := isOn d; nbFiles := 0; nbHandles := 0; freeFrameNr := 0;
     files := files d; handles := map closeFile (handles d);
     cache_st := {| block_cache_max_items := block_cache_max_items (cache_st d);
                    cache := None |};
     bus := b |}.

(** X20. [block_poweroff] on a device that is on, once the power-off
    exchange is acknowledged: it returns 0, every handle is closed, the
    counters are 0 and the cache is released.  The power flag stays set:
    a [block_poweron] after it returns [-1] and changes nothing, and a
    second [block_poweroff] never returns, since it releases a cache that
    is no longer there. *)
Theorem block_poweroff_spec (fuel fuel' : nat) (d : Driver) (c : Cache)
    (f1 : list Z) (b1 : Bus) :
  isOn d <> 0 -> cache (cache_st d) = Some c ->
  executeOpcode fuel (bus d) NULL_frame BLOCK_OP_POWOFF 0 = Ok (f1, b1) ->
  block_poweroff fuel d = Ok (0, powered_off d b1) /\
  Forall (fun h => status h = CLOSED /\ file h = None /\ loc h = -1)
         (handles (powered_off d b1)) /\
  block_poweron fuel' (powered_off d b1) = Ok (-1, powered_off d b1) /\
  match block_poweroff fuel' (powered_off d b1) with
  | Ok _ => False
  | _ => True
  end.
Proof.
  intros Hon Hc H1. repeat split.
  - unfold block_poweroff. rewrite (proj2 (Z.eqb_neq _ _) Hon), H1. cbn [bind].
    unfold close_block_cache. rewrite Hc. cbn [bind].
    change (negb (0 =? 0)) with false. reflexivity.
  - cbn [handles powered_off]. apply Forall_map. apply Forall_true.
    intros h. cbn. auto.
  - unfold block_poweron. cbn [isOn powered_off].
    now rewrite (proj2 (Z.eqb_neq _ _) Hon).
  - unfold block_poweroff. cbn [isOn powered_off bus cache_st].
    rewrite (proj2 (Z.eqb_neq _ _) Hon).
    destruct (executeOpcode fuel' b1 NULL_frame BLOCK_OP_POWOFF 0)
      as [[f b]| |]; cbn [bind]; exact I.
Qed.

End Power.

Lemma calls_before_poweron_fail_witness :
  @block_open sim [97] (@boot_state sim ∅) = Ok (-1, @boot_state sim ∅) /\
  @block_close sim 0 (@boot_state sim ∅) = Ok (-1, @boot_state sim ∅) /\
  @block_read sim 1 0 10 (@boot_state sim ∅) = Ok (-1, [], @boot_state sim ∅) /\
  @block_write sim 1 0 [1; 2] 2 (@boot_state sim ∅)
    = Ok (-1, @boot_state sim ∅) /\
  @block_seek sim 0 0 (@boot_state sim ∅) = Ok (-1, @boot_state sim ∅).
Proof.
  apply (@calls_before_poweron_fail sim 1%nat ∅ 0 10 0 [97] [1; 2]).
  cbn. lia.
Defined.

Lemma block_poweron_spec_witness :
  @block_poweron sim 1 (@boot_state sim ∅)
    = Ok (0, @powered_on sim (@boot_state sim ∅) ∅) /\
  @block_poweron sim 1 (@powered_on sim (@boot_state sim ∅) ∅)
    = Ok (-1, @powered_on sim (@boot_state sim ∅) ∅).
Proof.
  apply (@block_poweron_spec sim 1%nat 1%nat (@boot_state sim ∅) [] [] ∅ ∅).
  - reflexivity.
  - reflexivity.
  - reflexivity.
Defined.

Lemma block_poweroff_spec_witness :
  @block_poweroff sim 1 sim_opened_state
    = Ok (0, @powered_off sim sim_opened_state ∅) /\
  Forall (fun h => status h = CLOSED /\ file h = None /\ loc h = -1)
         (@handles sim (@powered_off sim sim_opened_state ∅)) /\
  @block_poweron sim 1 (@powered_off sim sim_opened_state ∅)
    = Ok (-1, @powered_off sim sim_opened_state ∅) /\
  match @block_poweroff sim 1 (@powered_off sim sim_opened_state ∅) with
  | Ok _ => False
  | _ => True
  end.
Proof.
  apply (@block_poweroff_spec sim 1%nat 1%nat sim_opened_state
           {| currentSize := 0; head := [] |} [] ∅).
  - vm_compute. discriminate.
  - vm_compute. reflexivity.
  - reflexivity.
Defined.

(** ** Allocation of frames, and the handle table when it is full *)

Section AllocationOrder.
Context {P : Platform}.

Lemma frames_needed_nonneg (loc0 count nr : Z) : 0 <= frames_needed loc0 count nr.
Proof. unfold frames_needed. lia. Qed.

Lemma frames_needed_enough (loc0 count nr : Z) :
  loc0 + count <= (nr + frames_needed loc0 count nr) * BLOCK_FRAME_SIZE.
Proof.
  unfold frames_needed, BLOCK_FRAME_SIZE.
  pose proof (Z.div_mod (loc0 + count + (4096 - 1)) 4096 ltac:(lia)).
  pose proof (Z.mod_pos_bound (loc0 + count + (4096 - 1)) 4096 ltac:(lia)).
  lia.
Qed.

Lemma allocateNewFrames_ok (h : fh_t) (count : Z) (d : Driver) (i : Z)
    (f : file_t) :
  file h = Some i -> array_get (files d) i = Ok f ->
  0 <= nrFrames f -> len (frames f) < 2 ^ 16 ->
  nrFrames f + frames_needed (loc h) count (nrFrames f) <= len (frames f) ->
  freeFrameNr d + frames_needed (loc h) count (nrFrames f) <= BLOCK_BLOCK_SIZE ->
  exists frs',
    allocateNewFrames h count d
    = Ok (0, set_freeFrameNr
               (set_files d
                  (<[Z.to_nat i :=
                       {| name := name f; size := size f; frames := frs';
                          nrFrames := nrFrames f
                                      + frames_needed (loc h) count (nrFrames f) |}]>
                     (files d)))
               (freeFrameNr d + frames_needed (loc h) count (nrFrames f))) /\
    len frs' = len (frames f) /\
    (forall k, 0 <= k < nrFrames f -> array_get frs' k = array_get (frames f) k) /\
    (forall k, nrFrames f <= k
               < nrFrames f + frames_needed (loc h) count (nrFrames f) ->
       array_get frs' k = Ok (u16 (freeFrameNr d + (k - nrFrames f)))).
Proof.
  intros Hfile Hf Hnr Hlen Hroom Hfree.
  set (m := frames_needed (loc h) count (nrFrames f)) in *.
  assert (Hm : 0 <= m) by apply frames_needed_nonneg.
  destruct (allocate_loop_succeeds (Z.to_nat m) (S (length (frames f)))
              (loc h) count (frames f) (nrFrames f) (freeFrameNr d))
    as (frs' & Hrun);
    try (rewrite ?Z2Nat.id by lia; unfold len in *; lia).
  rewrite Z2Nat.id in Hrun by lia. exists frs'.
  pose proof (allocate_loop_inv _ _ _ _ _ _ _ _ _ _ Hnr Hlen Hrun)
    as (Hl & _ & _ & _ & Hold & Hnew & _).
  repeat split; try assumption.
  unfold allocateNewFrames, deref_file. rewrite Hfile, Hf. cbn [bind].
  rewrite (u16_small (nrFrames f)) by lia. rewrite Hrun. cbn [bind].
  change (0 =? -1) with false. cbv iota. unfold store_file.
  rewrite array_set_Ok by (eapply array_get_range; eauto).
  reflexivity.
Qed.

(** X21. Allocation hands out the values of the free-frame counter in
    order.  When the frames a write needs fit the frame array and the
    device, [allocateNewFrames] returns 0: the frames the file had are
    untouched, the new ones are the counter values from the old counter
    on, one after the other, the frame count grows by their number and the
    counter moves on by as many, so that no index is handed out twice. *)
Theorem allocateNewFrames_in_counter_order (h : fh_t) (count : Z) (d : Driver)
    (i : Z) (f : file_t) :
  file h = Some i -> array_get (files d) i = Ok f ->
  0 <= nrFrames f -> len (frames f) < 2 ^ 16 ->
  nrFrames f + frames_needed (loc h) count (nrFrames f) <= len (frames f) ->
  freeFrameNr d + frames_needed (loc h) count (nrFrames f) <= BLOCK_BLOCK_SIZE ->
  exists frs',
    allocateNewFrames h count d
    = Ok (0, set_freeFrameNr
               (set_files d
                  (<[Z.to_nat i :=
                       {| name := name f; size := size f; frames := frs';
                          nrFrames := nrFrames f
                                      + frames_needed (loc h) count (nrFrames f) |}]>
                     (files d)))
               (freeFrameNr d + frames_needed (loc h) count (nrFrames f))) /\
    len frs' = len (frames f) /\
    (forall k, 0 <= k < nrFrames f -> array_get frs' k = array_get (frames f) k) /\
    (forall k, nrFrames f <= k
               < nrFrames f + frames_needed (loc h) count (nrFrames f) ->
       array_get frs' k = Ok (u16 (freeFrameNr d + (k - nrFrames f)))) /\
    loc h + count
      <= (nrFrames f + frames_needed (loc h) count (nrFrames f)) * BLOCK_FRAME_SIZE.
Proof.
  intros Hfile Hf Hnr Hlen Hroom Hfree.
  destruct (allocateNewFrames_ok h count d i f Hfile Hf Hnr Hlen Hroom Hfree)
    as (frs' & Hrun & Hl & Hold & Hnew).
  exists frs'. repeat split; try assumption. apply frames_needed_enough.
Qed.

Lemma array_get_no_Diverge {A : Type} (l : list A) (i : Z) :
  array_get l i <> Diverge.
Proof.
  unfold array_get. destruct (i <? 0); [discriminate|].
  destruct (l !! Z.to_nat i); discriminate.
Qed.

Lemma array_set_no_Diverge {A : Type} (l : list A) (i : Z) (x : A) :
  array_set l i x <> Diverge.
Proof. unfold array_set. destruct (_ && _); discriminate. Qed.

Lemma createNewFile_no_Diverge (path : list Z) (f : file_t) :
  createNewFile path f <> Diverge.
Proof.
  unfold createNewFile, memcpy. destruct (_ && _); cbn [bind]; discriminate.
Qed.

(** X22. Handles are never handed out twice: [block_close] leaves the
    number of handles used as it is, and once the handle table is full a
    [block_open] on a device that is on writes past the end of the table,
    whether the file exists or not. *)
Theorem handle_table_full (d : Driver) (path : list Z) :
  isOn d <> 0 ->
  0 <= nbFiles d <= len (files d) ->
  nbHandles d = len (handles d) ->
  Forall (fun f => len (name f) = 128) (files d) ->
  len path <= 128 ->
  block_open path d = Undefined /\
  (forall fd rc d', block_close fd d = Ok (rc, d') ->
     nbHandles d' = nbHandles d /\ len (handles d') = len (handles d)).
Proof.
  intros Hon Hfiles Hfull Hnames Hpath. split.
  - assert (Hfit : Forall (fun f => len path <= len (name f)) (files d)).
    { eapply Forall_impl; [exact Hnames|]. intros f Hf. simpl in *. lia. }
    assert (Hset : forall (hs : list fh_t) x,
              len hs = len (handles d) -> array_set hs (len (handles d)) x = Undefined).
    { intros hs x Hl. unfold array_set. rewrite Hl, Z.ltb_irrefl.
      now rewrite andb_false_r. }
    unfold block_open. rewrite (proj2 (Z.eqb_neq _ _) Hon).
    destruct (find_file_spec d path (Z.to_nat (nbFiles d)) 0)
      as (found & j & Hrun & Hj & Hbefore & Hfound); [lia|lia|assumption|].
    rewrite Hrun. cbn [bind]. destruct found.
    + cbn [bind]. rewrite Hfull, Hset by reflexivity. reflexivity.
    + destruct (array_get (files d) (nbFiles d)) as [slot| |] eqn:Hslot;
        cbn [bind]; [|reflexivity|now apply array_get_no_Diverge in Hslot].
      destruct (createNewFile path slot) as [f| |] eqn:Hnew; cbn [bind];
        [|reflexivity|now apply createNewFile_no_Diverge in Hnew].
      destruct (array_set (files d) (nbFiles d) f) as [fs| |] eqn:Hfs;
        cbn [bind]; [|reflexivity|now apply array_set_no_Diverge in Hfs].
      cbn [handles nbHandles]. rewrite Hfull, Hset by reflexivity. reflexivity.
  - intros fd rc d'. unfold block_close.
    destruct (isOn d =? 0); [now intros [= _ <-]|].
    intros (h & Hh & Hrest)%bind_Ok.
    destruct (status h =? CLOSED); [now injection Hrest as _ <-|].
    apply bind_Ok in Hrest as (hs & Hset & [= _ <-]).
    apply array_set_inv in Hset as [_ ->]. cbn [nbHandles handles set_handles].
    now rewrite len_insert.
Qed.

End AllocationOrder.

Lemma allocateNewFrames_in_counter_order_witness :
  exists frs',
    @allocateNewFrames sim {| file := Some 0; loc := 0; status := OPEN |} 5000
      sim_opened_state
    = Ok (0, @set_freeFrameNr sim
               (@set_files sim sim_opened_state
                  (<[0%nat := {| name := 97 :: repeat 0 127%nat; size := 0;
                                 frames := frs'; nrFrames := 2 |}]>
                     (@files sim sim_opened_state)))
               6) /\
    array_get frs' 0 = Ok 4 /\ array_get frs' 1 = Ok 5.
Proof.
  destruct (@allocateNewFrames_in_counter_order sim
              {| file := Some 0; loc := 0; status := OPEN |} 5000
              sim_opened_state 0
              {| name := 97 :: repeat 0 127%nat; size := 0;
                 frames := repeat 0 1024%nat; nrFrames := 0 |})
    as (frs' & Hrun & _ & _ & Hnew & _).
  - reflexivity.
  - vm_compute. reflexivity.
  - cbn. lia.
  - vm_compute. reflexivity.
  - vm_compute. discriminate.
  - vm_compute. discriminate.
  - exists frs'. split; [exact Hrun|].
    split; [apply (Hnew 0)|apply (Hnew 1)]; vm_compute; split; congruence.
Defined.

(** The simulated device after power-on and four [block_open] calls: its
    handle table of four entries is full. *)
Definition sim_full : res (Z * @Driver sim) :=
  do (_, d) <- sim_opened;
  do (_, d) <- @block_open sim [97] d;
  do (_, d) <- @block_open sim [98] d;
  @block_open sim [97] d.

Definition sim_full_state : @Driver sim :=
  match sim_full with
  | Ok (_, d) => d
  | _ => @boot_state sim ∅
  end.

Lemma handle_table_full_witness :
  @block_open sim [97] sim_full_state = Undefined /\
  (forall fd rc d', @block_close sim fd sim_full_state = Ok (rc, d') ->
     @nbHandles sim d' = @nbHandles sim sim_full_state /\
     len (@handles sim d') = len (@handles sim sim_full_state)).
Proof.
  apply (@handle_table_full sim sim_full_state [97]).
  - vm_compute. discriminate.
  - vm_compute. split; discriminate.
  - vm_compute. reflexivity.
  - vm_compute. repeat constructor.
  - vm_compute. discriminate.
Defined.

(** ** [memcpy] *)

Lemma memcpy_whole (dst src : list Z) (n : Z) :
  len dst = n -> len src = n -> memcpy dst 0 src 0 n = Ok src.
Proof.
  intros Hd Hs. unfold memcpy. pose proof (len_nonneg dst).
  replace ((0 <=? n) && (0 <=? 0) && (0 + n <=? len dst) && (0 <=? 0)
           && (0 + n <=? len src)) with true
    by (symmetry; rewrite !andb_true_iff; repeat split; apply Z.leb_le; lia).
  change (Z.to_nat 0) with 0%nat. rewrite take_0, drop_0, Z.add_0_l.
  unfold len in *. f_equal. cbn [app].
  rewrite firstn_all2 by lia. rewrite skipn_all2 by lia. apply app_nil_r.
Qed.

Lemma memcpy_splice (dst src : list Z) (doff soff n : Z) :
  0 <= n -> 0 <= doff -> doff + n <= len dst -> 0 <= soff ->
  soff + n <= len src ->
  exists r,
    memcpy dst doff src soff n = Ok r /\ len r = len dst /\
    (forall j, 0 <= j < n ->
       r !! Z.to_nat (doff + j) = src !! Z.to_nat (soff + j)) /\
    (forall j : nat, (Z.of_nat j < doff \/ doff + n <= Z.of_nat j) ->
       r !! j = dst !! j).
Proof.
  intros Hn Hd Hdn Hs Hsn. unfold memcpy.
  replace ((0 <=? n) && (0 <=? doff) && (doff + n <=? len dst) && (0 <=? soff)
           && (soff + n <=? len src)) with true
    by (symmetry; rewrite !andb_true_iff; repeat split; apply Z.leb_le; lia).
  eexists. split; [reflexivity|]. unfold len in *.
  assert (Hl1 : length (take (Z.to_nat doff) dst) = Z.to_nat doff)
    by (rewrite length_take; lia).
  assert (Hl2 : length (take (Z.to_nat n) (drop (Z.to_nat soff) src)) = Z.to_nat n)
    by (rewrite length_take, length_drop; lia).
  split; [|split].
  - rewrite !length_app, Hl1, Hl2, length_drop. lia.
  - intros j Hj. rewrite lookup_app_r by lia. rewrite Hl1.
    rewrite lookup_app_l by lia.
    rewrite lookup_take_lt by lia. rewrite lookup_drop. f_equal. lia.
  - intros j [Hj|Hj].
    + rewrite lookup_app_l by lia. apply lookup_take_lt. lia.
    + rewrite lookup_app_r by lia. rewrite Hl1.
      rewrite lookup_app_r by lia. rewrite Hl2.
      rewrite lookup_drop. f_equal. lia.
Qed.

Lemma memcpy_chunk (frame : list Z) (off n : Z) :
  0 <= n -> 0 <= off -> off + n <= len frame ->
  memcpy (repeat 0 (Z.to_nat n)) 0 frame off n
  = Ok (take (Z.to_nat n) (drop (Z.to_nat off) frame)).
Proof.
  intros Hn Hoff Hlen. unfold memcpy. unfold len in *.
  rewrite repeat_length.
  replace ((0 <=? n) && (0 <=? 0) && (0 + n <=? Z.of_nat (Z.to_nat n))
           && (0 <=? off) && (off + n <=? Z.of_nat (length frame))) with true
    by (symmetry; rewrite !andb_true_iff; repeat split; apply Z.leb_le; lia).
  change (Z.to_nat 0) with 0%nat. rewrite take_0, Z.add_0_l. cbn [app].
  rewrite (skipn_all2 (repeat 0 (Z.to_nat n)))
    by (rewrite ?repeat_length; lia).
  now rewrite app_nil_r.
Qed.

(** ** Writing and reading back *)

Section RoundTrip.
Context {P : Platform}.
Variable stored : Bus -> Z -> list Z.
Hypothesis Hbus : faithful_bus stored.

(** Byte [j] of frame [g] is [x] on the device, and in the cache if the
    cache holds the frame. *)
Definition byte_settled (cs : CacheState) (b : Bus) (g : Z) (j : nat) (x : Z)
  : Prop :=
  stored b g !! j = Some x /\ forall c, cached cs g = Some c -> c !! j = Some x.

(** The cache is as the driver builds it and the device holds whole
    frames. *)
Definition io_ok (cs : CacheState) (b : Bus) : Prop :=
  cache_ok cs /\ forall g, len (stored b g) = BLOCK_FRAME_SIZE.

Lemma fetch_frame_ok (n : nat) (frame : list Z) (g : Z) (cs : CacheState)
    (b : Bus) :
  io_ok cs b -> 0 <= g < 2 ^ 16 -> len frame = BLOCK_FRAME_SIZE ->
  exists fr cs' b',
    fetch_frame (S n) frame g cs b = Ok (fr, cs', b') /\
    io_ok cs' b' /\ len fr = BLOCK_FRAME_SIZE /\
    (forall j x, byte_settled cs b g j x -> fr !! j = Some x) /\
    (forall g' j x, byte_settled cs b g' j x -> byte_settled cs' b' g' j x).
Proof.
  intros [Hcache Hdev] Hg Hframe. unfold fetch_frame.
  rewrite (get_block_cache_cached _ _ _ Hcache). cbn [bind].
  destruct (cached cs g) as [c|] eqn:Ec.
  - pose proof (cached_frame_len _ _ _ Hcache Ec) as Hc.
    rewrite (memcpy_whole frame c BLOCK_FRAME_SIZE Hframe Hc). cbn [bind].
    exists c, cs, b.
    split; [reflexivity|]. split; [now split|]. split; [assumption|].
    split; [|auto]. intros j x [_ Hx]. now apply Hx.
  - destruct (executeOpcode_read stored n b frame g Hbus Hg) as (b' & -> & Hsame).
    cbn [bind].
    destruct (put_block_cache_ok 0 g (stored b g) cs Hcache Hg (Hdev g))
      as (cs' & -> & Hcache' & Hhit & Hother).
    cbn [bind]. exists (stored b g), cs', b'.
    split; [reflexivity|]. split; [|split; [apply Hdev|split]].
    + split; [assumption|]. intros g'. rewrite Hsame. apply Hdev.
    + intros j x [Hx _]. exact Hx.
    + intros g' j x [Hx Hcx]. split; [now rewrite Hsame|].
      intros c Hc. destruct (Z.eq_dec g' g) as [->|Hne].
      * rewrite Hhit in Hc. injection Hc as <-. exact Hx.
      * destruct (Hother g' Hne) as [E|E]; rewrite E in Hc;
          [now apply Hcx|discriminate].
Qed.

Lemma store_frame_ok (n : nat) (fr : list Z) (g : Z) (cs : CacheState)
    (b : Bus) :
  io_ok cs b -> 0 <= g < 2 ^ 16 -> len fr = BLOCK_FRAME_SIZE ->
  exists b' cs',
    executeOpcode (S n) b fr BLOCK_OP_WRFRME g = Ok (fr, b') /\
    put_block_cache 0 g fr cs = Ok (0, cs') /\
    io_ok cs' b' /\
    (forall j x, fr !! j = Some x -> byte_settled cs' b' g j x) /\
    (forall g' j x, g' <> g -> byte_settled cs b g' j x ->
                    byte_settled cs' b' g' j x).
Proof.
  intros [Hcache Hdev] Hg Hfr.
  destruct (executeOpcode_write stored n b fr g Hbus Hg)
    as (b' & Hrun & Hst & Hsame).
  destruct (put_block_cache_ok 0 g fr cs Hcache Hg Hfr)
    as (cs' & Hput & Hcache' & Hhit & Hother).
  exists b', cs'.
  split; [assumption|]. split; [assumption|]. split; [|split].
  - split; [assumption|]. intros g'. destruct (Z.eq_dec g' g) as [->|Hne].
    + now rewrite Hst.
    + rewrite Hsame by assumption. apply Hdev.
  - intros j x Hx. split; [now rewrite Hst|].
    intros c Hc. rewrite Hhit in Hc. now injection Hc as <-.
  - intros g' j x Hne [Hx Hcx]. split; [now rewrite Hsame by assumption|].
    intros c Hc. destruct (Hother g' Hne) as [E|E]; rewrite E in Hc;
      [now apply Hcx|discriminate].
Qed.


(** The first [nr] entries of a frame array are 16-bit frame numbers, no
    two of them equal. *)
Definition frames_distinct (frs : list Z) (nr : Z) : Prop :=
  0 <= nr <= len frs /\
  (forall p g, 0 <= p < nr -> array_get frs p = Ok g -> 0 <= g < 2 ^ 16) /\
  (forall p q g, 0 <= p < nr -> 0 <= q < nr ->
     array_get frs p = Ok g -> array_get frs q = Ok g -> p = q).

Lemma same_frame (loc0 k : Z) :
  0 <= loc0 -> 0 <= k -> loc0 mod 4096 + k < 4096 ->
  (loc0 + k) / 4096 = loc0 / 4096 /\ (loc0 + k) mod 4096 = loc0 mod 4096 + k.
Proof. intros. Z.div_mod_to_equations. lia. Qed.

Lemma later_frame (loc0 k : Z) :
  0 <= loc0 -> 4096 <= loc0 mod 4096 + k ->
  loc0 / 4096 < (loc0 + k) / 4096.
Proof. intros. Z.div_mod_to_equations. lia. Qed.

Lemma frame_below (loc0 nr : Z) :
  0 <= loc0 -> loc0 < nr * 4096 -> 0 <= loc0 / 4096 < nr.
Proof. intros. Z.div_mod_to_equations. lia. Qed.

Lemma write_loop_ok (fuel : nat) (f : file_t) (buf : list Z) (nr : Z) :
  frames_distinct (frames f) nr ->
  forall (n : nat) frame loc0 bufOffset remaining cs b,
    io_ok cs b -> len frame = BLOCK_FRAME_SIZE ->
    0 <= loc0 -> 0 <= remaining ->
    loc0 + remaining <= nr * BLOCK_FRAME_SIZE ->
    0 <= bufOffset -> bufOffset + remaining <= len buf ->
    remaining <= Z.of_nat n ->
    exists cs' b',
      write_loop n (S fuel) f frame buf loc0 bufOffset remaining cs b
      = Ok (loc0 + remaining, cs', b') /\
      io_ok cs' b' /\
      (forall k, 0 <= k < remaining ->
         exists g x,
           array_get (frames f) ((loc0 + k) / BLOCK_FRAME_SIZE) = Ok g /\
           buf !! Z.to_nat (bufOffset + k) = Some x /\
           byte_settled cs' b' g
             (Z.to_nat ((loc0 + k) mod BLOCK_FRAME_SIZE)) x) /\
      (forall g j x,
         (forall k, 0 <= k < remaining ->
            array_get (frames f) ((loc0 + k) / BLOCK_FRAME_SIZE) = Ok g ->
            Z.to_nat ((loc0 + k) mod BLOCK_FRAME_SIZE) <> j) ->
         byte_settled cs b g j x -> byte_settled cs' b' g j x).
Proof.
  intros (Hnr & Hrange & Hdist). unfold BLOCK_FRAME_SIZE in *.
  induction n as [|n IH];
    intros frame loc0 bufOffset remaining cs b Hio Hframe Hloc Hrem Hfit Hbo
           Hbuf Hn.
  - assert (remaining = 0) as -> by lia. cbn [write_loop].
    exists cs, b. rewrite Z.add_0_r.
    split; [reflexivity|]. split; [assumption|]. split; [|auto].
    intros k Hk. lia.
  - cbn [write_loop]. destruct (Z.gtb_spec remaining 0) as [Hpos|Hzero].
    2:{ assert (remaining = 0) as -> by lia.
        exists cs, b. rewrite Z.add_0_r.
        split; [reflexivity|]. split; [assumption|]. split; [|auto].
        intros k Hk. lia. }
    unfold BLOCK_FRAME_SIZE.
    rewrite Z.quot_div_nonneg, Z.rem_mod_nonneg by lia.
    pose proof (frame_below loc0 nr Hloc ltac:(lia)) as Hp.
    destruct (array_get_in_range (frames f) (loc0 / 4096)) as [g Hg]; [lia|].
    rewrite Hg. cbn [bind].
    pose proof (Hrange _ _ Hp Hg) as Hgr.
    destruct (fetch_frame_ok fuel frame g cs b Hio Hgr Hframe)
      as (fr0 & cs1 & b1 & -> & Hio1 & Hfr0 & Hread1 & Hkeep1).
    cbn [bind].
    pose proof (Z.mod_pos_bound loc0 4096 ltac:(lia)) as Hoff.
    set (off := loc0 mod 4096) in *.
    set (ds := if 4096 - off >? remaining then remaining else 4096 - off).
    assert (Hds : 0 < ds <= remaining /\ off + ds <= 4096 /\
                  (ds = remaining \/ ds = 4096 - off)).
    { unfold ds. destruct (Z.gtb_spec (4096 - off) remaining); lia. }
    destruct Hds as (Hds & Hdsoff & Hdscase).
    destruct (memcpy_splice fr0 buf off bufOffset ds)
      as (fr1 & -> & Hfr1 & Hnew & Hold); try (unfold BLOCK_FRAME_SIZE in *; lia).
    cbn [bind].
    assert (Hfr1' : len fr1 = BLOCK_FRAME_SIZE) by congruence.
    destruct (store_frame_ok fuel fr1 g cs1 b1 Hio1 Hgr Hfr1')
      as (b2 & cs2 & Hex & Hput & Hio2 & Hset & Hkeep2).
    rewrite Hex. cbn [bind]. rewrite Hput. cbn [bind].
    destruct (IH fr1 (loc0 + ds) (bufOffset + ds) (remaining - ds) cs2 b2)
      as (cs3 & b3 & -> & Hio3 & Hdone & Hkeep3); try lia; try assumption.
    replace (loc0 + ds + (remaining - ds)) with (loc0 + remaining) by lia.
    exists cs3, b3. split; [reflexivity|]. split; [assumption|]. split.
    + intros k Hk. destruct (Z.lt_ge_cases k ds) as [Hlt|Hge].
      * destruct (same_frame loc0 k) as [Ediv Emod]; [lia|lia|fold off; lia|].
        rewrite Ediv, Emod. fold off.
        destruct (lookup_lt_is_Some_2 buf (Z.to_nat (bufOffset + k))) as [x Hx];
          [unfold len in *; lia|].
        exists g, x. split; [assumption|]. split; [assumption|].
        apply Hkeep3.
        -- intros k' Hk' Hsame _.
           assert (Hlater : loc0 / 4096 < (loc0 + ds + k') / 4096).
           { rewrite <- Z.add_assoc. apply later_frame; [lia|]. fold off. lia. }
           pose proof (frame_below (loc0 + ds + k') nr ltac:(lia) ltac:(lia)) as Hq.
           pose proof (Hdist _ _ _ Hq Hp Hsame Hg). lia.
        -- apply Hset. rewrite <- Hx.
           replace (Z.to_nat (off + k)) with (Z.to_nat (off + k)) by reflexivity.
           apply Hnew. lia.
      * destruct (Hdone (k - ds)) as (g' & x & Hg' & Hx & Hsettled); [lia|].
        replace (loc0 + ds + (k - ds)) with (loc0 + k) in * by lia.
        replace (bufOffset + ds + (k - ds)) with (bufOffset + k) in * by lia.
        exists g', x. auto.
    + intros g0 j x Hfresh Hsettled.
      apply Hkeep3.
      * intros k' Hk'.
        replace (loc0 + ds + k') with (loc0 + (ds + k')) by lia.
        apply Hfresh. lia.
      * destruct (Z.eq_dec g0 g) as [->|Hne].
        -- apply Hset.
           assert (Hout : Z.of_nat j < off \/ off + ds <= Z.of_nat j).
           { destruct (Z.lt_ge_cases (Z.of_nat j) off) as [Hlo|Hhi]; [now left|].
             destruct (Z.lt_ge_cases (Z.of_nat j) (off + ds)) as [Hin|Hup];
               [|now right].
             exfalso.
             destruct (same_frame loc0 (Z.of_nat j - off)) as [Ediv Emod];
               [lia|lia|fold off; lia|].
             apply (Hfresh (Z.of_nat j - off)); [lia|now rewrite Ediv|].
             rewrite Emod. fold off. lia. }
           rewrite (Hold j Hout). now apply Hread1.
        -- apply Hkeep2; [assumption|]. now apply Hkeep1.
Qed.


Lemma read_loop_ok (fuel : nat) (f : file_t) :
  forall (n : nat) frame loc0 remaining out cs b data,
    io_ok cs b -> len frame = BLOCK_FRAME_SIZE ->
    0 <= loc0 -> len data = remaining -> remaining <= Z.of_nat n ->
    (forall k, 0 <= k < remaining ->
       exists g x,
         array_get (frames f) ((loc0 + k) / BLOCK_FRAME_SIZE) = Ok g /\
         0 <= g < 2 ^ 16 /\
         data !! Z.to_nat k = Some x /\
         byte_settled cs b g (Z.to_nat ((loc0 + k) mod BLOCK_FRAME_SIZE)) x) ->
    exists cs' b',
      read_loop n (S fuel) f frame loc0 remaining out cs b
      = Ok (loc0 + remaining, out ++ data, cs', b') /\
      io_ok cs' b' /\
      (forall g j x, byte_settled cs b g j x -> byte_settled cs' b' g j x).
Proof.
  unfold BLOCK_FRAME_SIZE in *.
  assert (Hnone : forall loc0 (out : list Z) cs b data,
            io_ok cs b -> len data = 0 ->
            exists cs' b', Ok (loc0, out, cs, b)
                           = Ok (loc0 + 0, out ++ data, cs', b') /\ io_ok cs' b' /\
              (forall g j x, byte_settled cs b g j x -> byte_settled cs' b' g j x)).
  { intros loc0 out cs b data Hio Hdata. apply len_nil_iff in Hdata as ->.
    exists cs, b. rewrite Z.add_0_r, app_nil_r. auto. }
  induction n as [|n IH];
    intros frame loc0 remaining out cs b data Hio Hframe Hloc Hdata Hn Hbytes.
  - pose proof (len_nonneg data). assert (remaining = 0) as -> by lia.
    cbn [read_loop]. now apply Hnone.
  - cbn [read_loop]. destruct (Z.eqb_spec remaining 0) as [->|Hpos].
    { now apply Hnone. }
    pose proof (len_nonneg data) as Hd0.
    unfold BLOCK_FRAME_SIZE.
    rewrite Z.quot_div_nonneg, Z.rem_mod_nonneg by lia.
    destruct (Hbytes 0) as (g & x0 & Hg & Hgr & _); [lia|].
    rewrite Z.add_0_r in Hg. rewrite Hg. cbn [bind].
    destruct (fetch_frame_ok fuel frame g cs b Hio Hgr Hframe)
      as (fr & cs1 & b1 & -> & Hio1 & Hfr & Hread & Hkeep).
    cbn [bind].
    pose proof (Z.mod_pos_bound loc0 4096 ltac:(lia)) as Hoff.
    set (off := loc0 mod 4096) in *.
    set (ds := if 4096 - off >? remaining then remaining else 4096 - off).
    assert (Hds : 0 < ds <= remaining /\ off + ds <= 4096).
    { unfold ds. destruct (Z.gtb_spec (4096 - off) remaining); lia. }
    destruct Hds as (Hds & Hdsoff).
    rewrite memcpy_chunk by (unfold BLOCK_FRAME_SIZE in *; lia). cbn [bind].
    assert (Hchunk : take (Z.to_nat ds) (drop (Z.to_nat off) fr)
                     = take (Z.to_nat ds) data).
    { apply list_eq. intros i.
      destruct (Nat.lt_ge_cases i (Z.to_nat ds)) as [Hi|Hi].
      - rewrite !lookup_take_lt by assumption. rewrite lookup_drop.
        destruct (Hbytes (Z.of_nat i)) as (g' & x & Hg' & _ & Hx & Hsettled);
          [lia|].
        destruct (same_frame loc0 (Z.of_nat i)) as [Ediv Emod];
          [lia|lia|fold off; lia|].
        rewrite Ediv in Hg'. rewrite Hg in Hg'. injection Hg' as <-.
        rewrite Emod in Hsettled. fold off in Hsettled.
        rewrite Nat2Z.id in Hx. rewrite Hx.
        replace (Z.to_nat off + i)%nat with (Z.to_nat (off + Z.of_nat i)) by lia.
        now apply Hread.
      - now rewrite !lookup_take_ge by assumption. }
    rewrite Hchunk.
    destruct (IH fr (loc0 + ds) (remaining - ds) (out ++ take (Z.to_nat ds) data)
                 cs1 b1 (drop (Z.to_nat ds) data))
      as (cs2 & b2 & -> & Hio2 & Hkeep2); try lia; try assumption.
    + unfold len in *. rewrite length_drop. lia.
    + intros k Hk.
      destruct (Hbytes (ds + k)) as (g' & x & Hg' & Hgr' & Hx & Hsettled); [lia|].
      exists g', x.
      replace (loc0 + ds + k) with (loc0 + (ds + k)) by lia.
      split; [assumption|]. split; [assumption|]. split.
      * rewrite lookup_drop. rewrite <- Hx. f_equal. lia.
      * now apply Hkeep.
    + exists cs2, b2. split; [|split; [assumption|]].
      * replace (loc0 + ds + (remaining - ds)) with (loc0 + remaining) by lia.
        now rewrite <- app_assoc, take_drop.
      * intros g0 j x Hs. now apply Hkeep2, Hkeep.
Qed.


(** The frames of a file, as allocation leaves them: distinct 16-bit
    numbers below the free-frame counter, in an array of less than 2^16
    entries. *)
Definition file_frames_ok (free : Z) (f : file_t) : Prop :=
  frames_distinct (frames f) (nrFrames f) /\ len (frames f) < 2 ^ 16 /\
  (forall p g, 0 <= p < nrFrames f -> array_get (frames f) p = Ok g -> g < free).

Lemma allocation_keeps_distinct (frs frs' : list Z) (nr m free : Z) :
  frames_distinct frs nr ->
  (forall p g, 0 <= p < nr -> array_get frs p = Ok g -> g < free) ->
  0 <= free -> free + m <= 2 ^ 16 -> 0 <= m ->
  len frs' = len frs -> nr + m <= len frs ->
  (forall k, 0 <= k < nr -> array_get frs' k = array_get frs k) ->
  (forall k, nr <= k < nr + m -> array_get frs' k = Ok (u16 (free + (k - nr)))) ->
  frames_distinct frs' (nr + m).
Proof.
  intros (Hnr & Hrange & Hdist) Hbelow Hfree Hcap Hm Hlen Hroom Hold Hnew.
  assert (Hval : forall p g, 0 <= p < nr + m -> array_get frs' p = Ok g ->
            (p < nr /\ array_get frs p = Ok g /\ 0 <= g < free) \/
            (nr <= p /\ g = free + (p - nr))).
  { intros p g Hp Hg. destruct (Z.lt_ge_cases p nr) as [Hlt|Hge].
    - left. rewrite Hold in Hg by lia. split; [assumption|]. split; [assumption|].
      split; [apply (Hrange p); [lia|assumption]|apply (Hbelow p); [lia|assumption]].
    - right. rewrite Hnew in Hg by lia. injection Hg as <-.
      rewrite u16_small by lia. auto. }
  split; [lia|]. split.
  - intros p g Hp Hg.
    destruct (Hval p g Hp Hg) as [(_ & _ & Hr)|(Hge & ->)]; lia.
  - intros p q g Hp Hq Hgp Hgq.
    destruct (Hval p g Hp Hgp) as [(Hlt & Hgp' & Hr)|(Hge & Hv)];
      destruct (Hval q g Hq Hgq) as [(Hlt' & Hgq' & Hr')|(Hge' & Hv')];
      try lia.
    apply (Hdist p q g); auto; lia.
Qed.

(** The state a successful [block_write] leaves. *)
Definition written (d : Driver) (fd i : Z) (h : fh_t) (f : file_t) (count : Z)
    (frs' : list Z) (cs' : CacheState) (b' : Bus) : Driver :=
  {| isOn := isOn d; nbFiles := nbFiles d; nbHandles := nbHandles d;
     freeFrameNr := freeFrameNr d + frames_needed (loc h) count (nrFrames f);
     files := <[Z.to_nat i :=
                  {| name := name f; size := size f + count; frames := frs';
                     nrFrames := nrFrames f
                                 + frames_needed (loc h) count (nrFrames f) |}]>
                (files d);
     handles := <[Z.to_nat fd := {| file := file h; loc := loc h + count;
                                    status := status h |}]> (handles d);
     cache_st := cs'; bus := b' |}.

Lemma block_write_ok (fuel : nat) (d : Driver) (fd i : Z) (h : fh_t)
    (f : file_t) (buf : list Z) :
  array_get (handles d) fd = Ok h -> status h <> CLOSED ->
  file h = Some i -> array_get (files d) i = Ok f ->
  0 <= loc h -> file_frames_ok (freeFrameNr d) f -> 0 <= freeFrameNr d ->
  BLOCK_BLOCK_SIZE <= 2 ^ 16 ->
  nrFrames f + frames_needed (loc h) (len buf) (nrFrames f) <= len (frames f) ->
  freeFrameNr d + frames_needed (loc h) (len buf) (nrFrames f)
    <= BLOCK_BLOCK_SIZE ->
  io_ok (cache_st d) (bus d) ->
  exists frs' cs' b',
    block_write (S fuel) fd buf (len buf) d
    = Ok (len buf, written d fd i h f (len buf) frs' cs' b') /\
    io_ok cs' b' /\
    len frs' = len (frames f) /\
    (forall k, 0 <= k < nrFrames f -> array_get frs' k = array_get (frames f) k) /\
    frames_distinct frs'
      (nrFrames f + frames_needed (loc h) (len buf) (nrFrames f)) /\
    loc h + len buf
      <= (nrFrames f + frames_needed (loc h) (len buf) (nrFrames f))
         * BLOCK_FRAME_SIZE /\
    (forall k, 0 <= k < len buf ->
       exists g x,
         array_get frs' ((loc h + k) / BLOCK_FRAME_SIZE) = Ok g /\
         buf !! Z.to_nat k = Some x /\
         byte_settled cs' b' g (Z.to_nat ((loc h + k) mod BLOCK_FRAME_SIZE)) x) /\
    (forall g j x,
       (forall k, 0 <= k < len buf ->
          array_get frs' ((loc h + k) / BLOCK_FRAME_SIZE) = Ok g ->
          Z.to_nat ((loc h + k) mod BLOCK_FRAME_SIZE) <> j) ->
       byte_settled (cache_st d) (bus d) g j x -> byte_settled cs' b' g j x) /\
    (forall k, nrFrames f <= k
               < nrFrames f + frames_needed (loc h) (len buf) (nrFrames f) ->
       array_get frs' k = Ok (freeFrameNr d + (k - nrFrames f))).
Proof.
  intros Hh Hopen Hfile Hf Hloc (Hdist & Hlen & Hbelow) Hfree Hcap Hroom1 Hroom2
         Hio.
  set (count := len buf) in *.
  set (m := frames_needed (loc h) count (nrFrames f)) in *.
  assert (Hm : 0 <= m) by apply frames_needed_nonneg.
  pose proof Hdist as (Hnr & _).
  pose proof (len_nonneg buf) as Hcount. fold count in Hcount.
  destruct (allocateNewFrames_ok h count d i f Hfile Hf ltac:(lia) Hlen
              Hroom1 Hroom2) as (frs' & Halloc & Hl & Hold & Hnew).
  fold m in Halloc, Hnew.
  pose proof (frames_needed_enough (loc h) count (nrFrames f)) as Henough.
  fold m in Henough.
  assert (Hdist' : frames_distinct frs' (nrFrames f + m)).
  { eapply allocation_keeps_distinct; eauto; lia. }
  pose proof (array_get_range _ _ _ Hf) as Hi.
  pose proof (array_get_range _ _ _ Hh) as Hfd.
  set (f1 := {| name := name f; size := size f; frames := frs';
                nrFrames := nrFrames f + m |}).
  destruct (write_loop_ok fuel f1 buf (nrFrames f + m) Hdist'
              (Z.to_nat count) frame_uninit (loc h) 0 count (cache_st d) (bus d))
    as (cs' & b' & Hloop & Hio' & Hdone & Hkeep); try lia; try assumption.
  { unfold frame_uninit, len, BLOCK_FRAME_SIZE. rewrite repeat_length. lia. }
  exists frs', cs', b'.
  split; [|split; [assumption|split; [assumption|split; [assumption|
           split; [assumption|split; [assumption|split; [|split;
             [exact Hkeep|]]]]]]]].
  3:{ intros k Hk. rewrite Hnew by assumption. now rewrite u16_small by lia. }
  - unfold block_write. rewrite Hh. cbn [bind].
    rewrite (proj2 (Z.eqb_neq _ _) Hopen). rewrite Halloc. cbn [bind].
    change (0 =? -1) with false. cbv iota.
    unfold deref_file at 1. rewrite Hfile.
    cbn [files set_freeFrameNr set_files].
    rewrite array_get_insert_eq by assumption. cbn [bind].
    cbn [cache_st bus set_freeFrameNr set_files].
    fold f1. rewrite Hloop. cbn [bind].
    cbn [handles set_io set_freeFrameNr set_files].
    rewrite array_set_Ok by assumption. cbn [bind].
    unfold deref_file.
    cbn [files set_io set_freeFrameNr set_files].
    rewrite array_get_insert_eq by assumption. cbn [bind].
    unfold store_file.
    cbn [files set_handles set_io set_freeFrameNr set_files].
    rewrite array_set_Ok by (rewrite len_insert; assumption). cbn [bind].
    rewrite list_insert_insert_eq. unfold written. rewrite ?Hfile.
    reflexivity.
  - intros k Hk. destruct (Hdone k Hk) as (g & x & Hg & Hx & Hs).
    exists g, x. rewrite Z.add_0_l in Hx. auto.
Qed.


(** X23. Round trip.  On a transport that stores and returns frames
    faithfully, with the cache and the frame table as the driver builds
    them, an open handle whose cursor is within its file, and frames
    enough left in the file's frame array and on the device:
    [block_write] of the bytes [buf] returns their number, [block_seek]
    back to the cursor the write started from returns 0, and [block_read]
    of as many bytes returns that number and exactly the bytes written,
    whether frames were evicted from the cache in between or not. *)
Theorem write_seek_read_roundtrip (fuel : nat) (d : Driver) (fd i : Z)
    (h : fh_t) (f : file_t) (buf : list Z) :
  isOn d <> 0 ->
  array_get (handles d) fd = Ok h -> status h <> CLOSED ->
  file h = Some i -> array_get (files d) i = Ok f ->
  0 <= loc h <= size f -> size f + len buf < 2 ^ 31 ->
  file_frames_ok (freeFrameNr d) f -> 0 <= freeFrameNr d ->
  BLOCK_BLOCK_SIZE <= 2 ^ 16 ->
  nrFrames f + frames_needed (loc h) (len buf) (nrFrames f) <= len (frames f) ->
  freeFrameNr d + frames_needed (loc h) (len buf) (nrFrames f)
    <= BLOCK_BLOCK_SIZE ->
  io_ok (cache_st d) (bus d) ->
  exists d1 d2 d3,
    block_write (S fuel) fd buf (len buf) d = Ok (len buf, d1) /\
    block_seek fd (loc h) d1 = Ok (0, d2) /\
    block_read (S fuel) fd (len buf) d2 = Ok (len buf, buf, d3).
Proof.
  intros Hon Hh Hopen Hfile Hf Hloc Hsize Hfok Hfree Hcap Hroom1 Hroom2 Hio.
  destruct (block_write_ok fuel d fd i h f buf Hh Hopen Hfile Hf ltac:(lia)
              Hfok Hfree Hcap Hroom1 Hroom2 Hio)
    as (frs' & cs' & b' & Hw & Hio' & Hl & Hold & Hdist' & Henough & Hbytes
        & _).
  pose proof (array_get_range _ _ _ Hf) as Hi.
  pose proof (array_get_range _ _ _ Hh) as Hfd.
  pose proof (len_nonneg buf) as Hcount.
  set (count := len buf) in *.
  set (m := frames_needed (loc h) count (nrFrames f)) in *.
  set (d1 := written d fd i h f count frs' cs' b') in *.
  set (f1 := {| name := name f; size := size f + count; frames := frs';
                nrFrames := nrFrames f + m |}).
  set (h1 := {| file := file h; loc := loc h + count; status := status h |}).
  set (h2 := {| file := file h; loc := loc h; status := status h |}).
  assert (Hh1 : array_get (handles d1) fd = Ok h1)
    by (apply array_get_insert_eq; assumption).
  assert (Hf1 : array_get (files d1) i = Ok f1)
    by (apply array_get_insert_eq; assumption).
  set (d2 := set_handles d1 (<[Z.to_nat fd := h2]> (handles d1))).
  assert (Hseek : block_seek fd (loc h) d1 = Ok (0, d2)).
  { unfold block_seek. rewrite Hh1. cbn [bind status h1].
    rewrite (proj2 (Z.eqb_neq _ _) Hopen).
    unfold deref_file. cbn [file h1]. rewrite Hfile, Hf1. cbn [bind size f1].
    rewrite !u32_small by lia.
    rewrite (proj2 (Z.ltb_ge _ _)) by lia.
    rewrite array_set_Ok by (unfold d1, written; cbn [handles];
                             rewrite len_insert; assumption).
    cbn [bind]. rewrite s32_small by lia. unfold d2, h2. rewrite Hfile.
    reflexivity. }
  assert (Hh2 : array_get (handles d2) fd = Ok h2).
  { unfold d2. cbn [handles set_handles]. apply array_get_insert_eq.
    unfold d1, written. cbn [handles]. now rewrite len_insert. }
  assert (Hf2 : array_get (files d2) i = Ok f1) by exact Hf1.
  destruct (read_loop_ok fuel f1 (Z.to_nat (Z.abs count)) frame_uninit (loc h)
              count [] cs' b' buf)
    as (cs'' & b'' & Hloop & Hio''); try lia; try assumption; try reflexivity.
  { intros k Hk. destruct (Hbytes k Hk) as (g & x & Hg & Hx & Hs).
    exists g, x. split; [exact Hg|]. split; [|auto].
    destruct Hdist' as (_ & Hrange & _).
    assert (Hp : 0 <= (loc h + k) / BLOCK_FRAME_SIZE < nrFrames f + m)
      by (apply frame_below; unfold BLOCK_FRAME_SIZE in *; lia).
    exact (Hrange _ _ Hp Hg). }
  exists d1, d2. eexists. split; [exact Hw|]. split; [exact Hseek|].
  unfold block_read.
  replace (isOn d2) with (isOn d) by reflexivity.
  rewrite (proj2 (Z.eqb_neq _ _) Hon), Hh2. cbn [bind status h2].
  rewrite (proj2 (Z.eqb_neq _ _) Hopen).
  unfold deref_file. cbn [file h2]. rewrite Hfile, Hf2.
  cbn [bind size f1 loc h2].
  rewrite (proj2 (Z.ltb_ge (size f + count - loc h) count)) by lia.
  replace (cache_st d2) with cs' by reflexivity.
  replace (bus d2) with b' by reflexivity.
  rewrite Hloop. cbn [bind app].
  rewrite array_set_Ok
    by (unfold d2, d1, written; cbn [handles set_handles];
        rewrite !len_insert; assumption).
  cbn [bind]. reflexivity.
Qed.

(** X24. A write that finds its frames: [block_write] returns [count]; in
    the state it leaves the cursor of the handle has moved on by [count],
    the size of the file has grown by [count] wherever the cursor was,
    the frame count and the free-frame counter have grown by the frames
    that were missing, the frames the file had are the same, and the other
    handles and files, the file and handle counts and the power flag are
    untouched. *)
Theorem block_write_succeeds (fuel : nat) (d : Driver) (fd i : Z) (h : fh_t)
    (f : file_t) (buf : list Z) :
  array_get (handles d) fd = Ok h -> status h <> CLOSED ->
  file h = Some i -> array_get (files d) i = Ok f ->
  0 <= loc h -> file_frames_ok (freeFrameNr d) f -> 0 <= freeFrameNr d ->
  BLOCK_BLOCK_SIZE <= 2 ^ 16 ->
  nrFrames f + frames_needed (loc h) (len buf) (nrFrames f) <= len (frames f) ->
  freeFrameNr d + frames_needed (loc h) (len buf) (nrFrames f)
    <= BLOCK_BLOCK_SIZE ->
  io_ok (cache_st d) (bus d) ->
  exists frs' cs' b',
    block_write (S fuel) fd buf (len buf) d
    = Ok (len buf,
          {| isOn := isOn d; nbFiles := nbFiles d; nbHandles := nbHandles d;
             freeFrameNr := freeFrameNr d
                            + frames_needed (loc h) (len buf) (nrFrames f);
             files := <[Z.to_nat i :=
                          {| name := name f; size := size f + len buf;
                             frames := frs';
                             nrFrames := nrFrames f
                                         + frames_needed (loc h) (len buf)
                                                         (nrFrames f) |}]>
                        (files d);
             handles := <[Z.to_nat fd := {| file := file h;
                                            loc := loc h + len buf;
                                            status := status h |}]> (handles d);
             cache_st := cs'; bus := b' |}) /\
    io_ok cs' b' /\
    len frs' = len (frames f) /\
    (forall k, 0 <= k < nrFrames f -> array_get frs' k = array_get (frames f) k).
Proof.
  intros Hh Hopen Hfile Hf Hloc Hfok Hfree Hcap Hroom1 Hroom2 Hio.
  destruct (block_write_ok fuel d fd i h f buf Hh Hopen Hfile Hf Hloc
              Hfok Hfree Hcap Hroom1 Hroom2 Hio)
    as (frs' & cs' & b' & Hw & Hio' & Hl & Hold & _).
  exists frs', cs', b'. auto.
Qed.

End RoundTrip.

(** 5000 bytes, to be written across two frames. *)
Definition sim_buf : list Z :=
  map (fun n => Z.of_nat n mod 251) (seq 0 (Z.to_nat 5000)).

Lemma sim_opened_io_ok :
  @io_ok sim sim_stored (@cache_st sim sim_opened_state)
         (@bus sim sim_opened_state).
Proof.
  split.
  - exists {| currentSize := 0; head := [] |}.
    split; [vm_compute; reflexivity|]. split; [reflexivity|].
    split; constructor.
  - intros g. reflexivity.
Qed.

Lemma sim_opened_frames_ok :
  file_frames_ok (@freeFrameNr sim sim_opened_state)
    {| name := 97 :: repeat 0 127%nat; size := 0;
       frames := repeat 0 1024%nat; nrFrames := 0 |}.
Proof.
  split; [|split].
  - split; [vm_compute; split; discriminate|].
    split; cbn [nrFrames]; intros; lia.
  - vm_compute. reflexivity.
  - cbn [nrFrames]. intros; lia.
Qed.

Lemma write_seek_read_roundtrip_witness :
  exists d1 d2 d3,
    @block_write sim 1 0 sim_buf (len sim_buf) sim_opened_state
      = Ok (len sim_buf, d1) /\
    @block_seek sim 0 0 d1 = Ok (0, d2) /\
    @block_read sim 1 0 (len sim_buf) d2 = Ok (len sim_buf, sim_buf, d3).
Proof.
  apply (@write_seek_read_roundtrip sim sim_stored sim_faithful 0%nat
           sim_opened_state 0 0
           {| file := Some 0; loc := 0; status := OPEN |}
           {| name := 97 :: repeat 0 127%nat; size := 0;
              frames := repeat 0 1024%nat; nrFrames := 0 |} sim_buf).
  - vm_compute. discriminate.
  - vm_compute. reflexivity.
  - vm_compute. discriminate.
  - reflexivity.
  - vm_compute. reflexivity.
  - vm_compute. split; discriminate.
  - vm_compute. reflexivity.
  - exact sim_opened_frames_ok.
  - vm_compute. discriminate.
  - vm_compute. discriminate.
  - vm_compute. discriminate.
  - vm_compute. discriminate.
  - exact sim_opened_io_ok.
Defined.

Lemma block_write_succeeds_witness :
  exists frs' cs' b',
    @block_write sim 1 0 sim_buf (len sim_buf) sim_opened_state
    = Ok (len sim_buf,
          {| isOn := @isOn sim sim_opened_state;
             nbFiles := @nbFiles sim sim_opened_state;
             nbHandles := @nbHandles sim sim_opened_state;
             freeFrameNr := @freeFrameNr sim sim_opened_state
                            + frames_needed 0 (len sim_buf) 0;
             files := <[0%nat :=
                          {| name := 97 :: repeat 0 127%nat;
                             size := 0 + len sim_buf;
                             frames := frs';
                             nrFrames := 0 + frames_needed 0 (len sim_buf) 0 |}]>
                        (@files sim sim_opened_state);
             handles := <[0%nat := {| file := Some 0;
                                      loc := 0 + len sim_buf;
                                      status := OPEN |}]>
                          (@handles sim sim_opened_state);
             cache_st := cs'; bus := b' |}) /\
    @io_ok sim sim_stored cs' b' /\
    len frs' = 1024.
Proof.
  destruct (@block_write_succeeds sim sim_stored sim_faithful 0%nat
              sim_opened_state 0 0
              {| file := Some 0; loc := 0; status := OPEN |}
              {| name := 97 :: repeat 0 127%nat; size := 0;
                 frames := repeat 0 1024%nat; nrFrames := 0 |} sim_buf)
    as (frs' & cs' & b' & Hw & Hio & Hl & _).
  - vm_compute. reflexivity.
  - vm_compute. discriminate.
  - reflexivity.
  - vm_compute. reflexivity.
  - cbn. lia.
  - exact sim_opened_frames_ok.
  - vm_compute. discriminate.
  - vm_compute. discriminate.
  - vm_compute. discriminate.
  - vm_compute. discriminate.
  - exact sim_opened_io_ok.
  - exists frs', cs', b'. split; [exact Hw|]. split; [exact Hio|exact Hl].
Defined.

(** ** What a file holds, and what a write and a read do to it *)

Section Contents.
Context {P : Platform}.
Variable stored : Bus -> Z -> list Z.
Hypothesis Hbus : faithful_bus stored.

(** Byte [k] of file [f] is [x]: the frame array of the file has a 16-bit
    frame number for offset [k], and byte [k mod 4096] of that frame is
    [x] on the device and in the cache. *)
Definition file_byte (cs : CacheState) (b : Bus) (f : file_t) (k x : Z) : Prop :=
  exists g,
    array_get (frames f) (k / BLOCK_FRAME_SIZE) = Ok g /\ 0 <= g < 2 ^ 16 /\
    byte_settled stored cs b g (Z.to_nat (k mod BLOCK_FRAME_SIZE)) x.

(** The state a [block_read] of [n] bytes leaves. *)
Definition was_read (d : Driver) (fd : Z) (h : fh_t) (n : Z)
    (cs' : CacheState) (b' : Bus) : Driver :=
  set_handles (set_io d cs' b')
    (<[Z.to_nat fd := {| file := file h; loc := loc h + n;
                         status := status h |}]> (handles d)).

Lemma block_read_ok (fuel : nat) (d : Driver) (fd i count : Z) (h : fh_t)
    (f : file_t) (data : list Z) :
  isOn d <> 0 ->
  array_get (handles d) fd = Ok h -> status h <> CLOSED ->
  file h = Some i -> array_get (files d) i = Ok f ->
  0 <= loc h ->
  len data = Z.min count (size f - loc h) ->
  (forall (k : nat) x, data !! k = Some x ->
     file_byte (cache_st d) (bus d) f (loc h + Z.of_nat k) x) ->
  io_ok stored (cache_st d) (bus d) ->
  exists cs' b',
    block_read (S fuel) fd count d
    = Ok (len data, data, was_read d fd h (len data) cs' b') /\
    io_ok stored cs' b' /\
    (forall g j x, byte_settled stored (cache_st d) (bus d) g j x ->
                   byte_settled stored cs' b' g j x).
Proof.
  intros Hon Hh Hopen Hfile Hf Hloc Hlen Hdata Hio.
  pose proof (len_nonneg data) as Hd0.
  pose proof (array_get_range _ _ _ Hh) as Hfd.
  set (m := len data) in *.
  destruct (read_loop_ok stored Hbus fuel f (Z.to_nat (Z.abs m)) frame_uninit
              (loc h) m [] (cache_st d) (bus d) data)
    as (cs' & b' & Hloop & Hio' & Hkeep); try lia; try assumption;
    try reflexivity.
  { intros k Hk.
    destruct (lookup_lt_is_Some_2 data (Z.to_nat k)) as [x Hx];
      [unfold m, len in Hk; lia|].
    destruct (Hdata _ _ Hx) as (g & Hg & Hgr & Hs).
    rewrite Z2Nat.id in Hg, Hs by lia.
    exists g, x. auto. }
  exists cs', b'. split; [|split; assumption].
  unfold block_read.
  rewrite (proj2 (Z.eqb_neq _ _) Hon), Hh. cbn [bind].
  rewrite (proj2 (Z.eqb_neq _ _) Hopen).
  unfold deref_file. rewrite Hfile, Hf. cbn [bind].
  assert (Hclip : (if size f - loc h <? count then size f - loc h else count) = m).
  { rewrite Hlen. destruct (Z.ltb_spec (size f - loc h) count); lia. }
  rewrite Hclip, Hloop. cbn [bind app].
  rewrite array_set_Ok by assumption. cbn [bind].
  unfold was_read. rewrite Hfile. reflexivity.
Qed.

(** X26. [block_read] returns what the file holds from the cursor on, and
    stops at the end of the file: with [count] not negative and the cursor
    within the file, it returns [min count (size - cursor)], delivers that
    many bytes, each the byte the file holds at its offset, and moves the
    cursor of the handle on by as many; files, other handles and counters
    are as before, and no byte any frame held is changed, whether the
    frames came from the cache or from the device. *)
Theorem block_read_returns_file_bytes (fuel : nat) (d : Driver)
    (fd i count : Z) (h : fh_t) (f : file_t) (data : list Z) :
  isOn d <> 0 ->
  array_get (handles d) fd = Ok h -> status h <> CLOSED ->
  file h = Some i -> array_get (files d) i = Ok f ->
  0 <= loc h ->
  len data = Z.min count (size f - loc h) ->
  (forall (k : nat) x, data !! k = Some x ->
     file_byte (cache_st d) (bus d) f (loc h + Z.of_nat k) x) ->
  io_ok stored (cache_st d) (bus d) ->
  exists cs' b',
    block_read (S fuel) fd count d
    = Ok (Z.min count (size f - loc h), data,
          {| isOn := isOn d; nbFiles := nbFiles d; nbHandles := nbHandles d;
             freeFrameNr := freeFrameNr d; files := files d;
             handles := <[Z.to_nat fd :=
                            {| file := file h;
                               loc := loc h + Z.min count (size f - loc h);
                               status := status h |}]> (handles d);
             cache_st := cs'; bus := b' |}) /\
    io_ok stored cs' b' /\
    (forall f' k x, file_byte (cache_st d) (bus d) f' k x ->
                    file_byte cs' b' f' k x).
Proof.
  intros Hon Hh Hopen Hfile Hf Hloc Hlen Hdata Hio.
  destruct (block_read_ok fuel d fd i count h f data Hon Hh Hopen Hfile Hf Hloc
              Hlen Hdata Hio) as (cs' & b' & Hr & Hio' & Hkeep).
  exists cs', b'. split; [|split; [assumption|]].
  - rewrite Hr, Hlen. reflexivity.
  - intros f' k x (g & Hg & Hgr & Hs). exists g. auto.
Qed.

(** Of two offsets that fall into one frame at the same place, one is the
    other. *)
Lemma same_place (a c : Z) :
  a / 4096 = c / 4096 -> a mod 4096 = c mod 4096 -> a = c.
Proof. intros. Z.div_mod_to_equations. lia. Qed.

Lemma mod_to_nat_inj (a c : Z) :
  Z.to_nat (a mod 4096) = Z.to_nat (c mod 4096) -> a mod 4096 = c mod 4096.
Proof.
  intros H. pose proof (Z.mod_pos_bound a 4096 ltac:(lia)).
  pose proof (Z.mod_pos_bound c 4096 ltac:(lia)). lia.
Qed.

(** X25. A write changes only the bytes it addresses.  After a
    [block_write] that finds its frames, the file holds the bytes of [buf]
    from the cursor on; every other byte the file held in the frames it
    had is the byte it was; and so is every byte of any file whose frames
    lie below the free-frame counter and are none of the frames of the
    file written.  Every other record of the file table is as it was. *)
Theorem block_write_changes_only_its_bytes (fuel : nat) (d : Driver)
    (fd i : Z) (h : fh_t) (f : file_t) (buf : list Z) :
  array_get (handles d) fd = Ok h -> status h <> CLOSED ->
  file h = Some i -> array_get (files d) i = Ok f ->
  0 <= loc h -> file_frames_ok (freeFrameNr d) f -> 0 <= freeFrameNr d ->
  BLOCK_BLOCK_SIZE <= 2 ^ 16 ->
  nrFrames f + frames_needed (loc h) (len buf) (nrFrames f) <= len (frames f) ->
  freeFrameNr d + frames_needed (loc h) (len buf) (nrFrames f)
    <= BLOCK_BLOCK_SIZE ->
  io_ok stored (cache_st d) (bus d) ->
  exists d' f',
    block_write (S fuel) fd buf (len buf) d = Ok (len buf, d') /\
    array_get (files d') i = Ok f' /\
    (forall j, 0 <= j -> j <> i ->
       array_get (files d') j = array_get (files d) j) /\
    (forall (k : nat) x, buf !! k = Some x ->
       file_byte (cache_st d') (bus d') f' (loc h + Z.of_nat k) x) /\
    (forall k x, 0 <= k < nrFrames f * BLOCK_FRAME_SIZE ->
       k < loc h \/ loc h + len buf <= k ->
       file_byte (cache_st d) (bus d) f k x ->
       file_byte (cache_st d') (bus d') f' k x) /\
    (forall f2 k x, 0 <= k < nrFrames f2 * BLOCK_FRAME_SIZE ->
       (forall q g, 0 <= q < nrFrames f2 -> array_get (frames f2) q = Ok g ->
          g < freeFrameNr d /\
          forall p, 0 <= p < nrFrames f -> array_get (frames f) p <> Ok g) ->
       file_byte (cache_st d) (bus d) f2 k x ->
       file_byte (cache_st d') (bus d') f2 k x).
Proof.
  intros Hh Hopen Hfile Hf Hloc Hfok Hfree Hcap Hroom1 Hroom2 Hio.
  destruct (block_write_ok stored Hbus fuel d fd i h f buf Hh Hopen Hfile Hf
              Hloc Hfok Hfree Hcap Hroom1 Hroom2 Hio)
    as (frs' & cs' & b' & Hw & Hio' & Hl & Hold & Hdist' & Henough & Hbytes
        & Hkeep & Hnew).
  pose proof (array_get_range _ _ _ Hf) as Hi.
  pose proof (len_nonneg buf) as Hcount.
  destruct Hfok as ((Hnr & _) & _).
  set (count := len buf) in *.
  set (m := frames_needed (loc h) count (nrFrames f)) in *.
  assert (Hm : 0 <= m) by apply frames_needed_nonneg.
  destruct Hdist' as (_ & Hrange' & Hdist').
  unfold BLOCK_FRAME_SIZE in *.
  assert (Hidx : forall k, 0 <= k < count -> 0 <= (loc h + k) / 4096 < nrFrames f + m)
    by (intros k Hk; apply frame_below; lia).
  eexists. eexists. split; [exact Hw|].
  unfold written. cbn [files cache_st bus].
  split; [apply array_get_insert_eq; assumption|].
  split; [intros j Hj Hne; apply array_get_insert_ne; lia|].
  split; [|split].
  - intros k x Hx. cbn [frames].
    assert (Hk : 0 <= Z.of_nat k < count)
      by (apply lookup_lt_Some in Hx; unfold count, len; lia).
    destruct (Hbytes _ Hk) as (g & x' & Hg & Hx' & Hs).
    rewrite Nat2Z.id, Hx in Hx'. injection Hx' as <-.
    exists g. split; [assumption|]. split; [|assumption].
    exact (Hrange' _ _ (Hidx _ Hk) Hg).
  - intros k x Hk Hout (g & Hg & Hgr & Hs). cbn [frames].
    assert (Hp : 0 <= k / 4096 < nrFrames f) by (apply frame_below; lia).
    exists g. split; [now rewrite Hold|]. split; [assumption|].
    apply Hkeep; [|assumption].
    intros k' Hk' Hg' Hsame. apply mod_to_nat_inj in Hsame.
    assert (Hq : (loc h + k') / 4096 = k / 4096).
    { apply (Hdist' _ _ g); [apply Hidx; assumption|lia|assumption|].
      now rewrite Hold. }
    pose proof (same_place _ _ Hq Hsame). lia.
  - intros f2 k x Hk Hsep (g & Hg & Hgr & Hs).
    exists g. split; [assumption|]. split; [assumption|].
    assert (Hp : 0 <= k / 4096 < nrFrames f2) by (apply frame_below; lia).
    destruct (Hsep _ _ Hp Hg) as [Hlow Hnot].
    apply Hkeep; [|assumption].
    intros k' Hk' Hg' _.
    destruct (Z.lt_ge_cases ((loc h + k') / 4096) (nrFrames f)) as [Hlt|Hge].
    + rewrite Hold in Hg' by (pose proof (Hidx _ Hk'); lia).
      apply (Hnot ((loc h + k') / 4096)); [pose proof (Hidx _ Hk'); lia|assumption].
    + rewrite Hnew in Hg' by (pose proof (Hidx _ Hk'); lia).
      injection Hg' as Hg'. lia.
Qed.

(** X27. Two handles on one file share what it holds.  With two open
    handles on the same file and their cursors at the same offset, the
    bytes written through the one are the bytes a read of as many bytes
    through the other returns.  The write leaves the other handle as it
    was; in the end both cursors stand behind the bytes written. *)
Theorem write_seen_through_other_handle (fuel : nat) (d : Driver)
    (fd fd2 i : Z) (h h2 : fh_t) (f : file_t) (buf : list Z) :
  isOn d <> 0 -> fd <> fd2 ->
  array_get (handles d) fd = Ok h -> status h <> CLOSED -> file h = Some i ->
  array_get (handles d) fd2 = Ok h2 -> status h2 <> CLOSED ->
  file h2 = Some i -> loc h2 = loc h ->
  array_get (files d) i = Ok f -> 0 <= loc h <= size f ->
  file_frames_ok (freeFrameNr d) f -> 0 <= freeFrameNr d ->
  BLOCK_BLOCK_SIZE <= 2 ^ 16 ->
  nrFrames f + frames_needed (loc h) (len buf) (nrFrames f) <= len (frames f) ->
  freeFrameNr d + frames_needed (loc h) (len buf) (nrFrames f)
    <= BLOCK_BLOCK_SIZE ->
  io_ok stored (cache_st d) (bus d) ->
  exists d1 d2,
    block_write (S fuel) fd buf (len buf) d = Ok (len buf, d1) /\
    block_read (S fuel) fd2 (len buf) d1 = Ok (len buf, buf, d2) /\
    array_get (handles d1) fd2 = Ok h2 /\
    (exists h1, array_get (handles d2) fd = Ok h1 /\
                loc h1 = loc h + len buf) /\
    (exists h3, array_get (handles d2) fd2 = Ok h3 /\
                loc h3 = loc h + len buf).
Proof.
  intros Hon Hne Hh Hopen Hfile Hh2 Hopen2 Hfile2 Hloc2 Hf Hloc Hfok Hfree Hcap
         Hroom1 Hroom2 Hio.
  destruct (block_write_ok stored Hbus fuel d fd i h f buf Hh Hopen Hfile Hf
              ltac:(lia) Hfok Hfree Hcap Hroom1 Hroom2 Hio)
    as (frs' & cs' & b' & Hw & Hio' & Hl & Hold & Hdist' & Henough & Hbytes
        & _).
  pose proof (array_get_range _ _ _ Hf) as Hi.
  pose proof (array_get_range _ _ _ Hh) as Hfd.
  pose proof (array_get_range _ _ _ Hh2) as Hfd2.
  pose proof (len_nonneg buf) as Hcount.
  set (count := len buf) in *.
  set (m := frames_needed (loc h) count (nrFrames f)) in *.
  set (d1 := written d fd i h f count frs' cs' b') in *.
  set (f1 := {| name := name f; size := size f + count; frames := frs';
                nrFrames := nrFrames f + m |}).
  assert (Hh2' : array_get (handles d1) fd2 = Ok h2).
  { unfold d1, written. cbn [handles].
    rewrite array_get_insert_ne by lia. assumption. }
  assert (Hf1 : array_get (files d1) i = Ok f1)
    by (apply array_get_insert_eq; assumption).
  destruct Hdist' as (_ & Hrange' & _).
  destruct (block_read_ok fuel d1 fd2 i count h2 f1 buf)
    as (cs'' & b'' & Hr & _); try assumption.
  - lia.
  - cbn [size f1]. fold count. lia.
  - intros k x Hx.
    assert (Hk : 0 <= Z.of_nat k < count)
      by (apply lookup_lt_Some in Hx; unfold count, len; lia).
    destruct (Hbytes _ Hk) as (g & x' & Hg & Hx' & Hs).
    rewrite Nat2Z.id, Hx in Hx'. injection Hx' as <-.
    rewrite Hloc2. exists g. split; [exact Hg|]. split; [|exact Hs].
    apply (Hrange' ((loc h + Z.of_nat k) / BLOCK_FRAME_SIZE)); [|exact Hg].
    apply frame_below; unfold BLOCK_FRAME_SIZE in *; lia.
  - fold count in Hr. exists d1. eexists.
    split; [exact Hw|]. split; [exact Hr|]. split; [exact Hh2'|].
    unfold was_read. cbn [handles set_handles]. split.
    + eexists. split.
      * rewrite array_get_insert_ne by lia.
        unfold d1, written. cbn [handles].
        apply array_get_insert_eq. assumption.
      * reflexivity.
    + eexists. split.
      * apply array_get_insert_eq. unfold d1, written. cbn [handles].
        now rewrite len_insert.
      * cbn [loc]. lia.
Qed.

End Contents.

(** ** Closed handles, and writes of nothing *)

Section ClosedHandles.
Context {P : Platform}.

(** Every call on a closed handle returns [-1] and changes nothing,
    whatever the power state. *)
Lemma closed_handle_calls (fuel : nat) (d : Driver) (fd count loc0 : Z)
    (h : fh_t) (buf : list Z) :
  array_get (handles d) fd = Ok h -> status h = CLOSED ->
  block_read fuel fd count d = Ok (-1, [], d) /\
  block_write fuel fd buf count d = Ok (-1, d) /\
  block_seek fd loc0 d = Ok (-1, d) /\
  block_close fd d = Ok (-1, d).
Proof.
  intros Hh Hs.
  unfold block_read, block_write, block_seek, block_close.
  rewrite Hh. cbn [bind]. rewrite Hs. change (CLOSED =? CLOSED) with true.
  cbv iota. repeat split; destruct (isOn d =? 0); reflexivity.
Qed.

(** X28. Use after close.  Once [block_close] has closed an open handle,
    [block_read], [block_write], [block_seek] and [block_close] on that
    handle all return [-1] and change nothing: the handle is not handed
    out again and stays closed. *)
Theorem use_after_close_fails (fuel : nat) (d : Driver) (fd count loc0 : Z)
    (h : fh_t) (buf : list Z) :
  isOn d <> 0 -> array_get (handles d) fd = Ok h -> status h <> CLOSED ->
  exists d',
    block_close fd d = Ok (0, d') /\
    block_read fuel fd count d' = Ok (-1, [], d') /\
    block_write fuel fd buf count d' = Ok (-1, d') /\
    block_seek fd loc0 d' = Ok (-1, d') /\
    block_close fd d' = Ok (-1, d').
Proof.
  intros Hon Hh Hopen.
  pose proof (array_get_range _ _ _ Hh) as Hfd.
  exists (set_handles d (<[Z.to_nat fd := closeFile h]> (handles d))).
  split.
  - unfold block_close. rewrite (proj2 (Z.eqb_neq _ _) Hon), Hh. cbn [bind].
    rewrite (proj2 (Z.eqb_neq _ _) Hopen).
    now rewrite array_set_Ok by assumption.
  - apply (closed_handle_calls fuel _ fd count loc0 (closeFile h) buf);
      [|reflexivity].
    cbn [handles set_handles]. now apply array_get_insert_eq.
Qed.

Lemma file_eta (f : file_t) :
  {| name := name f; size := size f; frames := frames f;
     nrFrames := nrFrames f |} = f.
Proof. now destruct f. Qed.

(** X29. A write of nothing or of less than nothing.  [block_write] does
    not refuse a [count] that is zero or negative: when the frames of the
    file reach [cursor + count] it allocates nothing, moves no data, makes
    no exchange on the bus and leaves the cursor where it was; it returns
    [count] and adds it to the size of the file, which a negative [count]
    makes smaller. *)
Theorem block_write_nonpositive_count (fuel : nat) (d : Driver)
    (fd i count : Z) (h : fh_t) (f : file_t) (buf : list Z) :
  array_get (handles d) fd = Ok h -> status h <> CLOSED ->
  file h = Some i -> array_get (files d) i = Ok f ->
  0 <= nrFrames f < 2 ^ 16 ->
  count <= 0 -> loc h + count <= nrFrames f * BLOCK_FRAME_SIZE ->
  block_write fuel fd buf count d
  = Ok (count,
        set_files d
          (<[Z.to_nat i := {| name := name f; size := size f + count;
                              frames := frames f; nrFrames := nrFrames f |}]>
             (files d))).
Proof.
  intros Hh Hopen Hfile Hf Hnr Hcount Hfit.
  pose proof (array_get_range _ _ _ Hf) as Hi.
  pose proof (array_get_range _ _ _ Hh) as Hfd.
  unfold block_write. rewrite Hh. cbn [bind].
  rewrite (proj2 (Z.eqb_neq _ _) Hopen).
  unfold allocateNewFrames, deref_file. rewrite Hfile, Hf. cbn [bind].
  cbn [allocate_loop]. rewrite u16_small by assumption.
  destruct (Z.gtb_spec (loc h + count) (nrFrames f * BLOCK_FRAME_SIZE)); [lia|].
  cbn [bind]. change (0 =? -1) with false. cbv iota.
  unfold store_file. rewrite array_set_Ok by assumption. cbn [bind].
  change (0 =? -1) with false. cbv iota.
  cbn [files set_freeFrameNr set_files].
  rewrite array_get_insert_eq by assumption. cbn [bind].
  replace (Z.to_nat count) with 0%nat by lia. cbn [write_loop].
  destruct (Z.gtb_spec count 0); [lia|]. cbn [bind].
  cbn [handles set_io set_freeFrameNr set_files].
  rewrite array_set_Ok by assumption. cbn [bind].
  cbn [files set_handles set_io set_freeFrameNr set_files].
  rewrite array_get_insert_eq by assumption. cbn [bind].
  rewrite array_set_Ok by (rewrite len_insert; assumption). cbn [bind].
  rewrite list_insert_insert_eq.
  assert (Heta : {| file := Some i; loc := loc h; status := status h |} = h)
    by (rewrite <- Hfile; apply handle_eta).
  rewrite ?Heta, ?handle_eta.
  rewrite (list_insert_id (handles d))
    by (apply array_get_Ok in Hh as [_ Hh]; exact Hh).
  unfold set_files, set_handles, set_io, set_freeFrameNr.
  cbn [isOn nbFiles nbHandles freeFrameNr files handles cache_st bus
       name size frames nrFrames].
  reflexivity.
Qed.

End ClosedHandles.

(** ** Files never share a frame *)

Section Apart.
Context {P : Platform}.
Hypothesis Hdevice : BLOCK_BLOCK_SIZE <= 2 ^ 16.

(** File [i] of the table [fs] has frame [g] at place [p] of its frame
    array, among the frames it counts as its own. *)
Definition owns (fs : list file_t) (i p g : Z) : Prop :=
  exists f, array_get fs i = Ok f /\ 0 <= p < nrFrames f /\
            array_get (frames f) p = Ok g.

(** Every file counts no more frames than its array has; the frames the
    files own are frames of the device below the counter [free]; and no
    frame is owned twice, neither by two files nor at two places of one
    file. *)
Definition apart (fs : list file_t) (free : Z) : Prop :=
  0 <= free /\
  (forall i f, array_get fs i = Ok f ->
     0 <= nrFrames f <= len (frames f) /\ len (frames f) < 2 ^ 16) /\
  (forall i p g, owns fs i p g -> 0 <= g < free /\ g < BLOCK_BLOCK_SIZE) /\
  (forall i p i' p' g, owns fs i p g -> owns fs i' p' g -> i = i' /\ p = p').

Definition frames_apart (d : Driver) : Prop := apart (files d) (freeFrameNr d).

(** The file interface from power-on: the calls are made one after the
    other, as long as each of them returns. *)
Fixpoint api_run (fuel : nat) (calls : list api_call) (d : Driver)
  : res Driver :=
  match calls with
  | [] => Ok d
  | call :: calls' =>
      do (_, d') <- api_step fuel call d; api_run fuel calls' d'
  end.

(** File [i] gets the frame array [frs'] and counts [nr'] frames of it:
    the frames it had, then frames from the counter on. *)
Lemma apart_allocate (fs : list file_t) (free free' : Z) (i : Z) (f : file_t)
    (frs' : list Z) (nr' : Z) (nm : list Z) (sz : Z) :
  apart fs free -> array_get fs i = Ok f ->
  len frs' = len (frames f) -> nrFrames f <= nr' <= len frs' ->
  free <= free' ->
  (forall k, 0 <= k < nrFrames f -> array_get frs' k = array_get (frames f) k) ->
  (forall k, nrFrames f <= k < nr' ->
     array_get frs' k = Ok (free + (k - nrFrames f))) ->
  (nrFrames f < nr' ->
     free + (nr' - nrFrames f) <= free' /\ free' <= BLOCK_BLOCK_SIZE) ->
  apart (<[Z.to_nat i := {| name := nm; size := sz; frames := frs';
                            nrFrames := nr' |}]> fs) free'.
Proof.
  intros (Hfree & Hsize & Hlow & Huniq) Hf Hl Hnr Hle Hold Hnew Hroom.
  pose proof (array_get_range _ _ _ Hf) as Hi.
  destruct (Hsize _ _ Hf) as [Hnrf Hlen].
  set (f' := {| name := nm; size := sz; frames := frs'; nrFrames := nr' |}).
  assert (Hcases : forall i0 p g, owns (<[Z.to_nat i := f']> fs) i0 p g ->
            owns fs i0 p g \/
            (i0 = i /\ nrFrames f <= p < nr' /\ g = free + (p - nrFrames f))).
  { intros i0 p g (f0 & Hf0 & Hp & Hg).
    pose proof (array_get_range _ _ _ Hf0) as Hi0. rewrite len_insert in Hi0.
    destruct (Z.eq_dec i0 i) as [->|Hne].
    - rewrite array_get_insert_eq in Hf0 by assumption. injection Hf0 as <-.
      cbn [nrFrames frames f'] in Hp, Hg.
      destruct (Z.lt_ge_cases p (nrFrames f)) as [Hlt|Hge].
      + left. exists f. rewrite Hold in Hg by lia. auto with lia.
      + right. rewrite Hnew in Hg by lia. injection Hg as <-. auto with lia.
    - left. exists f0. rewrite array_get_insert_ne in Hf0 by lia. auto. }
  split; [lia|]. split; [|split].
  - intros i0 f0 Hf0.
    pose proof (array_get_range _ _ _ Hf0) as Hi0. rewrite len_insert in Hi0.
    destruct (Z.eq_dec i0 i) as [->|Hne].
    + rewrite array_get_insert_eq in Hf0 by assumption. injection Hf0 as <-.
      cbn [nrFrames frames f']. lia.
    + rewrite array_get_insert_ne in Hf0 by lia. eauto.
  - intros i0 p g Ho. destruct (Hcases _ _ _ Ho) as [Hold'|(-> & Hp & ->)].
    + destruct (Hlow _ _ _ Hold'). lia.
    + lia.
  - intros i0 p i1 p1 g Ho Ho1.
    destruct (Hcases _ _ _ Ho) as [Ha|(-> & Hp & Hg)];
      destruct (Hcases _ _ _ Ho1) as [Ha1|(-> & Hp1 & Hg1)].
    + eauto.
    + destruct (Hlow _ _ _ Ha). lia.
    + destruct (Hlow _ _ _ Ha1). lia.
    + split; [reflexivity|lia].
Qed.

(** A new file owns no frame. *)
Lemma apart_new_file (fs : list file_t) (free j : Z) (slot : file_t)
    (nm : list Z) :
  apart fs free -> array_get fs j = Ok slot ->
  apart (<[Z.to_nat j := {| name := nm; size := 0; frames := frames slot;
                            nrFrames := 0 |}]> fs) free.
Proof.
  intros (Hfree & Hsize & Hlow & Huniq) Hslot.
  pose proof (array_get_range _ _ _ Hslot) as Hj.
  destruct (Hsize _ _ Hslot) as [Hnrf Hlen].
  set (f' := {| name := nm; size := 0; frames := frames slot; nrFrames := 0 |}).
  assert (Hcases : forall i0 p g, owns (<[Z.to_nat j := f']> fs) i0 p g ->
            owns fs i0 p g).
  { intros i0 p g (f0 & Hf0 & Hp & Hg).
    pose proof (array_get_range _ _ _ Hf0) as Hi0. rewrite len_insert in Hi0.
    destruct (Z.eq_dec i0 j) as [->|Hne].
    - rewrite array_get_insert_eq in Hf0 by assumption. injection Hf0 as <-.
      cbn [nrFrames f'] in Hp. lia.
    - exists f0. rewrite array_get_insert_ne in Hf0 by lia. auto. }
  split; [assumption|]. split; [|split].
  - intros i0 f0 Hf0.
    pose proof (array_get_range _ _ _ Hf0) as Hi0. rewrite len_insert in Hi0.
    destruct (Z.eq_dec i0 j) as [->|Hne].
    + rewrite array_get_insert_eq in Hf0 by assumption. injection Hf0 as <-.
      cbn [nrFrames frames f']. lia.
    + rewrite array_get_insert_ne in Hf0 by lia. eauto.
  - intros i0 p g Ho. eauto.
  - intros i0 p i1 p1 g Ho Ho1. eauto.
Qed.

Lemma api_step_keeps_apart (fuel : nat) (call : api_call) (d d' : Driver)
    (rc : Z) :
  frames_apart d -> api_step fuel call d = Ok (rc, d') -> frames_apart d'.
Proof.
  unfold frames_apart. intros Hinv Hstep.
  destruct call as [path|fd|fd count|fd buf count|fd loc0]; cbn [api_step] in Hstep.
  - (* open *)
    unfold block_open in Hstep.
    destruct (isOn d =? 0); [now injection Hstep as _ <-|].
    apply bind_Ok in Hstep as ([found i] & _ & Hstep).
    apply bind_Ok in Hstep as ([i' d1] & Hcreate & Hstep).
    apply bind_Ok in Hstep as (hs & _ & [= _ <-]). cbn [files freeFrameNr].
    destruct found.
    + now injection Hcreate as _ <-.
    + apply bind_Ok in Hcreate as (slot & Hslot & Hcreate).
      apply bind_Ok in Hcreate as (f & Hf & Hcreate).
      apply bind_Ok in Hcreate as (fs & Hfs & [= _ <-]). cbn [files freeFrameNr].
      apply array_set_inv in Hfs as [_ ->].
      unfold createNewFile in Hf.
      apply bind_Ok in Hf as (nm & _ & [= <-]).
      now apply apart_new_file.
  - (* close *)
    unfold block_close in Hstep.
    destruct (isOn d =? 0); [now injection Hstep as _ <-|].
    apply bind_Ok in Hstep as (h & _ & Hstep).
    destruct (status h =? CLOSED); [now injection Hstep as _ <-|].
    apply bind_Ok in Hstep as (hs & _ & [= _ <-]). assumption.
  - (* read *)
    apply bind_Ok in Hstep as ([[r out] d1] & Hstep & [= _ <-]).
    unfold block_read in Hstep.
    destruct (isOn d =? 0); [now injection Hstep as _ _ <-|].
    apply bind_Ok in Hstep as (h & _ & Hstep).
    destruct (status h =? CLOSED); [now injection Hstep as _ _ <-|].
    apply bind_Ok in Hstep as (f & _ & Hstep).
    apply bind_Ok in Hstep as ([[[l o] cs] b] & _ & Hstep).
    apply bind_Ok in Hstep as (hs & _ & [= _ _ <-]). assumption.
  - (* write *)
    unfold block_write in Hstep.
    apply bind_Ok in Hstep as (h & _ & Hstep).
    destruct (status h =? CLOSED); [now injection Hstep as _ <-|].
    apply bind_Ok in Hstep as ([rc1 d1] & Halloc & Hstep).
    apply allocateNewFrames_inv in Halloc
      as (i & f & n & frs & nr & free & rc0 & Hfile & Hf & Hrun & -> & ->).
    pose proof Hinv as (Hfree & Hsize & _).
    destruct (Hsize _ _ Hf) as [Hnrf Hlen].
    rewrite u16_small in Hrun by lia.
    apply allocate_loop_inv in Hrun
      as (Hl & Hle & Hup & Hdiff & Hold & Hnew & Hrc); [|lia|lia].
    pose proof (array_get_range _ _ _ Hf) as Hi.
    destruct (rc0 =? -1) eqn:Erc.
    + change (-1 =? -1) with true in Hstep. injection Hstep as _ <-.
      cbn [files freeFrameNr set_freeFrameNr set_files].
      apply (apart_allocate (files d) (freeFrameNr d) free i f);
        try assumption; try lia.
    + change (0 =? -1) with false in Hstep.
      apply bind_Ok in Hstep as (f1 & Hf1 & Hstep).
      apply bind_Ok in Hstep as ([[loc' cs] b] & _ & Hstep).
      apply bind_Ok in Hstep as (hs & _ & Hstep).
      apply bind_Ok in Hstep as (f2 & Hf2 & Hstep).
      apply bind_Ok in Hstep as (d3 & Hstore & [= _ <-]).
      apply store_file_inv in Hstore as (i' & Hi' & _ & ->).
      rewrite Hfile in Hi'. injection Hi' as <-.
      unfold deref_file in Hf2. rewrite Hfile in Hf2.
      cbn [files freeFrameNr set_handles set_io set_freeFrameNr set_files]
        in Hf2 |- *.
      rewrite list_insert_insert_eq.
      rewrite array_get_insert_eq in Hf2 by assumption. injection Hf2 as <-.
      cbn [name size frames nrFrames].
      assert (Hrc0 : rc0 = 0 /\ (nr = nrFrames f \/ free <= BLOCK_BLOCK_SIZE)).
      { destruct Hrc as [(-> & _ & Hc)|(-> & _)]; [auto|discriminate]. }
      destruct Hrc0 as [_ Hc].
      apply (apart_allocate (files d) (freeFrameNr d) free i f); try assumption; try lia.
      intros k Hk. rewrite Hnew by assumption. now rewrite u16_small by lia.
  - (* seek *)
    unfold block_seek in Hstep.
    apply bind_Ok in Hstep as (h & _ & Hstep).
    destruct (status h =? CLOSED); [now injection Hstep as _ <-|].
    apply bind_Ok in Hstep as (f & _ & Hstep).
    destruct (u32 (size f) <? u32 loc0); [now injection Hstep as _ <-|].
    apply bind_Ok in Hstep as (hs & _ & [= _ <-]). assumption.
Qed.

Lemma poweron_apart (fuel : nat) (d0 d : Driver) :
  0 <= BLOCK_MAX_TOTAL_FILES < BLOCK_BLOCK_SIZE ->
  block_poweron fuel d0 = Ok (0, d) -> frames_apart d.
Proof.
  intros Hmax Hon. unfold block_poweron in Hon.
  destruct (negb (isOn d0 =? 0)); [discriminate|].
  apply bind_Ok in Hon as ([f1 b1] & _ & Hon).
  apply bind_Ok in Hon as ([f2 b2] & _ & Hon).
  cbn in Hon. injection Hon as <-.
  unfold frames_apart. cbn [files freeFrameNr]. unfold getFreeFrame.
  rewrite (proj2 (Z.ltb_lt _ _)) by lia.
  assert (Hzero : forall i f,
            array_get (repeat zero_file (Z.to_nat BLOCK_MAX_TOTAL_FILES)) i = Ok f ->
            f = zero_file).
  { intros i f [_ Hf]%array_get_Ok.
    apply list_elem_of_lookup_2, list_elem_of_In, repeat_spec in Hf. exact Hf. }
  assert (Hnone : forall i p g,
            ~ owns (repeat zero_file (Z.to_nat BLOCK_MAX_TOTAL_FILES)) i p g).
  { intros i p g (f & Hf & Hp & _). apply Hzero in Hf as ->.
    cbn [nrFrames zero_file] in Hp. lia. }
  split; [lia|]. split; [|split].
  - intros i f Hf. apply Hzero in Hf as ->. vm_compute. repeat split; discriminate.
  - intros i p g Ho. now apply Hnone in Ho.
  - intros i p i' p' g Ho. now apply Hnone in Ho.
Qed.

(** X30. No two files ever share a frame.  From a [block_poweron] that
    returns 0 on, on a device of at most 2^16 frames and more frames than
    file records, after any sequence of calls of the file interface each of
    which returns, with whatever return value: every file counts no more
    frames than its array holds, the frames it counts are frames of the
    device below the free-frame counter, and no frame is counted twice, by
    two files or at two places of one.  A write that fails for lack of
    frames keeps this, although it has written to the frame array and moved
    the counter. *)
Theorem frames_stay_apart (fuel : nat) (calls : list api_call)
    (d0 d d' : Driver) :
  0 <= BLOCK_MAX_TOTAL_FILES < BLOCK_BLOCK_SIZE ->
  block_poweron fuel d0 = Ok (0, d) ->
  api_run fuel calls d = Ok d' ->
  frames_apart d'.
Proof.
  intros Hmax Hon. pose proof (poweron_apart fuel d0 d Hmax Hon) as Hinv.
  clear Hon. revert d Hinv.
  induction calls as [|call calls IH]; intros d Hinv Hrun; cbn [api_run] in Hrun.
  - now injection Hrun as <-.
  - apply bind_Ok in Hrun as ([rc d1] & Hstep & Hrun).
    apply (IH d1); [|assumption].
    exact (api_step_keeps_apart fuel call d d1 rc Hinv Hstep).
Qed.

End Apart.

(** ** The properties above on the simulated device *)

Lemma sim_stored_whole (m : gmap Z (list Z)) :
  map_Forall (fun _ fr => len fr = BLOCK_FRAME_SIZE) m ->
  forall g, len (sim_stored m g) = BLOCK_FRAME_SIZE.
Proof.
  intros Hm g. unfold sim_stored.
  destruct (m !! g) as [fr|] eqn:E; [exact (Hm g fr E)|reflexivity].
Qed.

Lemma run_state {P : Platform} (r : res Driver) (dflt : Driver) :
  match r with Ok _ => True | _ => False end ->
  r = Ok (match r with Ok d => d | _ => dflt end).
Proof. destruct r as [d| |]; intros H; [reflexivity|contradiction..]. Qed.

(** The handle and the file of [sim_opened_state]. *)
Definition sim_handle : fh_t := {| file := Some 0; loc := 0; status := OPEN |}.

Definition sim_file : file_t :=
  {| name := 97 :: repeat 0 127%nat; size := 0;
     frames := repeat 0 1024%nat; nrFrames := 0 |}.

Lemma block_write_changes_only_its_bytes_witness :
  exists d' f',
    @block_write sim 1 0 sim_buf (len sim_buf) sim_opened_state
      = Ok (len sim_buf, d') /\
    array_get (@files sim d') 0 = Ok f' /\
    (forall (k : nat) x, sim_buf !! k = Some x ->
       @file_byte sim sim_stored (@cache_st sim d') (@bus sim d') f'
         (0 + Z.of_nat k) x).
Proof.
  destruct (@block_write_changes_only_its_bytes sim sim_stored sim_faithful
              0%nat sim_opened_state 0 0 sim_handle sim_file sim_buf)
    as (d' & f' & Hw & Hf' & _ & Hbytes & _).
  - vm_compute. reflexivity.
  - vm_compute. discriminate.
  - reflexivity.
  - vm_compute. reflexivity.
  - cbn. lia.
  - exact sim_opened_frames_ok.
  - vm_compute. discriminate.
  - vm_compute. discriminate.
  - vm_compute. discriminate.
  - vm_compute. discriminate.
  - exact sim_opened_io_ok.
  - exists d', f'. auto.
Defined.

(** The simulated device after 4096 bytes of value 7 are written to the
    file opened and the cursor is set back to 0. *)
Definition sim_rewound_state : @Driver sim :=
  match @block_seek sim 0 0 sim_written_state with
  | Ok (_, d) => d
  | _ => sim_written_state
  end.

Definition sim_file_written : file_t :=
  {| name := 97 :: repeat 0 127%nat; size := 4096;
     frames := 4 :: repeat 0 1023%nat; nrFrames := 1 |}.

Lemma sim_rewound_io_ok :
  @io_ok sim sim_stored (@cache_st sim sim_rewound_state)
         (@bus sim sim_rewound_state).
Proof.
  split.
  - exists {| currentSize := 1;
              head := [{| nBlock := 0; nFrm := 4;
                          nbuf := repeat 7 (Z.to_nat 4096) |}] |}.
    split; [vm_compute; reflexivity|]. split; [reflexivity|].
    split.
    + repeat constructor. intros [].
    + repeat constructor; vm_compute; congruence.
  - apply sim_stored_whole.
    replace (@bus sim sim_rewound_state)
      with (<[4 := repeat 7 (Z.to_nat 4096)]> (∅ : gmap Z (list Z)))
      by (vm_compute; reflexivity).
    apply map_Forall_insert_2; [reflexivity|apply map_Forall_empty].
Qed.

Lemma sim_rewound_bytes (k : nat) (x : Z) :
  repeat 7 (Z.to_nat 4096) !! k = Some x ->
  @file_byte sim sim_stored (@cache_st sim sim_rewound_state)
    (@bus sim sim_rewound_state) sim_file_written (0 + Z.of_nat k) x.
Proof.
  intros Hx. pose proof (lookup_lt_Some _ _ _ Hx) as Hk.
  rewrite repeat_length in Hk.
  assert (x = 7) as ->
    by (apply list_elem_of_lookup_2, list_elem_of_In, repeat_spec in Hx;
        exact Hx).
  exists 4. rewrite Z.add_0_l. unfold BLOCK_FRAME_SIZE.
  rewrite Z.div_small, Z.mod_small by lia. rewrite Nat2Z.id.
  split; [reflexivity|]. split; [lia|]. split.
  - replace (sim_stored (@bus sim sim_rewound_state) 4)
      with (repeat 7 (Z.to_nat 4096)) by (vm_compute; reflexivity).
    exact Hx.
  - intros c Hc.
    assert (Hcached : cached (@cache_st sim sim_rewound_state) 4
                      = Some (repeat 7 (Z.to_nat 4096)))
      by (vm_compute; reflexivity).
    rewrite Hcached in Hc. injection Hc as <-. exact Hx.
Qed.

Lemma block_read_returns_file_bytes_witness :
  exists cs' b',
    @block_read sim 1 0 5000 sim_rewound_state
    = Ok (Z.min 5000 (size sim_file_written - loc sim_handle),
          repeat 7 (Z.to_nat 4096),
          {| isOn := @isOn sim sim_rewound_state;
             nbFiles := @nbFiles sim sim_rewound_state;
             nbHandles := @nbHandles sim sim_rewound_state;
             freeFrameNr := @freeFrameNr sim sim_rewound_state;
             files := @files sim sim_rewound_state;
             handles :=
               <[Z.to_nat 0 :=
                   {| file := file sim_handle;
                      loc := loc sim_handle
                             + Z.min 5000 (size sim_file_written - loc sim_handle);
                      status := status sim_handle |}]>
                 (@handles sim sim_rewound_state);
             cache_st := cs'; bus := b' |}) /\
    @io_ok sim sim_stored cs' b' /\
    (forall f' k x,
       @file_byte sim sim_stored (@cache_st sim sim_rewound_state)
         (@bus sim sim_rewound_state) f' k x ->
       @file_byte sim sim_stored cs' b' f' k x).
Proof.
  apply (@block_read_returns_file_bytes sim sim_stored sim_faithful 0%nat
           sim_rewound_state 0 0 5000 sim_handle sim_file_written
           (repeat 7 (Z.to_nat 4096))).
  - vm_compute. discriminate.
  - vm_compute. reflexivity.
  - vm_compute. discriminate.
  - reflexivity.
  - vm_compute. reflexivity.
  - cbn. lia.
  - vm_compute. reflexivity.
  - exact sim_rewound_bytes.
  - exact sim_rewound_io_ok.
Defined.

(** The simulated device after power-on and two calls of
    [block_open("a")]. *)
Definition sim_shared_state : @Driver sim :=
  match @block_open sim [97] sim_opened_state with
  | Ok (_, d) => d
  | _ => sim_opened_state
  end.

Lemma write_seen_through_other_handle_witness :
  exists d1 d2,
    @block_write sim 1 0 sim_buf (len sim_buf) sim_shared_state
      = Ok (len sim_buf, d1) /\
    @block_read sim 1 1 (len sim_buf) d1 = Ok (len sim_buf, sim_buf, d2) /\
    array_get (@handles sim d1) 1 = Ok sim_handle /\
    (exists h1, array_get (@handles sim d2) 0 = Ok h1 /\
                loc h1 = loc sim_handle + len sim_buf) /\
    (exists h3, array_get (@handles sim d2) 1 = Ok h3 /\
                loc h3 = loc sim_handle + len sim_buf).
Proof.
  apply (@write_seen_through_other_handle sim sim_stored sim_faithful 0%nat
           sim_shared_state 0 1 0 sim_handle sim_handle sim_file sim_buf).
  - vm_compute. discriminate.
  - discriminate.
  - vm_compute. reflexivity.
  - vm_compute. discriminate.
  - reflexivity.
  - vm_compute. reflexivity.
  - vm_compute. discriminate.
  - reflexivity.
  - reflexivity.
  - vm_compute. reflexivity.
  - vm_compute. split; discriminate.
  - exact sim_opened_frames_ok.
  - vm_compute. discriminate.
  - vm_compute. discriminate.
  - vm_compute. discriminate.
  - vm_compute. discriminate.
  - exact sim_opened_io_ok.
Defined.

Lemma use_after_close_fails_witness :
  exists d',
    @block_close sim 0 sim_opened_state = Ok (0, d') /\
    @block_read sim 1 0 10 d' = Ok (-1, [], d') /\
    @block_write sim 1 0 [1; 2] 10 d' = Ok (-1, d') /\
    @block_seek sim 0 0 d' = Ok (-1, d') /\
    @block_close sim 0 d' = Ok (-1, d').
Proof.
  apply (@use_after_close_fails sim 1%nat sim_opened_state 0 10 0 sim_handle
           [1; 2]).
  - vm_compute. discriminate.
  - vm_compute. reflexivity.
  - vm_compute. discriminate.
Defined.

Lemma block_write_nonpositive_count_witness :
  @block_write sim 1 0 [] (-96) sim_written_state
  = Ok (-96,
        @set_files sim sim_written_state
          (<[Z.to_nat 0 :=
               {| name := name sim_file_written;
                  size := size sim_file_written + -96;
                  frames := frames sim_file_written;
                  nrFrames := nrFrames sim_file_written |}]>
             (@files sim sim_written_state))).
Proof.
  apply (@block_write_nonpositive_count sim 1%nat sim_written_state 0 0 (-96)
           {| file := Some 0; loc := 4096; status := OPEN |}
           sim_file_written []).
  - vm_compute. reflexivity.
  - vm_compute. discriminate.
  - reflexivity.
  - vm_compute. reflexivity.
  - vm_compute. split; [discriminate|reflexivity].
  - lia.
  - vm_compute. discriminate.
Defined.

(** Two files are opened and 5000 bytes are written to each, which uses
    up the four frames of the device; a further write fails for lack of
    frames; then a read, a seek and a close. *)
Definition sim_calls : list api_call :=
  [Open [97]; Write 0 sim_buf 5000; Open [98]; Write 1 sim_buf 5000;
   Write 0 sim_buf 5000; Seek 0 0; Read 0 5000; Close 1].

Definition sim_busy_state : @Driver sim :=
  match @api_run sim 1 sim_calls (@powered_on sim (@boot_state sim ∅) ∅) with
  | Ok d => d
  | _ => @boot_state sim ∅
  end.

Lemma frames_stay_apart_witness : @frames_apart sim sim_busy_state.
Proof.
  apply (@frames_stay_apart sim ltac:(vm_compute; discriminate) 1%nat sim_calls
           (@boot_state sim ∅) (@powered_on sim (@boot_state sim ∅) ∅)
           sim_busy_state).
  - vm_compute. split; [discriminate|reflexivity].
  - reflexivity.
  - apply (@run_state sim). vm_compute. exact I.
Defined.
